(** * SentinelaRF: the scan / analyse / adapt loop of the RF analyzer

    A shallow embedding of the two programs of the repository,
    [app.py] (the analyzer behind the web interface, module [App]) and
    [rf_analyzer.py] (the standalone analyzer, module [Standalone]), with
    the Python primitives they rely on ([str.strip], [str.split], [int],
    [float], [csv.reader], [re.search]) and the properties of the design
    document stated and proved over them.

    Conventions of the model.
    - Text is a sequence of code points below 256 ([list ascii]); the
      character classes below are Python's, restricted to that range.
    - [float] is IEEE binary64, as specified by [SpecFloat] with
      [prec = 53] and [emax = 1024]; decimal literals are rounded to nearest,
      ties to even, as [float()] does.
    - [int] is unbounded ([Z]); [int()] reads at most 4300 digits, the
      interpreter's default limit, and raises [ValueError] beyond.
    - External collaborators (the sweep process, the language-model
      endpoint, the stop requests of other threads) are scripted: a
      [world] holds the answers they will give, in order. *)

From Stdlib Require Import List String Ascii ZArith NArith Bool Lia.
From Stdlib Require DecimalString.
From Stdlib Require Import Floats.SpecFloat.
Import ListNotations.

Local Open Scope Z_scope.

(** ** Python text *)

Definition str : Type := list ascii.

Definition lit (s : string) : str := list_ascii_of_string s.

Definition code (c : ascii) : N := N_of_ascii c.

Definition between (lo hi : N) (c : ascii) : bool :=
  (N.leb lo (code c) && N.leb (code c) hi)%bool.

(** [c.isspace()] for a code point below 256. *)
Definition isspace (c : ascii) : bool :=
  (between 9 13 c || between 28 32 c || N.eqb (code c) 133
   || N.eqb (code c) 160)%bool.

(** The white space [int()] and [float()] strip: the C locale's, and the
    two code points above 127 that Python turns into a blank first. *)
Definition isspace_num (c : ascii) : bool :=
  (between 9 13 c || N.eqb (code c) 32 || N.eqb (code c) 133
   || N.eqb (code c) 160)%bool.

Definition isdigit (c : ascii) : bool := between 48 57 c.

Definition isupper_ascii (c : ascii) : bool := between 65 90 c.
Definition islower_ascii (c : ascii) : bool := between 97 122 c.

(** [\w] of the [re] module on [str] patterns: alphanumeric or underscore. *)
Definition isword (c : ascii) : bool :=
  (isdigit c || isupper_ascii c || islower_ascii c || N.eqb (code c) 95
   || N.eqb (code c) 170 || between 178 179 c || N.eqb (code c) 181
   || between 185 186 c || between 188 190 c || between 192 214 c
   || between 216 246 c || between 248 255 c)%bool.

Definition lower_ascii (c : ascii) : ascii :=
  if isupper_ascii c then ascii_of_N (code c + 32) else c.

(** [c.upper()]; on the letters of the Latin-1 supplement whose upper case
    is a single code point below 256, and on ASCII. *)
Definition upper_char (c : ascii) : ascii :=
  if (islower_ascii c || between 224 246 c || between 248 254 c)%bool
  then ascii_of_N (code c - 32) else c.

Definition upper (s : str) : str := map upper_char s.

Fixpoint lstrip (p : ascii -> bool) (s : str) : str :=
  match s with
  | c :: s' => if p c then lstrip p s' else s
  | [] => []
  end.

Definition rstrip (p : ascii -> bool) (s : str) : str :=
  rev (lstrip p (rev s)).

(** [s.strip()] *)
Definition strip (s : str) : str := rstrip isspace (lstrip isspace s).

(** [s.split(sep)] for a one-character separator: every separator cuts,
    empty pieces are kept, and the result is never empty. *)
Fixpoint split (sep : ascii) (s : str) : list str :=
  match s with
  | [] => [[]]
  | c :: s' =>
      if Ascii.eqb c sep then [] :: split sep s'
      else match split sep s' with
           | p :: ps => (c :: p) :: ps
           | [] => [[c]]
           end
  end.

Definition newline : ascii := ascii_of_N 10.
Definition carriage_return : ascii := ascii_of_N 13.
Definition quotechar : ascii := ascii_of_N 34.

(** Underscores in a numeric literal: each one stands between two digits.
    They are checked and removed before the number is read. *)
Fixpoint drop_underscores (prev : ascii) (s : str) : option str :=
  match s with
  | [] => if Ascii.eqb prev "_" then None else Some []
  | c :: s' =>
      if Ascii.eqb c "_" then
        if isdigit prev then drop_underscores c s' else None
      else if (Ascii.eqb prev "_" && negb (isdigit c))%bool then None
      else option_map (cons c) (drop_underscores c s')
  end.

Definition digit_val (c : ascii) : Z := Z.of_N (code c) - 48.

(** Value of a run of decimal digits, most significant first. *)
Definition digits_val (ds : str) : Z :=
  fold_left (fun acc c => 10 * acc + digit_val c) ds 0.

Definition split_sign (s : str) : bool * str :=
  match s with
  | c :: s' =>
      if Ascii.eqb c "-" then (true, s')
      else if Ascii.eqb c "+" then (false, s')
      else (false, s)
  | [] => (false, [])
  end.

(** The most digits [int()] reads ([sys.get_int_max_str_digits()]). *)
Definition int_max_str_digits : Z := 4300.

(** [int(s)]; [None] stands for [ValueError]. *)
Definition int_of_str (s : str) : option Z :=
  let body := rstrip isspace_num (lstrip isspace_num s) in
  let '(neg, ds) := split_sign body in
  match drop_underscores "x" ds with
  | Some (d :: ds') =>
      if (forallb isdigit (d :: ds')
          && (Z.of_nat (List.length (d :: ds')) <=? int_max_str_digits))%bool
      then Some (if neg then - digits_val (d :: ds') else digits_val (d :: ds'))
      else None
  | _ => None
  end.

(** [str(n)] for an [int]. *)
Definition str_of_int (n : Z) : str :=
  lit (DecimalString.NilZero.string_of_int (Z.to_int n)).

(** ** Floating-point numbers: IEEE binary64 *)

Definition float : Type := spec_float.

Definition prec : Z := 53.
Definition emax : Z := 1024.

(** The double nearest to [± num / den] (ties to even). *)
Definition float_of_ratio (neg : bool) (num den : positive) : float :=
  let '(q, e, l) := SFdiv_core_binary prec emax (Zpos num) 0 (Zpos den) 0 in
  binary_round_aux prec emax neg q e l.

(** The double nearest to [± m * 10 ^ e]. *)
Definition float_of_decimal (neg : bool) (m : Z) (e : Z) : float :=
  match m with
  | Zpos p =>
      if 0 <=? e then float_of_ratio neg (p * Z.to_pos (10 ^ e)) 1
      else float_of_ratio neg p (Z.to_pos (10 ^ (- e)))
  | _ => S754_zero neg
  end.

(** [a > b] and [a < b] on floats; both are false when a NaN is involved. *)
Definition fgt (a b : float) : bool := SFltb b a.
Definition flt (a b : float) : bool := SFltb a b.

Definition is_nan (a : float) : bool :=
  match a with S754_nan => true | _ => false end.

Fixpoint span (p : ascii -> bool) (s : str) : str * str :=
  match s with
  | c :: s' =>
      if p c then let '(a, b) := span p s' in (c :: a, b) else ([], s)
  | [] => ([], [])
  end.

(** The exponent part of a literal: [e] or [E], an optional sign, digits
    to the end. *)
Definition read_exponent (s : str) : option Z :=
  match s with
  | [] => Some 0
  | c :: s' =>
      if Ascii.eqb (lower_ascii c) "e" then
        let '(neg, ds) := split_sign s' in
        match ds with
        | _ :: _ =>
            if forallb isdigit ds
            then Some (if neg then - digits_val ds else digits_val ds)
            else None
        | [] => None
        end
      else None
  end.

(** A decimal literal without sign: digits, an optional point and digits,
    at least one digit in all, an optional exponent. *)
Definition read_decimal (neg : bool) (s : str) : option float :=
  let '(ip, r1) := span isdigit s in
  let '(fp, r2) :=
    match r1 with
    | c :: r => if Ascii.eqb c "." then span isdigit r else ([], r1)
    | [] => ([], [])
    end in
  match ip ++ fp with
  | [] => None
  | ds =>
      match read_exponent r2 with
      | Some ex =>
          Some (float_of_decimal neg (digits_val ds)
                  (ex - Z.of_nat (List.length fp)))
      | None => None
      end
  end.

Definition str_eqb (a b : str) : bool :=
  if list_eq_dec ascii_dec a b then true else false.

(** [float(s)]; [None] stands for [ValueError]. *)
Definition float_of_str (s : str) : option float :=
  let body := rstrip isspace_num (lstrip isspace_num s) in
  match drop_underscores "x" body with
  | None => None
  | Some t =>
      let '(neg, u) := split_sign t in
      let w := map lower_ascii u in
      if (str_eqb w (lit "inf") || str_eqb w (lit "infinity"))%bool
      then Some (S754_infinity neg)
      else if str_eqb w (lit "nan") then Some S754_nan
      else read_decimal neg u
  end.

(** [a / b] for two [int]s, [b] positive: the nearest double, or
    [OverflowError] ([None]) when the quotient is too large for one. *)
Definition int_truediv (a : Z) (b : positive) : option float :=
  match a with
  | Z0 => Some (S754_zero false)
  | Zpos p =>
      match float_of_ratio false p b with
      | S754_infinity _ => None
      | f => Some f
      end
  | Zneg p =>
      match float_of_ratio true p b with
      | S754_infinity _ => None
      | f => Some f
      end
  end.

Definition fdiv (a b : float) : float := SFdiv prec emax a b.

(** ** Exceptions and results *)

Inductive exn : Type :=
| ValueError
| IndexError
| OverflowError
| AttributeError
| TypeError
| StopIteration
| CsvError
| FileNotFoundError
| RequestException
| KeyboardInterrupt.

Definition exn_eqb (a b : exn) : bool :=
  match a, b with
  | ValueError, ValueError | IndexError, IndexError
  | OverflowError, OverflowError | AttributeError, AttributeError
  | TypeError, TypeError
  | StopIteration, StopIteration | CsvError, CsvError
  | FileNotFoundError, FileNotFoundError
  | RequestException, RequestException
  | KeyboardInterrupt, KeyboardInterrupt => true
  | _, _ => false
  end.

(** What running a piece of code gives: a value, an exception, or
    [Stuck] when the script of external answers has run out. *)
Inductive res (A : Type) : Type :=
| Ret (a : A)
| Raise (e : exn)
| Stuck.

Arguments Ret {A} a.
Arguments Raise {A} e.
Arguments Stuck {A}.

(** Code acting on a state [S]: the state it leaves is kept when it
    raises, as the assignments of a Python block are. *)
Definition M (S A : Type) : Type := S -> res A * S.

Definition ret {S A} (a : A) : M S A := fun s => (Ret a, s).

Definition bind {S A B} (m : M S A) (f : A -> M S B) : M S B :=
  fun s =>
    match m s with
    | (Ret a, s') => f a s'
    | (Raise e, s') => (Raise e, s')
    | (Stuck, s') => (Stuck, s')
    end.

Definition raise {S A} (e : exn) : M S A := fun s => (Raise e, s).

Definition get {S} : M S S := fun s => (Ret s, s).
Definition put {S} (s : S) : M S unit := fun _ => (Ret tt, s).
Definition modify {S} (f : S -> S) : M S unit := fun s => (Ret tt, f s).

(** [try: m except (the exceptions of [caught]): handler] *)
Definition try_except {S A} (m : M S A) (caught : exn -> bool)
    (handler : M S A) : M S A :=
  fun s =>
    match m s with
    | (Raise e, s') => if caught e then handler s' else (Raise e, s')
    | r => r
    end.

(** A value that may be [ValueError] and the like, entering the code. *)
Definition orelse {S A} (e : exn) (o : option A) : M S A :=
  match o with
  | Some a => ret a
  | None => raise e
  end.

Declare Scope py_scope.
Delimit Scope py_scope with py.
Notation "x <- m ;; k" := (bind m (fun x => k))
  (at level 61, m at next level, right associativity) : py_scope.
Notation "' pat <- m ;; k" := (bind m (fun x => let 'pat := x in k))
  (at level 61, pat pattern, m at next level, right associativity) : py_scope.
Notation "m ;;; k" := (bind m (fun _ => k))
  (at level 61, right associativity) : py_scope.
Local Open Scope py_scope.

(** [for x in xs: body] *)
Fixpoint for_each {S A} (xs : list A) (body : A -> M S unit) : M S unit :=
  match xs with
  | [] => ret tt
  | x :: xs' => body x ;;; for_each xs' body
  end.

(** ** csv.reader, default dialect

    Delimiter comma, quote character the double quote (doubled inside a
    quoted field), not strict. The
    reader is fed lines without their line ends, as [split] leaves them. *)

Inductive csv_state : Type :=
| START_RECORD
| START_FIELD
| IN_FIELD
| IN_QUOTED_FIELD
| QUOTE_IN_QUOTED_FIELD
| EAT_CRNL.

Record csv_parser : Type := {
  state : csv_state;
  field : str;          (* the field being read, last character first *)
  fields : list str     (* the fields read, last field first *)
}.

Definition field_size_limit : Z := 131072.

Definition parse_reset : csv_parser :=
  {| state := START_RECORD; field := []; fields := [] |}.

Definition parse_save_field (p : csv_parser) (st : csv_state) : csv_parser :=
  {| state := st; field := []; fields := rev (field p) :: fields p |}.

Definition parse_add_char (p : csv_parser) (st : csv_state) (c : ascii)
    : option csv_parser :=
  if field_size_limit <=? Z.of_nat (List.length (field p)) then None
  else Some {| state := st; field := c :: field p; fields := fields p |}.

Definition set_state (p : csv_parser) (st : csv_state) : csv_parser :=
  {| state := st; field := field p; fields := fields p |}.

Definition is_eol_char (c : ascii) : bool :=
  (Ascii.eqb c newline || Ascii.eqb c carriage_return)%bool.

(** One character, or the end of the line ([None]); no result is
    [csv.Error]. *)
Definition parse_process_char (p : csv_parser) (oc : option ascii)
    : option csv_parser :=
  let start_field :=
    match oc with
    | None => Some (parse_save_field p START_RECORD)
    | Some c =>
        if is_eol_char c then Some (parse_save_field p EAT_CRNL)
        else if Ascii.eqb c quotechar then Some (set_state p IN_QUOTED_FIELD)
        else if Ascii.eqb c "," then Some (parse_save_field p START_FIELD)
        else parse_add_char p IN_FIELD c
    end in
  match state p with
  | START_RECORD =>
      match oc with
      | None => Some p
      | Some c => if is_eol_char c then Some (set_state p EAT_CRNL)
                  else start_field
      end
  | START_FIELD => start_field
  | IN_FIELD =>
      match oc with
      | None => Some (parse_save_field p START_RECORD)
      | Some c =>
          if is_eol_char c then Some (parse_save_field p EAT_CRNL)
          else if Ascii.eqb c "," then Some (parse_save_field p START_FIELD)
          else parse_add_char p IN_FIELD c
      end
  | IN_QUOTED_FIELD =>
      match oc with
      | None => Some p
      | Some c =>
          if Ascii.eqb c quotechar then Some (set_state p QUOTE_IN_QUOTED_FIELD)
          else parse_add_char p IN_QUOTED_FIELD c
      end
  | QUOTE_IN_QUOTED_FIELD =>
      match oc with
      | None => Some (parse_save_field p START_RECORD)
      | Some c =>
          if Ascii.eqb c quotechar then parse_add_char p IN_QUOTED_FIELD c
          else if Ascii.eqb c "," then Some (parse_save_field p START_FIELD)
          else if is_eol_char c then Some (parse_save_field p EAT_CRNL)
          else parse_add_char p IN_FIELD c
      end
  | EAT_CRNL =>
      match oc with
      | None => Some (set_state p START_RECORD)
      | Some c => if is_eol_char c then Some p else None
      end
  end.

Fixpoint parse_chars (p : csv_parser) (cs : str) : option csv_parser :=
  match cs with
  | [] => Some p
  | c :: cs' =>
      match parse_process_char p (Some c) with
      | Some p' => parse_chars p' cs'
      | None => None
      end
  end.

Definition parse_line (p : csv_parser) (line : str) : option csv_parser :=
  match parse_chars p line with
  | Some p' => parse_process_char p' None
  | None => None
  end.

Definition csv_state_eqb (a b : csv_state) : bool :=
  match a, b with
  | START_RECORD, START_RECORD | START_FIELD, START_FIELD
  | IN_FIELD, IN_FIELD | IN_QUOTED_FIELD, IN_QUOTED_FIELD
  | QUOTE_IN_QUOTED_FIELD, QUOTE_IN_QUOTED_FIELD | EAT_CRNL, EAT_CRNL => true
  | _, _ => false
  end.

Definition row : Type := list str.

(** The records [csv.reader(lines)] yields, in order, and the exception
    that ends the iteration early when there is one. A record is complete
    when the parser is back at [START_RECORD] at the end of a line; input
    that ends inside a quoted field yields what was read. *)
Fixpoint reader_rows (p : csv_parser) (lines : list str)
    : list row * option exn :=
  match lines with
  | [] =>
      match field p, csv_state_eqb (state p) IN_QUOTED_FIELD with
      | [], false => ([], None)
      | _, _ => ([rev (fields (parse_save_field p START_RECORD))], None)
      end
  | l :: ls =>
      match parse_line p l with
      | None => ([], Some CsvError)
      | Some p' =>
          if csv_state_eqb (state p') START_RECORD then
            let '(rs, e) := reader_rows parse_reset ls in
            (rev (fields p') :: rs, e)
          else reader_rows p' ls
      end
  end.

Definition csv_reader (lines : list str) : list row * option exn :=
  reader_rows parse_reset lines.

(** ** Regular expressions: the fragment the program uses

    Matching is by backtracking, leftmost alternative first, greedy
    repetition, as the [re] module does. *)

Inductive regex : Type :=
| Eps
| Chr (c : ascii)
| WordBoundary
| Cat (r1 r2 : regex)
| Alt (r1 r2 : regex)
| Plus (cls : ascii -> bool)
| Group (r : regex).

Record cursor : Type := {
  before : option ascii;   (* the character just before the position *)
  rest : str;              (* the text from the position on *)
  group1 : option str      (* what group 1 holds *)
}.

Definition advance (c : cursor) (x : ascii) (xs : str) : cursor :=
  {| before := Some x; rest := xs; group1 := group1 c |}.

Definition isword_opt (o : option ascii) : bool :=
  match o with Some c => isword c | None => false end.

(** A literal of the pattern against a character of the text, under
    [re.IGNORECASE] when [ic] is set. *)
Definition chr_match (ic : bool) (a x : ascii) : bool :=
  if ic then Ascii.eqb (lower_ascii a) (lower_ascii x) else Ascii.eqb a x.

Fixpoint star (cls : ascii -> bool) (k : cursor -> option cursor)
    (g : option str) (prev : option ascii) (s : str) : option cursor :=
  let here := k {| before := prev; rest := s; group1 := g |} in
  match s with
  | x :: xs =>
      if cls x then
        match star cls k g (Some x) xs with
        | Some m => Some m
        | None => here
        end
      else here
  | [] => here
  end.

Fixpoint rmatch (ic : bool) (r : regex) (k : cursor -> option cursor)
    (c : cursor) : option cursor :=
  match r with
  | Eps => k c
  | Chr a =>
      match rest c with
      | x :: xs => if chr_match ic a x then k (advance c x xs) else None
      | [] => None
      end
  | WordBoundary =>
      if xorb (isword_opt (before c)) (isword_opt (hd_error (rest c)))
      then k c else None
  | Cat r1 r2 => rmatch ic r1 (rmatch ic r2 k) c
  | Alt r1 r2 =>
      match rmatch ic r1 k c with
      | Some m => Some m
      | None => rmatch ic r2 k c
      end
  | Plus cls =>
      match rest c with
      | x :: xs => if cls x then star cls k (group1 c) (Some x) xs else None
      | [] => None
      end
  | Group r1 =>
      rmatch ic r1
        (fun c' =>
           k {| before := before c'; rest := rest c';
                group1 := Some (firstn (List.length (rest c)
                                        - List.length (rest c')) (rest c)) |})
        c
  end.

(** [re.search(r, s)]: the first position, from the left, where [r]
    matches; the result is what group 1 holds there. *)
Fixpoint search_from (ic : bool) (r : regex) (prev : option ascii) (s : str)
    : option (option str) :=
  match rmatch ic r Some {| before := prev; rest := s; group1 := None |} with
  | Some c => Some (group1 c)
  | None =>
      match s with
      | x :: xs => search_from ic r (Some x) xs
      | [] => None
      end
  end.

Definition re_search (ic : bool) (r : regex) (s : str) : option (option str) :=
  search_from ic r None s.

(** A pattern that is a string of literals. *)
Fixpoint word (s : str) : regex :=
  match s with
  | [] => Eps
  | c :: s' => Cat (Chr c) (word s')
  end.

(** The alternation [r|r1|...|rn], in the order written. *)
Fixpoint alt_of (r : regex) (rs : list regex) : regex :=
  match rs with
  | [] => r
  | r' :: rs' => Alt r (alt_of r' rs')
  end.

(** ** The analyzer's data and its surroundings *)

(** The dictionary [run_scan] returns. *)
Record signal_data : Type := {
  frequency_mhz : float;
  power_db : float;
  bandwidth_hz : Z
}.

(** The status lines the program prints or emits on its log channel; the
    values a line is formatted from stand for its text. *)
Inductive message : Type :=
| MsgStarted
| MsgScanning (lna vga : Z) (amp : bool)
| MsgSweepError (stderr : str)
| MsgStrongest (sig : signal_data)
| MsgToolNotFound
| MsgInstallHint
| MsgOllamaError
| MsgAnalyzing (sig : signal_data)
| MsgDescription (description : str)
| MsgSuggestions (suggestions : str)
| MsgDecoding (sig : signal_data) (modulation : str)
| MsgLogged (sig : signal_data)
| MsgAdjustedLna (gain : Z)
| MsgAdjustedVga (gain : Z)
| MsgLnaNotParsed
| MsgVgaNotParsed
| MsgNoSignal
| MsgWaiting
| MsgStopped.

(** The two prompts, by the values their templates embed; [khz] is the
    bandwidth in kHz. *)
Inductive prompt : Type :=
| DescPrompt (sig : signal_data) (khz : float)
| SuggPrompt (sig : signal_data) (lna vga : Z).

(** A row of the log file, without its wall-clock time stamp; the
    frequency column is the value the row formats. *)
Record log_record : Type := {
  rec_frequency : float;
  rec_modulation : str;
  rec_lna_gain : Z;
  rec_vga_gain : Z;
  rec_amp_enabled : bool;
  rec_description : str;
  rec_suggestions : str;
  rec_decoded : str
}.

(** What the program does to the outside, in order. [EmitNewSignal] is
    the event sent to the web interface, which shows fields of the row. *)
Inductive event : Type :=
| Log (m : message)
| Popen (command : list str)
| Post (p : prompt)
| WriteRow (r : log_record)
| EmitNewSignal (r : log_record)
| Wait (seconds : Z).

(** [subprocess.Popen(command).communicate()]: the executable is not
    found, or the process runs and exits. *)
Inductive popen_result : Type :=
| NotFound
| Exited (returncode : Z) (stdout stderr : str).

(** [requests.post(...)] up to [response.json()]: a failure of the request
    (connection, timeout, error status, a body that is not JSON), or the
    JSON object received, of which only the member ["response"], a string
    when present, is read. *)
Inductive reply : Type :=
| Failed
| Body (response : option str).

(** The answers the outside will give, in order. [waits] says of each
    wait between two cycles whether it is interrupted: by a stop request
    of another thread in [app.py], by the user in [rf_analyzer.py]. A
    stop request that comes during a cycle is seen at the wait that
    follows, where the loop next looks at it. *)
Record world : Type := {
  sweeps : list popen_result;
  replies : list reply;
  waits : list bool
}.

Definition with_sweeps (w : world) (l : list popen_result) : world :=
  {| sweeps := l; replies := replies w; waits := waits w |}.
Definition with_replies (w : world) (l : list reply) : world :=
  {| sweeps := sweeps w; replies := l; waits := waits w |}.
Definition with_waits (w : world) (l : list bool) : world :=
  {| sweeps := sweeps w; replies := replies w; waits := l |}.

Record machine (Self : Type) : Type := {
  self : Self;
  env : world;
  trace : list event
}.

Arguments self {Self} m.
Arguments env {Self} m.
Arguments trace {Self} m.

Section Machine.
Context {Self : Type}.

Definition stuck {A} : M (machine Self) A := fun s => (Stuck, s).

Definition get_self : M (machine Self) Self :=
  fun s => (Ret (self s), s).

Definition set_self (f : Self -> Self) : M (machine Self) unit :=
  modify (fun s => {| self := f (self s); env := env s; trace := trace s |}).

Definition emit (e : event) : M (machine Self) unit :=
  modify (fun s =>
    {| self := self s; env := env s; trace := trace s ++ [e] |}).

(** Starts the process and waits for it. *)
Definition popen (command : list str) : M (machine Self) (Z * str * str) :=
  emit (Popen command) ;;;
  s <- get ;;
  match sweeps (env s) with
  | [] => stuck
  | r :: rs =>
      put {| self := self s; env := with_sweeps (env s) rs;
             trace := trace s |} ;;;
      match r with
      | NotFound => raise FileNotFoundError
      | Exited code out err => ret (code, out, err)
      end
  end.

(** [requests.post(...)], [raise_for_status()] and [json()]. *)
Definition post (p : prompt) : M (machine Self) (option str) :=
  emit (Post p) ;;;
  s <- get ;;
  match replies (env s) with
  | [] => stuck
  | r :: rs =>
      put {| self := self s; env := with_replies (env s) rs;
             trace := trace s |} ;;;
      match r with
      | Failed => raise RequestException
      | Body response => ret response
      end
  end.

(** The next answer of [waits]. *)
Definition next_wait : M (machine Self) bool :=
  s <- get ;;
  match waits (env s) with
  | [] => stuck
  | b :: bs =>
      put {| self := self s; env := with_waits (env s) bs;
             trace := trace s |} ;;;
      ret b
  end.

End Machine.

(** Code on local variables [L], run from their initial values; its
    result comes with their final values. *)
Definition locally {S L A} (l0 : L) (m : M L A) : M S (A * L) :=
  fun s =>
    match m l0 with
    | (Ret a, l) => (Ret (a, l), s)
    | (Raise e, _) => (Raise e, s)
    | (Stuck, _) => (Stuck, s)
    end.

(** Code that acts on no state, and its result. *)
Definition run {A} (m : M unit A) : res A := fst (m tt).
Definition lift {S A} (r : res A) : M S A := fun s => (r, s).

(** [r[i]] *)
Definition item {S} (r : row) (i : nat) : M S str :=
  orelse IndexError (nth_error r i).

Definition int_ {S} (s : str) : M S Z := orelse ValueError (int_of_str s).
Definition float_ {S} (s : str) : M S float :=
  orelse ValueError (float_of_str s).

(** [any_of [e1; ...]]: the exceptions an [except] clause names. *)
Definition any_of (es : list exn) (e : exn) : bool := existsb (exn_eqb e) es.

(** [len(row) > 6] *)
Definition long_row (r : row) : bool := (6 <? List.length r)%nat.

(** [max(rows, key=lambda r: float(r[6]), default=None)]: the first item
    is kept until an item with a greater key comes. [max_step] is what
    one item does to the item and key kept so far. The exception that
    ends the iteration, if any, is raised when the items are through. *)
Definition max_step (r : row) : M (option (row * float)) unit :=
  f <- item r 6 ;;
  val <- float_ f ;;
  best <- get ;;
  match best with
  | None => put (Some (r, val))
  | Some (_, maxval) => if fgt val maxval then put (Some (r, val)) else ret tt
  end.

Definition max_by_power (rows : list row) (err : option exn)
    : M (option (row * float)) unit :=
  for_each rows max_step ;;;
  match err with
  | Some e => raise e
  | None => ret tt
  end.

(** [(hz_low + hz_high) / 2 / 1_000_000] *)
Definition midpoint_mhz {S} (hz_low hz_high : Z) : M S float :=
  half <- orelse OverflowError (int_truediv (hz_low + hz_high) 2) ;;
  ret (fdiv half (float_of_decimal false 1000000 0)).

(** [signal_data['bandwidth_hz'] / 1000], of the first prompt. *)
Definition kilohertz (sig : signal_data) : option float :=
  int_truediv (bandwidth_hz sig) 1000.

(** The row [log_data] writes, in the order of its columns. *)
Definition log_entry_of (signal : signal_data) (modulation : str)
    (lna vga : Z) (amp : bool) (description suggestions decoded_data : str)
    : log_record :=
  {| rec_frequency := frequency_mhz signal; rec_modulation := modulation;
     rec_lna_gain := lna; rec_vga_gain := vga; rec_amp_enabled := amp;
     rec_description := description; rec_suggestions := suggestions;
     rec_decoded := decoded_data |}.

(** The module constants. *)
Definition SCAN_RANGE_MHZ : str * str := (lit "100", lit "400").
Definition SCAN_BIN_WIDTH_HZ : Z := 100000.
Definition SCAN_NUM_SAMPLES : Z := 131072.

Definition scan_range_arg : str :=
  fst SCAN_RANGE_MHZ ++ lit ":" ++ snd SCAN_RANGE_MHZ.

(** The two patterns of [adjust_settings] and the one of
    [_extract_modulation], all searched with [re.IGNORECASE]. *)
Definition lna_label : str := lit "LNA gain ".
Definition vga_label : str := lit "VGA gain ".

Definition gain_pattern (label : str) : regex :=
  Cat (word label) (Group (Plus isdigit)).

Definition lna_pattern : regex := gain_pattern lna_label.
Definition vga_pattern : regex := gain_pattern vga_label.

Definition modulation_tokens : list str :=
  map lit ["FM"; "NFM"; "WFM"; "AM"; "SSB"; "LSB"; "USB"; "FSK"; "PSK"; "QAM"]%string.

Definition modulation_pattern : regex :=
  Cat WordBoundary
    (Cat (Group (alt_of (word (lit "FM"))
                   (map word (tl modulation_tokens))))
       WordBoundary).

Definition analysis_failed : str := lit "Analysis failed.".
Definition no_suggestions : str := lit "No suggestions.".
Definition unknown : str := lit "Unknown".
Definition decoding_placeholder : str :=
  lit "DECODING_REQUIRES_SPECIFIC_TOOLING".

(** [response.json().get('response', '').strip()] *)
Definition response_text (response : option str) : str :=
  strip (match response with Some r => r | None => [] end).

(** [x or default] for an optional string: [None] and the empty string
    are false. *)
Definition or_default (x : option str) (default : str) : str :=
  match x with
  | Some (c :: s) => c :: s
  | _ => default
  end.

(** [_extract_modulation], the same in both programs. [match.group(1)]
    is [None] when the group took no part in the match, and [None] has no
    [upper]. *)
Definition _extract_modulation (description : str) : res str :=
  run match re_search true modulation_pattern description with
      | Some g => t <- orelse AttributeError g ;; ret (upper t)
      | None => ret unknown
      end.

(** [max(0, min(int(match.group(1)), hi))] *)
Definition clamped_gain {S} (g : option str) (hi : Z) : M S Z :=
  t <- orelse TypeError g ;;
  n <- int_ t ;;
  ret (Z.max 0 (Z.min n hi)).

(** ** [app.py]: the analyzer behind the web interface *)

Module App.

Record RFAnalyzer : Type := {
  lna_gain : Z;
  vga_gain : Z;
  amp_enabled : bool;
  stop_event : bool
}.

(** [__init__], of an event that is not set; the header row it writes
    to a log file that does not exist yet is left out. *)
Definition init : RFAnalyzer :=
  {| lna_gain := 16; vga_gain := 20; amp_enabled := false;
     stop_event := false |}.

(** [self.lna_gain = n], [self.vga_gain = n], [self.stop_event.set()] *)
Definition set_lna_gain (n : Z) (a : RFAnalyzer) : RFAnalyzer :=
  {| lna_gain := n; vga_gain := vga_gain a; amp_enabled := amp_enabled a;
     stop_event := stop_event a |}.
Definition set_vga_gain (n : Z) (a : RFAnalyzer) : RFAnalyzer :=
  {| lna_gain := lna_gain a; vga_gain := n; amp_enabled := amp_enabled a;
     stop_event := stop_event a |}.
Definition set_stop_event (a : RFAnalyzer) : RFAnalyzer :=
  {| lna_gain := lna_gain a; vga_gain := vga_gain a;
     amp_enabled := amp_enabled a; stop_event := true |}.

Definition state : Type := machine RFAnalyzer.

Definition _emit_log (m : message) : M state unit := emit (Log m).

Definition sweep_command (a : RFAnalyzer) : list str :=
  [lit "hackrf_sweep"; lit "-f"; scan_range_arg;
   lit "-l"; str_of_int (lna_gain a); lit "-g"; str_of_int (vga_gain a);
   lit "-w"; str_of_int SCAN_BIN_WIDTH_HZ;
   lit "-n"; str_of_int SCAN_NUM_SAMPLES]
  ++ (if amp_enabled a then [lit "-a"] else []).

(** The part of [run_scan] that reads the output of the sweep, up to
    the dictionary it returns. *)
Definition select_strongest (stdout : str) : res (option signal_data) :=
  run
    (let lines := split newline (strip stdout) in
     if (List.length lines <? 2)%nat then ret None
     else
       let '(records, err) := csv_reader lines in
       rows <- match records with
               | _header :: rows => ret rows
               | [] => raise (match err with
                              | Some e => e
                              | None => StopIteration
                              end)
               end ;;
       '(_, best) <- locally None
         (max_by_power (filter long_row rows) err) ;;
       match best with
       | Some (strongest_signal, _) =>
           match strongest_signal with
           | [] => ret None
           | _ :: _ =>
               f2 <- item strongest_signal 2 ;;
               hz_low <- int_ f2 ;;
               f3 <- item strongest_signal 3 ;;
               hz_high <- int_ f3 ;;
               f4 <- item strongest_signal 4 ;;
               bin_width <- int_ f4 ;;
               f6 <- item strongest_signal 6 ;;
               dbm <- float_ f6 ;;
               freq <- midpoint_mhz hz_low hz_high ;;
               ret (Some {| frequency_mhz := freq; power_db := dbm;
                            bandwidth_hz := bin_width |})
           end
       | None => ret None
       end).

Definition strongest_of (stdout : str) : M state (option signal_data) :=
  signal_data <- lift (select_strongest stdout) ;;
  match signal_data with
  | Some sig => _emit_log (MsgStrongest sig)
  | None => ret tt
  end ;;;
  ret signal_data.

Definition run_scan : M state (option signal_data) :=
  a <- get_self ;;
  _emit_log (MsgScanning (lna_gain a) (vga_gain a) (amp_enabled a)) ;;;
  try_except
    ('(returncode, stdout, stderr) <- popen (sweep_command a) ;;
     if negb (returncode =? 0) then
       _emit_log (MsgSweepError (strip stderr)) ;;;
       ret None
     else strongest_of stdout)
    (any_of [FileNotFoundError])
    (_emit_log MsgToolNotFound ;;;
     set_self set_stop_event ;;;
     ret None).

Definition _query_ollama (p : prompt) : M state (option str) :=
  try_except
    (response <- post p ;;
     ret (Some (response_text response)))
    (any_of [RequestException])
    (_emit_log MsgOllamaError ;;; ret None).

Definition analyze_with_ollama (signal_data : signal_data)
    : M state (str * str) :=
  _emit_log (MsgAnalyzing signal_data) ;;;
  khz <- orelse OverflowError (kilohertz signal_data) ;;
  d <- _query_ollama (DescPrompt signal_data khz) ;;
  let description := or_default d analysis_failed in
  a <- get_self ;;
  s <- _query_ollama (SuggPrompt signal_data (lna_gain a) (vga_gain a)) ;;
  let suggestions := or_default s no_suggestions in
  _emit_log (MsgDescription description) ;;;
  _emit_log (MsgSuggestions suggestions) ;;;
  ret (description, suggestions).

Definition decode_signal (signal_data : signal_data) (modulation : str)
    : M state str :=
  _emit_log (MsgDecoding signal_data modulation) ;;;
  ret decoding_placeholder.

Definition log_data (signal : signal_data)
    (description suggestions decoded_data modulation : str) : M state unit :=
  a <- get_self ;;
  let log_entry :=
    log_entry_of signal modulation (lna_gain a) (vga_gain a) (amp_enabled a)
      description suggestions decoded_data in
  emit (WriteRow log_entry) ;;;
  _emit_log (MsgLogged signal) ;;;
  emit (EmitNewSignal log_entry).

Definition adjust_settings (suggestions : str) : M state unit :=
  let lna_match := re_search true lna_pattern suggestions in
  let vga_match := re_search true vga_pattern suggestions in
  match lna_match with
  | Some g =>
      n <- clamped_gain g 40 ;;
      set_self (set_lna_gain n) ;;;
      _emit_log (MsgAdjustedLna n)
  | None => ret tt
  end ;;;
  match vga_match with
  | Some g =>
      n <- clamped_gain g 62 ;;
      set_self (set_vga_gain n) ;;;
      _emit_log (MsgAdjustedVga n)
  | None => ret tt
  end.

(** [self.stop_event.wait(10)]: returns at once when the event is set;
    otherwise another thread may set it during the wait. *)
Definition wait_stop (seconds : Z) : M state unit :=
  emit (Wait seconds) ;;;
  a <- get_self ;;
  if stop_event a then ret tt
  else
    b <- next_wait ;;
    if b then set_self set_stop_event else ret tt.

(** The body of the loop of [start_analysis_loop]. *)
Definition cycle : M state unit :=
  signal <- run_scan ;;
  match signal with
  | Some signal =>
      '(description, suggestions) <- analyze_with_ollama signal ;;
      modulation <- lift (_extract_modulation description) ;;
      decoded_data <- decode_signal signal modulation ;;
      log_data signal description suggestions decoded_data modulation ;;;
      adjust_settings suggestions
  | None => _emit_log MsgNoSignal
  end ;;;
  _emit_log MsgWaiting ;;;
  wait_stop 10.

(** [while not self.stop_event.is_set(): ...], at most [fuel] times
    round. *)
Fixpoint loop (fuel : nat) : M state unit :=
  a <- get_self ;;
  if stop_event a then ret tt
  else match fuel with
       | O => stuck
       | S fuel' => cycle ;;; loop fuel'
       end.

Definition start_analysis_loop (fuel : nat) : M state unit :=
  _emit_log MsgStarted ;;;
  loop fuel ;;;
  _emit_log MsgStopped.

Definition boot (w : world) : state :=
  {| self := init; env := w; trace := [] |}.

End App.

(** ** [rf_analyzer.py]: the standalone analyzer *)

Module Standalone.

Record RFAnalyzer : Type := {
  lna_gain : Z;
  vga_gain : Z;
  amp_enabled : bool
}.

(** [__init__]; the header row it writes to a log file that does not
    exist yet is left out. *)
Definition init : RFAnalyzer :=
  {| lna_gain := 16; vga_gain := 20; amp_enabled := false |}.

(** [self.lna_gain = n], [self.vga_gain = n] *)
Definition set_lna_gain (n : Z) (a : RFAnalyzer) : RFAnalyzer :=
  {| lna_gain := n; vga_gain := vga_gain a; amp_enabled := amp_enabled a |}.
Definition set_vga_gain (n : Z) (a : RFAnalyzer) : RFAnalyzer :=
  {| lna_gain := lna_gain a; vga_gain := n; amp_enabled := amp_enabled a |}.

Definition state : Type := machine RFAnalyzer.

Definition print (m : message) : M state unit := emit (Log m).

Definition sweep_command (a : RFAnalyzer) : list str :=
  [lit "hackrf_sweep"; lit "-f"; scan_range_arg;
   lit "-l"; str_of_int (lna_gain a); lit "-g"; str_of_int (vga_gain a);
   lit "-w"; str_of_int SCAN_BIN_WIDTH_HZ]
  ++ (if amp_enabled a then [lit "-a"] else []).

(** The local variables of the loop over the rows. *)
Record scan_locals : Type := {
  strongest_signal : option signal_data;
  max_power : float
}.

Definition minus_999 : float := float_of_decimal true 999 0.

(** The body of [for row in reader], with its [try]. *)
Definition scan_row (row : row) : M scan_locals unit :=
  try_except
    (f6 <- item row 6 ;;
     dbm <- float_ f6 ;;
     l <- get ;;
     if fgt dbm (max_power l) then
       put {| strongest_signal := strongest_signal l; max_power := dbm |} ;;;
       f2 <- item row 2 ;;
       hz_low <- int_ f2 ;;
       f3 <- item row 3 ;;
       hz_high <- int_ f3 ;;
       f4 <- item row 4 ;;
       bin_width <- int_ f4 ;;
       freq <- midpoint_mhz hz_low hz_high ;;
       modify (fun l =>
         {| strongest_signal :=
              Some {| frequency_mhz := freq; power_db := dbm;
                      bandwidth_hz := bin_width |};
            max_power := max_power l |})
     else ret tt)
    (any_of [ValueError; IndexError])
    (ret tt).

Definition scan_rows (rows : list row) (err : option exn)
    : M scan_locals unit :=
  for_each rows scan_row ;;;
  match err with
  | Some e => raise e
  | None => ret tt
  end.

(** The part of [run_scan] that reads the output of the sweep, up to
    the dictionary it returns. *)
Definition select_strongest (stdout : str) : res (option signal_data) :=
  run
    (let lines := split newline (strip stdout) in
     if (List.length lines <? 2)%nat then ret None
     else
       let '(records, err) := csv_reader lines in
       rows <- match records with
               | _header :: rows => ret rows
               | [] => raise (match err with
                              | Some e => e
                              | None => StopIteration
                              end)
               end ;;
       '(_, l) <- locally
                    {| strongest_signal := None; max_power := minus_999 |}
                    (scan_rows rows err) ;;
       ret (strongest_signal l)).

Definition strongest_of (stdout : str) : M state (option signal_data) :=
  strongest_signal <- lift (select_strongest stdout) ;;
  match strongest_signal with
  | Some sig => print (MsgStrongest sig)
  | None => ret tt
  end ;;;
  ret strongest_signal.

Definition run_scan : M state (option signal_data) :=
  a <- get_self ;;
  print (MsgScanning (lna_gain a) (vga_gain a) (amp_enabled a)) ;;;
  try_except
    ('(returncode, stdout, stderr) <- popen (sweep_command a) ;;
     if negb (returncode =? 0) then
       print (MsgSweepError (strip stderr)) ;;;
       ret None
     else strongest_of stdout)
    (any_of [FileNotFoundError])
    (print MsgToolNotFound ;;; print MsgInstallHint ;;; ret None).

Definition _query_ollama (p : prompt) : M state (option str) :=
  try_except
    (response <- post p ;;
     ret (Some (response_text response)))
    (any_of [RequestException])
    (print MsgOllamaError ;;; ret None).

Definition analyze_with_ollama (signal_data : signal_data)
    : M state (str * str) :=
  print (MsgAnalyzing signal_data) ;;;
  khz <- orelse OverflowError (kilohertz signal_data) ;;
  d <- _query_ollama (DescPrompt signal_data khz) ;;
  let description := or_default d analysis_failed in
  a <- get_self ;;
  suggestions_raw <-
    _query_ollama (SuggPrompt signal_data (lna_gain a) (vga_gain a)) ;;
  let suggestions := or_default suggestions_raw no_suggestions in
  print (MsgDescription description) ;;;
  print (MsgSuggestions suggestions) ;;;
  ret (description, suggestions).

Definition decode_signal (signal_data : signal_data) (modulation : str)
    : M state str :=
  print (MsgDecoding signal_data modulation) ;;;
  ret decoding_placeholder.

Definition log_data (signal : signal_data)
    (description suggestions decoded_data modulation : str) : M state unit :=
  a <- get_self ;;
  emit (WriteRow
    (log_entry_of signal modulation (lna_gain a) (vga_gain a)
       (amp_enabled a) description suggestions decoded_data)) ;;;
  print (MsgLogged signal).

Definition adjust_settings (suggestions : str) : M state unit :=
  let lna_match := re_search true lna_pattern suggestions in
  let vga_match := re_search true vga_pattern suggestions in
  match lna_match with
  | Some g =>
      try_except
        (n <- clamped_gain g 40 ;;
         set_self (set_lna_gain n) ;;;
         print (MsgAdjustedLna n))
        (any_of [ValueError; IndexError])
        (print MsgLnaNotParsed)
  | None => ret tt
  end ;;;
  match vga_match with
  | Some g =>
      try_except
        (n <- clamped_gain g 62 ;;
         set_self (set_vga_gain n) ;;;
         print (MsgAdjustedVga n))
        (any_of [ValueError; IndexError])
        (print MsgVgaNotParsed)
  | None => ret tt
  end.

(** [time.sleep(30)], which the user may interrupt. *)
Definition sleep (seconds : Z) : M state unit :=
  emit (Wait seconds) ;;;
  b <- next_wait ;;
  if b then raise KeyboardInterrupt else ret tt.

(** The body of the loop of [start]. *)
Definition cycle : M state unit :=
  signal <- run_scan ;;
  match signal with
  | Some signal =>
      '(description, suggestions) <- analyze_with_ollama signal ;;
      modulation <- lift (_extract_modulation description) ;;
      decoded_data <- decode_signal signal modulation ;;
      log_data signal description suggestions decoded_data modulation ;;;
      adjust_settings suggestions
  | None => print MsgNoSignal
  end ;;;
  print MsgWaiting ;;;
  sleep 30.

(** [while True: ...], at most [fuel] times round. *)
Fixpoint loop (fuel : nat) : M state unit :=
  match fuel with
  | O => stuck
  | S fuel' => cycle ;;; loop fuel'
  end.

Definition start (fuel : nat) : M state unit :=
  print MsgStarted ;;;
  try_except (loop fuel) (any_of [KeyboardInterrupt]) (print MsgStopped).

Definition boot (w : world) : state :=
  {| self := init; env := w; trace := [] |}.

End Standalone.

(** ** The words of the design document *)

(** The data rows of a sweep output: the records after the header, when
    the output has a header line and one more, and reads as CSV to its
    end. *)
Definition data_rows (stdout : str) : option (list row) :=
  let lines := split newline (strip stdout) in
  if (List.length lines <? 2)%nat then None
  else match csv_reader lines with
       | (_ :: rows, None) => Some rows
       | _ => None
       end.

(** The fields of a line of the sweep output: the line cut at its
    commas; a line that is empty has no field. *)
Definition fields_of_line (l : str) : row :=
  match l with
  | [] => []
  | _ => split "," l
  end.

(** A text without double quote and carriage return, which the reader
    of CSV would treat apart. *)
Definition plain (s : str) : Prop :=
  forall c, In c s -> c <> quotechar /\ c <> carriage_return.

(** The power field of a row, when the row has seven fields and the field
    reads as a number. *)
Definition power_of (r : row) : option float :=
  match nth_error r 6 with
  | Some f =>
      match float_of_str f with
      | Some p => if is_nan p then None else Some p
      | None => None
      end
  | None => None
  end.

(** The observation built from a row: the midpoint of the two edge
    frequencies, scaled by 10^6, the power and the bin width. *)
Definition observation_of (r : row) : option signal_data :=
  match nth_error r 2, nth_error r 3, nth_error r 4, power_of r with
  | Some f2, Some f3, Some f4, Some p =>
      match int_of_str f2, int_of_str f3, int_of_str f4 with
      | Some lo, Some hi, Some bw =>
          match int_truediv (lo + hi) 2 with
          | Some half =>
              Some {| frequency_mhz :=
                        fdiv half (float_of_decimal false 1000000 0);
                      power_db := p; bandwidth_hz := bw |}
          | None => None
          end
      | _, _, _ => None
      end
  | _, _, _, _ => None
  end.



(** The text [s] has a modulation token after [pre], as a whole word:
    [w], which is the token up to the case of its letters, with no word
    character before it and none after it. *)
Definition last_char (s : str) : option ascii :=
  fold_left (fun _ x => Some x) s None.

Definition modulation_at (s pre w post : str) : Prop :=
  s = pre ++ w ++ post /\
  (exists t, In t modulation_tokens /\ map lower_ascii w = map lower_ascii t) /\
  isword_opt (last_char pre) = false /\
  isword_opt (hd_error post) = false.

(** The text [s] has the label and digits after [pre]: the label up to the
    case of its letters, then [ds], the whole run of digits that follows. *)
Definition gain_at (label s pre ds : str) : Prop :=
  exists w post,
    s = pre ++ w ++ ds ++ post /\
    map lower_ascii w = map lower_ascii label /\
    ds <> [] /\ forallb isdigit ds = true /\
    match post with c :: _ => isdigit c = false | [] => True end.

Definition gain_occurs (label s : str) : Prop :=
  exists pre ds, gain_at label s pre ds.

(** [ds] are the digits of the first occurrence. *)
Definition first_gain (label s ds : str) : Prop :=
  exists pre,
    gain_at label s pre ds /\
    forall pre' ds', gain_at label s pre' ds' ->
                     (List.length pre <= List.length pre')%nat.

(** What a suggestion does to a gain: the digits of the first occurrence
    of its label, as many as [int()] reads, read as an integer and clamped
    to [0, hi], replace it; it stays when the label and digits do not
    occur. *)
Definition gain_update (label : str) (hi : Z) (s : str) (old new : Z) : Prop :=
  (exists ds, first_gain label s ds /\
              Z.of_nat (List.length ds) <= int_max_str_digits /\
              new = Z.max 0 (Z.min (digits_val ds) hi))
  \/ (~ gain_occurs label s /\ new = old).

(** The first occurrence of the label has more digits than [int()]
    reads. *)
Definition oversized (label s : str) : Prop :=
  exists ds, first_gain label s ds /\
             int_max_str_digits < Z.of_nat (List.length ds).

(** How a suggestion leaves a gain whose conversion is guarded. *)
Definition gain_outcome (label : str) (hi : Z) (s : str) (old new : Z) : Prop :=
  gain_update label hi s old new \/ (oversized label s /\ new = old).

(** How [adjust_settings] of [app.py] ends on a suggestion: normally, both
    gains updated; or with the [ValueError] of the first gain whose digits
    [int()] does not read, no gain changed from there on. *)
Definition adjusted (s : str) (r : res unit) (lna vga lna' vga' : Z) : Prop :=
  (r = Ret tt /\ gain_update lna_label 40 s lna lna' /\
   gain_update vga_label 62 s vga vga')
  \/ (r = Raise ValueError /\ oversized lna_label s /\
      lna' = lna /\ vga' = vga)
  \/ (r = Raise ValueError /\ gain_update lna_label 40 s lna lna' /\
      oversized vga_label s /\ vga' = vga).

(** ** Auxiliary notions of the proofs *)

(** A float that is not a NaN, as a point of a lexicographic order. *)
Definition key (a : float) : Z * Z * Z :=
  match a with
  | S754_infinity true => (-2, 0, 0)
  | S754_finite true m e => (-1, - e, Zneg m)
  | S754_zero _ => (0, 0, 0)
  | S754_nan => (0, 0, 0)
  | S754_finite false m e => (1, e, Zpos m)
  | S754_infinity false => (2, 0, 0)
  end.

Definition key_lt (a b : Z * Z * Z) : Prop :=
  let '(a1, a2, a3) := a in
  let '(b1, b2, b3) := b in
  a1 < b1 \/ (a1 = b1 /\ (a2 < b2 \/ (a2 = b2 /\ a3 < b3))).


(** ** Sample inputs *)

(** A text, given by its lines. *)
Fixpoint text (ls : list string) : str :=
  match ls with
  | [] => []
  | [l] => lit l
  | l :: ls' => lit l ++ newline :: text ls'
  end.

(** The sweep output of the design document, with a weaker row, a second
    row of the same power and a short row added. *)
Definition sample_sweep : str :=
  text ["date, time, hz_low, hz_high, hz_bin_width, num_samples, dB";
        "2024-01-01,00:00:00,99000000,99100000,100000,131072,-45.25";
        "2024-01-01,00:00:00,100000000,100100000,100000,131072,-20.5";
        "2024-01-01,00:00:00";
        "2024-01-01,00:00:00,101000000,101100000,100000,131072,-20.50"]%string.




(** A row whose power is not a number, then a well-formed one. *)
Definition noisy_sweep : str :=
  text ["header"; "d,t,100000000,100100000,100000,131072,n/a";
        "d,t,100000000,100100000,100000,131072,-20.5"]%string.

(** A strong row whose edge frequency is not an integer, then a weaker,
    well-formed one. *)
Definition shadowed_sweep : str :=
  text ["header"; "d,t,1e8,100100000,100000,131072,-10";
        "d,t,100000000,100100000,100000,131072,-20.5"]%string.

(** The observation of the design document: 100.05 MHz, -20.5 dB,
    100000 Hz. *)
Definition sample_observation : signal_data :=
  {| frequency_mhz := S754_finite false 7040392854975283 (-46);
     power_db := S754_finite true 5770237022568448 (-48);
     bandwidth_hz := 100000 |}.

(** Its bandwidth in kHz, 100.0. *)
Definition sample_kilohertz : float :=
  S754_finite false 7036874417766400 (-46).



(** The character before a position that [w] leads to, from one that has
    [b] before it. *)
Definition last_opt (b : option ascii) (w : str) : option ascii :=
  fold_left (fun _ x => Some x) w b.

(** [s] cut after a prefix that is [t] up to the case of the letters. *)
Fixpoint prefix_ci (t s : str) : option (str * str) :=
  match t, s with
  | [], _ => Some ([], s)
  | a :: t', x :: s' =>
      if chr_match true a x then
        match prefix_ci t' s' with
        | Some (w, post) => Some (x :: w, post)
        | None => None
        end
      else None
  | _ :: _, [] => None
  end.

(** The cursor at the cut of a text in two. *)
Definition cursor_at (prev : option ascii) (pre post : str) : cursor :=
  {| before := last_opt prev pre; rest := post; group1 := None |}.

(** The digits that follow the label at the head of [s]. *)
Definition gain_match (label s : str) : option str :=
  match prefix_ci label s with
  | Some (_, post) =>
      match fst (span isdigit post) with
      | [] => None
      | ds => Some ds
      end
  | None => None
  end.

(** The first result among those of the items of a list. *)
Fixpoint first_match {X Y} (xs : list X) (f : X -> option Y) : option Y :=
  match xs with
  | [] => None
  | x :: xs' =>
      match f x with
      | Some y => Some y
      | None => first_match xs' f
      end
  end.

(** The status lines of [adjust_settings]. *)
Definition adjust_event (e : event) : Prop :=
  match e with
  | Log (MsgAdjustedLna _) | Log (MsgAdjustedVga _)
  | Log MsgLnaNotParsed | Log MsgVgaNotParsed => True
  | _ => False
  end.

(** The suggestion of the design document. *)
Definition sample_suggestion : str :=
  lit "New settings: LNA gain 55, VGA gain -3".

(** A suggestion whose LNA gain has one digit more than [int()] reads. *)
Definition long_suggestion : str :=
  lna_label ++ repeat "9"%char 4301.

(** What a request for an analysis comes to: the text of the response, or
    the fallback text when the request fails or the response has none. *)
Definition answer (r : reply) (fallback : str) : str :=
  or_default
    (match r with Failed => None | Body x => Some (response_text x) end)
    fallback.

(** What a request shows to the outside. *)
Definition query_events (p : prompt) (r : reply) : list event :=
  Post p :: match r with Failed => [Log MsgOllamaError] | Body _ => [] end.

(** The events of the analysis of a signal, the two requests answered
    [r1] and [r2]. *)
Definition analysis_events (sig : signal_data) (khz : float) (lna vga : Z)
    (r1 r2 : reply) : list event :=
  Log (MsgAnalyzing sig) :: query_events (DescPrompt sig khz) r1
  ++ query_events (SuggPrompt sig lna vga) r2
  ++ [Log (MsgDescription (answer r1 analysis_failed));
      Log (MsgSuggestions (answer r2 no_suggestions))].

(** The events of a cycle of [app.py] up to the start of its sweep. *)
Definition app_scan_events (a : App.RFAnalyzer) : list event :=
  [Log (MsgScanning (App.lna_gain a) (App.vga_gain a) (App.amp_enabled a));
   Popen (App.sweep_command a)].

Definition standalone_scan_events (a : Standalone.RFAnalyzer) : list event :=
  [Log (MsgScanning (Standalone.lna_gain a) (Standalone.vga_gain a)
          (Standalone.amp_enabled a));
   Popen (Standalone.sweep_command a)].

(** The events of a cycle from the decoding of the signal to the row of
    the log. *)
Definition record_events (sig : signal_data) (modulation : str)
    (r : log_record) (web : bool) : list event :=
  [Log (MsgDecoding sig modulation); WriteRow r; Log (MsgLogged sig)]
  ++ (if web then [EmitNewSignal r] else []).

(** The events that are neither a sweep, nor a row of the log, nor the
    report of a missing tool, nor a change of gain. *)
Definition quiet_event (e : event) : Prop :=
  match e with
  | Popen _ | WriteRow _ | EmitNewSignal _ => False
  | Log MsgToolNotFound => False
  | Log (MsgAdjustedLna _) | Log (MsgAdjustedVga _) => False
  | Log MsgLnaNotParsed | Log MsgVgaNotParsed => False
  | _ => True
  end.

(** The events of a cycle after those of its sweep, when the tool is
    missing, in [app.py]. *)
Definition tool_missing_events : list event :=
  [Log MsgToolNotFound; Log MsgNoSignal; Log MsgWaiting; Wait 10].

(** A script in which the tool is missing twice, for two cycles. *)
Definition tool_missing_world : world :=
  {| sweeps := [NotFound; NotFound]; replies := []; waits := [false; false] |}.

(** The fields a parser holds, the one being read last. *)
Definition fields_held (p : csv_parser) : list str :=
  rev (fields p) ++ [rev (field p)].

(** The pieces of a split, the first one following what is being read. *)
Definition continue_with (held : list str) (pieces : list str) : list str :=
  match pieces with
  | h :: t => removelast held ++ (last held [] ++ h) :: t
  | [] => held
  end.

(** ** Tactics *)

(** Unfolding the code of the two programs, down to the pure functions
    they call. *)
Ltac run_app :=
  cbv [App.start_analysis_loop App.boot App.cycle App.run_scan
       App.strongest_of App._emit_log App._query_ollama
       App.analyze_with_ollama App.decode_signal App.log_data
       App.adjust_settings App.wait_stop App.init
       App.set_lna_gain App.set_vga_gain App.set_stop_event
       App.stop_event App.lna_gain App.vga_gain App.amp_enabled
       with_sweeps with_replies with_waits
       bind ret get put modify raise try_except emit get_self set_self
       popen post next_wait stuck lift orelse any_of existsb exn_eqb orb
       self env trace sweeps replies waits fst snd].

Ltac run_standalone :=
  cbv [Standalone.start Standalone.boot Standalone.cycle Standalone.run_scan
       Standalone.strongest_of Standalone.print Standalone._query_ollama
       Standalone.analyze_with_ollama Standalone.decode_signal
       Standalone.log_data Standalone.adjust_settings Standalone.sleep
       Standalone.init Standalone.set_lna_gain Standalone.set_vga_gain
       Standalone.lna_gain Standalone.vga_gain Standalone.amp_enabled
       with_sweeps with_replies with_waits
       bind ret get put modify raise try_except emit get_self set_self
       popen post next_wait stuck lift orelse any_of existsb exn_eqb orb
       self env trace sweeps replies waits fst snd].

(** The goals on gains that a case of [adjust_settings] leaves. *)
Ltac solve_gain :=
  unfold gain_update, oversized;
  solve [ left; eexists; split; [eassumption|]; split;
          [eassumption | reflexivity]
        | right; split; [assumption | reflexivity]
        | eexists; split; eassumption ].

(** A case for each of the 256 characters. *)
Ltac each_char c := destruct c as [[] [] [] [] [] [] [] []].

(** Traces as one list appended to the initial trace. *)
Ltac norm_trace := repeat rewrite <- app_assoc; cbn [app].

(** One case of what [run_scan] does, with the events that follow those
    of the sweep. *)
Ltac scan_case H evs0 :=
  rewrite H; eexists; eexists; exists evs0;
  (split; [reflexivity|]); cbn [trace];
  (split; [rewrite ?app_nil_r, <- ?app_assoc; reflexivity
          | let c := fresh "c" in let Hin := fresh "Hin" in
            intros c Hin; cbn in Hin;
            repeat (destruct Hin as [Hin|Hin]; [discriminate|]);
            exact Hin]).

(** ** Notions of the further properties *)

(** The ranges of the two gains of the receiver. *)
Definition gains_in_range (lna vga : Z) : Prop :=
  0 <= lna <= 40 /\ 0 <= vga <= 62.

(** The events that are no sweep and no row. *)
Definition plain_event (e : event) : Prop :=
  match e with
  | Popen _ | WriteRow _ | EmitNewSignal _ => False
  | _ => True
  end.

(** Whether a sweep may start: after a wait of [n] seconds since the
    last one, or at the start when [ready]. [paced] says that every
    sweep of the events starts so, [ready_after] whether one may start
    after them. *)
Fixpoint paced (n : Z) (ready : bool) (evs : list event) : bool :=
  match evs with
  | [] => true
  | Popen _ :: t => ready && paced n false t
  | Wait m :: t => paced n (ready || (m =? n)) t
  | _ :: t => paced n ready t
  end.

Fixpoint ready_after (n : Z) (ready : bool) (evs : list event) : bool :=
  match evs with
  | [] => ready
  | Popen _ :: t => ready_after n false t
  | Wait m :: t => ready_after n (ready || (m =? n)) t
  | _ :: t => ready_after n ready t
  end.

(** A first line of the output of the sweep: it starts with a character
    that is no white space, and has no line end, quote or carriage
    return, and no more characters than a field may have. *)
Definition header_line (h : str) : Prop :=
  (exists c t, h = c :: t /\ isspace c = false) /\
  ~ In newline h /\ plain h /\
  Z.of_nat (List.length h) < field_size_limit.

(** The rows written to the log file, and the rows sent to the web
    interface, in order. *)
Definition rows_written (evs : list event) : list log_record :=
  flat_map (fun e => match e with WriteRow r => [r] | _ => [] end) evs.

Definition rows_emitted (evs : list event) : list log_record :=
  flat_map (fun e => match e with EmitNewSignal r => [r] | _ => [] end) evs.


(** The power field of a row as [float()] reads it, a NaN included. *)
Definition raw_power (r : row) : option float :=
  match nth_error r 6 with
  | Some f => float_of_str f
  | None => None
  end.

(** A row whose power is not a number, then a well-formed one. *)
Definition nan_sweep : str :=
  text ["header"; "d,t,100000000,100100000,100000,131072,nan";
        "d,t,100000000,100100000,100000,131072,-20.5"]%string.

(** ** The log file

    [csv.writer], default dialect: a field is written between quotes
    when it holds a comma, a quote or a character of the line
    terminator, the quotes inside it doubled; a row of one empty field
    is written as two quotes; a row ends with CR LF. *)

Definition must_quote (c : ascii) : bool :=
  (Ascii.eqb c "," || Ascii.eqb c quotechar || is_eol_char c)%bool.

Definition double_quotes (f : str) : str :=
  flat_map (fun c => if Ascii.eqb c quotechar then [c; c] else [c]) f.

Definition write_field (f : str) : str :=
  if existsb must_quote f then quotechar :: double_quotes f ++ [quotechar]
  else f.

Fixpoint join_fields (fs : list str) : str :=
  match fs with
  | [] => []
  | [f] => f
  | f :: fs' => f ++ ","%char :: join_fields fs'
  end.

Definition line_end : str := [carriage_return; newline].

(** [writer.writerow(fields)], the fields being strings. *)
Definition writerow (fields : list str) : str :=
  match fields with
  | [[]] => [quotechar; quotechar]
  | _ => join_fields (map write_field fields)
  end ++ line_end.

(** The lines of a file opened with [newline=''], each with its end: a
    line ends with LF, with CR LF or with CR. [cur] is the line being
    read, last character first. *)
Fixpoint file_lines_from (cur : str) (s : str) : list str :=
  match s with
  | [] => match cur with [] => [] | _ => [rev cur] end
  | c :: s' =>
      if Ascii.eqb c newline then rev (c :: cur) :: file_lines_from [] s'
      else if Ascii.eqb c carriage_return then
        match s' with
        | c' :: s'' =>
            if Ascii.eqb c' newline
            then rev (c' :: c :: cur) :: file_lines_from [] s''
            else rev (c :: cur) :: file_lines_from [] s'
        | [] => [rev (c :: cur)]
        end
      else file_lines_from (c :: cur) s'
  end.

Definition file_lines (s : str) : list str := file_lines_from [] s.

(** [csv.reader(f)] of a file of that content. *)
Definition read_back (content : str) : list row * option exn :=
  csv_reader (file_lines content).

(** The header of the log, and the fields of a row in the order of its
    columns; the time stamp and the frequency are given as the texts the
    clock and the formatting of the frequency make. *)
Definition LOG_HEADER : list str :=
  map lit ["Timestamp"; "Frequency (MHz)"; "Modulation"; "LNA Gain";
           "VGA Gain"; "AMP Enabled"; "Ollama Description";
           "Ollama Suggestions"; "Decoded Data"]%string.

Definition str_of_bool (b : bool) : str :=
  if b then lit "True" else lit "False".

Definition log_fields (timestamp frequency : str) (r : log_record)
    : list str :=
  [timestamp; frequency; rec_modulation r; str_of_int (rec_lna_gain r);
   str_of_int (rec_vga_gain r); str_of_bool (rec_amp_enabled r);
   rec_description r; rec_suggestions r; rec_decoded r].

(** The log file: its content, or [None] when there is no file.
    [_init_log_file] writes the header to a file that does not exist;
    [log_data] appends a row, to a file it creates when there is none. *)
Definition _init_log_file (file : option str) : option str :=
  match file with
  | None => Some (writerow LOG_HEADER)
  | Some _ => file
  end.

Definition append_row (file : option str) (fields : list str) : option str :=
  Some (match file with Some content => content | None => [] end
        ++ writerow fields).

(** The parser [p] is where the line being read, [cur], takes the parser
    [p0] that began it. *)
Definition at_line (p0 : csv_parser) (cur : str) (p : csv_parser) : Prop :=
  parse_chars p0 (rev cur) = Some p.

(** Reading [text] takes the parser from [p] to [p'], whatever follows. *)
Definition reads (p : csv_parser) (text : str) (p' : csv_parser) : Prop :=
  forall p0 cur rest,
    at_line p0 cur p ->
    exists p0' cur',
      at_line p0' cur' p' /\
      reader_rows p0 (file_lines_from cur (text ++ rest))
      = reader_rows p0' (file_lines_from cur' rest).

(** The parser before a field of a row, the fields [done] read; and
    after the field [f]. *)
Definition before_field (p : csv_parser) (done : list str) : Prop :=
  field p = [] /\ fields p = rev done /\
  (state p = START_FIELD \/ (state p = START_RECORD /\ done = [])).

Definition after_field (p : csv_parser) (done : list str) (f : str) : Prop :=
  field p = rev f /\ fields p = rev done /\
  (state p = IN_FIELD \/ state p = QUOTE_IN_QUOTED_FIELD
   \/ (f = [] /\ state p = START_FIELD)
   \/ (f = [] /\ state p = START_RECORD /\ done = [])).

(** A field that [csv.reader] reads whole: of no more characters than
    its limit on the size of a field. *)
Definition short_field (f : str) : Prop :=
  Z.of_nat (List.length f) <= field_size_limit.

Definition file_content (file : option str) : str :=
  match file with Some content => content | None => [] end.

(** A row whose two edge frequencies read as integers and whose
    midpoint is too large for a float: [(hz_low + hz_high) / 2] raises
    [OverflowError] on it. *)
Definition overflowing (r : row) : Prop :=
  exists f2 f3 lo hi,
    nth_error r 2 = Some f2 /\ int_of_str f2 = Some lo /\
    nth_error r 3 = Some f3 /\ int_of_str f3 = Some hi /\
    int_truediv (lo + hi) 2 = None.

(** The power kept by the loop of [rf_analyzer.py] is its first value,
    -999.0, or a number above it. *)
Definition above_floor (l : Standalone.scan_locals) : Prop :=
  Standalone.max_power l = Standalone.minus_999 \/
  fgt (Standalone.max_power l) Standalone.minus_999 = true.

(** ** Tactics of the further properties *)

(** The result of [run_scan] of [app.py] on one branch: the events
    after the start of the sweep are [evs0]. *)
Ltac scan_result evs0 :=
  eexists; eexists; exists evs0; split; [reflexivity|];
  cbn [self trace]; split;
  [rewrite ?app_nil_r, <- ?app_assoc; reflexivity|];
  split; [repeat constructor|];
  split; [reflexivity|]; split; [reflexivity|]; split; [reflexivity|].


(** * Properties *)

(** ** The order of floats *)

Lemma flt_key (a b : float) :
  is_nan a = false -> is_nan b = false ->
  (flt a b = true <-> key_lt (key a) (key b)).
Proof.
  intros Ha Hb. unfold flt, SFltb.
  destruct a as [sa|sa| |sa ma ea], b as [sb|sb| |sb mb eb];
    try discriminate; cbn [SFcompare key key_lt];
    try (destruct sa); try (destruct sb); cbn;
    try (split; [discriminate | lia]);
    try (split; [lia | reflexivity]);
    try (split; [intros _; lia | reflexivity]).
  - destruct (Z.compare_spec ea eb) as [E|E|E].
    + fold (Pos.compare ma mb).
      destruct (Pos.compare_spec ma mb) as [F|F|F]; cbn;
        (split; [try discriminate; intros _; lia | try reflexivity; lia]).
    + split; [discriminate | lia].
    + split; [intros _; lia | reflexivity].
  - destruct (Z.compare_spec ea eb) as [E|E|E].
    + fold (Pos.compare ma mb).
      destruct (Pos.compare_spec ma mb) as [F|F|F]; cbn;
        (split; [try discriminate; intros _; lia | try reflexivity; lia]).
    + split; [intros _; lia | reflexivity].
    + split; [discriminate | lia].
Qed.

Lemma flt_trans (a b c : float) :
  flt a b = true -> flt b c = true -> flt a c = true.
Proof.
  intros H1 H2.
  assert (Ha : is_nan a = false) by (destruct a, b; try reflexivity; discriminate).
  assert (Hb : is_nan b = false) by (destruct a, b; try reflexivity; discriminate).
  assert (Hc : is_nan c = false)
    by (destruct b as [| | |[|]], c; try reflexivity; discriminate).
  apply (flt_key a b Ha Hb) in H1. apply (flt_key b c Hb Hc) in H2.
  apply (flt_key a c Ha Hc).
  destruct (key a) as [[a1 a2] a3], (key b) as [[b1 b2] b3],
    (key c) as [[c1 c2] c3]. unfold key_lt in *. lia.
Qed.

(** A number not above [b] is below whatever [b] is below. *)
Lemma fle_flt_trans (a b c : float) :
  is_nan a = false -> is_nan b = false ->
  fgt a b = false -> flt b c = true -> flt a c = true.
Proof.
  intros Ha Hb H1 H2. unfold fgt in H1. fold (flt b a) in H1.
  assert (Hc : is_nan c = false)
    by (destruct b as [| | |[|]], c; try reflexivity; discriminate).
  apply (flt_key b c Hb Hc) in H2. apply (flt_key a c Ha Hc).
  assert (N : ~ key_lt (key b) (key a))
    by (intros K; apply (flt_key b a Hb Ha) in K; congruence).
  destruct (key a) as [[a1 a2] a3], (key b) as [[b1 b2] b3],
    (key c) as [[c1 c2] c3]. unfold key_lt in *. lia.
Qed.





(** ** Running code step by step *)

Lemma bind_Ret {S A B} (m : M S A) (f : A -> M S B) (s s' : S) (a : A) :
  m s = (Ret a, s') -> bind m f s = f a s'.
Proof. intros H. unfold bind. now rewrite H. Qed.

Lemma bind_Raise {S A B} (m : M S A) (f : A -> M S B) (s s' : S) (e : exn) :
  m s = (Raise e, s') -> bind m f s = (Raise e, s').
Proof. intros H. unfold bind. now rewrite H. Qed.

Lemma bind_Stuck {S A B} (m : M S A) (f : A -> M S B) (s s' : S) :
  m s = (Stuck, s') -> bind m f s = (Stuck, s').
Proof. intros H. unfold bind. now rewrite H. Qed.

Lemma locally_Ret {S L A} (m : M L A) (l0 l : L) (a : A) (s : S) :
  m l0 = (Ret a, l) -> locally l0 m s = (Ret (a, l), s).
Proof. intros H. unfold locally. now rewrite H. Qed.

Lemma locally_Raise {S L A} (m : M L A) (l0 l : L) (e : exn) (s : S) :
  m l0 = (Raise e, l) -> @locally S L A l0 m s = (Raise e, s).
Proof. intros H. unfold locally. now rewrite H. Qed.

(** ** Lines without quotes as CSV *)

Lemma split_nonempty (sep : ascii) (s : str) : split sep s <> [].
Proof.
  induction s as [|c s IH]; [discriminate|]. cbn.
  destruct (Ascii.eqb c sep); [discriminate|].
  destruct (split sep s); [contradiction | discriminate].
Qed.


Lemma fields_held_save (p : csv_parser) (st : csv_state) :
  rev (fields (parse_save_field p st)) = fields_held p.
Proof. unfold fields_held. cbn. reflexivity. Qed.

Lemma continue_with_held (fs : list str) (f h : str) (t : list str) :
  continue_with (fs ++ [f]) (h :: t) = fs ++ (f ++ h) :: t.
Proof.
  unfold continue_with. now rewrite removelast_last, last_last.
Qed.

(** The characters of a plain line, read in a field or at the start of
    one: the fields held grow as the line is cut at its commas. *)
Lemma parse_chars_plain (cs : str) (p : csv_parser) :
  plain cs -> ~ In newline cs ->
  state p = START_FIELD \/ state p = IN_FIELD ->
  Z.of_nat (List.length (field p) + List.length cs) < field_size_limit ->
  exists p',
    parse_chars p cs = Some p' /\
    (state p' = START_FIELD \/ state p' = IN_FIELD) /\
    fields_held p' = continue_with (fields_held p) (split "," cs).
Proof.
  revert p. induction cs as [|c cs IH]; intros p Hpl Hnl Hst Hlen.
  - exists p. split; [reflexivity|]. split; [exact Hst|].
    unfold fields_held. cbn [split]. rewrite continue_with_held.
    now rewrite app_nil_r.
  - assert (Hc : is_eol_char c = false /\ Ascii.eqb c quotechar = false).
    { destruct (Hpl c (or_introl eq_refl)) as [Hq Hr]. split.
      - unfold is_eol_char.
        destruct (Ascii.eqb_spec c newline) as [->|_];
          [exfalso; apply Hnl; now left|].
        destruct (Ascii.eqb_spec c carriage_return); [contradiction|reflexivity].
      - now destruct (Ascii.eqb_spec c quotechar). }
    destruct Hc as [He Hq].
    assert (Hpl' : plain cs) by (intros x Hx; apply Hpl; now right).
    assert (Hnl' : ~ In newline cs) by (intros Hx; apply Hnl; now right).
    cbn [parse_chars split].
    destruct (Ascii.eqb_spec c ",") as [->|Hcomma].
    + (* a comma ends the field *)
      assert (Hstep : parse_process_char p (Some ","%char)
                      = Some (parse_save_field p START_FIELD)).
      { unfold parse_process_char. destruct Hst as [-> | ->]; reflexivity. }
      rewrite Hstep.
      destruct (IH (parse_save_field p START_FIELD) Hpl' Hnl'
                  (or_introl eq_refl)) as (p' & Hrun & Hst' & Hheld).
      { cbn [field parse_save_field List.length] in *. cbn in Hlen. lia. }
      exists p'. split; [exact Hrun|]. split; [exact Hst'|].
      rewrite Hheld.
      assert (Hs : fields_held (parse_save_field p START_FIELD)
                   = fields_held p ++ [[]]) by reflexivity.
      rewrite Hs.
      destruct (split "," cs) as [|h t] eqn:E;
        [now apply split_nonempty in E|].
      rewrite continue_with_held. unfold fields_held.
      rewrite continue_with_held. cbn [app].
      now rewrite app_nil_r, <- app_assoc.
    + (* another character goes to the field *)
      assert (Hlim : (field_size_limit <=? Z.of_nat (List.length (field p)))
                     = false).
      { apply Z.leb_gt. cbn [List.length] in Hlen. lia. }
      assert (Hstep : parse_process_char p (Some c)
                      = Some {| state := IN_FIELD; field := c :: field p;
                                fields := fields p |}).
      { assert (Hcm : Ascii.eqb c "," = false)
          by now destruct (Ascii.eqb_spec c ",").
        unfold parse_process_char, parse_add_char.
        destruct Hst as [-> | ->]; rewrite ?He, ?Hq, ?Hcm, Hlim; reflexivity. }
      rewrite Hstep.
      destruct (IH {| state := IN_FIELD; field := c :: field p;
                      fields := fields p |} Hpl' Hnl' (or_intror eq_refl))
        as (p' & Hrun & Hst' & Hheld).
      { cbn [field List.length] in *. cbn in Hlen. lia. }
      exists p'. split; [exact Hrun|]. split; [exact Hst'|].
      rewrite Hheld. unfold fields_held. cbn [fields field rev].
      destruct (split "," cs) as [|h t] eqn:E;
        [now apply split_nonempty in E|].
      rewrite !continue_with_held. now rewrite <- app_assoc.
Qed.

(** A plain line is one record: its fields are the pieces between its
    commas. *)
Lemma parse_line_plain (l : str) :
  plain l -> ~ In newline l ->
  Z.of_nat (List.length l) < field_size_limit ->
  exists p,
    parse_line parse_reset l = Some p /\ state p = START_RECORD /\
    rev (fields p) = fields_of_line l.
Proof.
  intros Hpl Hnl Hlen. destruct l as [|c l].
  - exists parse_reset. repeat split.
  - (* the first character is read as at the start of a field *)
    assert (E : parse_chars parse_reset (c :: l)
                = parse_chars {| state := START_FIELD; field := [];
                                 fields := [] |} (c :: l)).
    { cbn [parse_chars]. unfold parse_process_char.
      cbn [state parse_reset].
      destruct (Hpl c (or_introl eq_refl)) as [Hq Hr].
      assert (He : is_eol_char c = false).
      { unfold is_eol_char.
        destruct (Ascii.eqb_spec c newline) as [->|_];
          [exfalso; apply Hnl; now left|].
        destruct (Ascii.eqb_spec c carriage_return); [contradiction|reflexivity]. }
      now rewrite He. }
    unfold parse_line. rewrite E.
    destruct (parse_chars_plain (c :: l)
                {| state := START_FIELD; field := []; fields := [] |}
                Hpl Hnl (or_introl eq_refl))
      as (p' & Hrun & Hst & Hheld).
    { cbn [field]. exact Hlen. }
    rewrite Hrun.
    exists (parse_save_field p' START_RECORD). split.
    + unfold parse_process_char. destruct Hst as [-> | ->]; reflexivity.
    + split; [reflexivity|]. rewrite fields_held_save, Hheld.
      unfold fields_held, fields_of_line. cbn [fields field rev app].
      destruct (split "," (c :: l)) as [|h t] eqn:S;
        [now apply split_nonempty in S|].
      change [@nil ascii] with ([] ++ [@nil ascii]).
      now rewrite continue_with_held.
Qed.


Lemma lstrip_incl (p : ascii -> bool) (s : str) (c : ascii) :
  In c (lstrip p s) -> In c s.
Proof.
  induction s as [|x s IH]; [intros []|]. cbn.
  destruct (p x); [right; auto | auto].
Qed.





(** ** Selecting the strongest row *)

Lemma power_of_fields (r : row) (p : float) :
  power_of r = Some p ->
  exists f, nth_error r 6 = Some f /\ float_of_str f = Some p.
Proof.
  unfold power_of. destruct (nth_error r 6) as [f|]; [|discriminate].
  destruct (float_of_str f) as [q|] eqn:E; [|discriminate].
  destruct (is_nan q); [discriminate|]. intros [= <-]. eauto.
Qed.

Lemma power_of_long (r : row) (p : float) :
  power_of r = Some p -> (6 <? List.length r)%nat = true.
Proof.
  intros H. apply power_of_fields in H. destruct H as (f & H & _).
  apply Nat.ltb_lt. apply nth_error_Some. congruence.
Qed.

Lemma short_no_power (r : row) :
  (6 <? List.length r)%nat = false -> power_of r = None.
Proof.
  intros H. destruct (power_of r) eqn:E; [|reflexivity].
  apply power_of_long in E. congruence.
Qed.



Lemma for_each_cons {S A} (x : A) (xs : list A) (body : A -> M S unit) (s : S) :
  for_each (x :: xs) body s =
  match body x s with
  | (Ret _, s') => for_each xs body s'
  | (Raise e, s') => (Raise e, s')
  | (Stuck, s') => (Stuck, s')
  end.
Proof. reflexivity. Qed.








(** The loop of [rf_analyzer.py] over one row. *)
Lemma scan_row_short (r : row) (l : Standalone.scan_locals) :
  long_row r = false -> Standalone.scan_row r l = (Ret tt, l).
Proof.
  intros H. unfold long_row in H. apply Nat.ltb_ge in H.
  assert (E : nth_error r 6 = None) by (apply nth_error_None; lia).
  unfold Standalone.scan_row, try_except, item, orelse, bind. now rewrite E.
Qed.














(** The example of the design document. *)
Example select_strongest_sample :
  App.select_strongest sample_sweep = Ret (Some sample_observation) /\
  Standalone.select_strongest sample_sweep = Ret (Some sample_observation) /\
  float_of_str (lit "100.05") = Some (frequency_mhz sample_observation) /\
  float_of_str (lit "-20.5") = Some (power_db sample_observation).
Proof. repeat split; vm_compute; reflexivity. Qed.

(** C2, at inputs on which the code departs from it. On a sweep with a row
    whose power is not a number followed by a well-formed row, [app.py]
    raises [ValueError], which nothing catches: the cycle and the loop end
    there, where [rf_analyzer.py] returns the well-formed row. On a sweep
    with a strong row whose edge frequency is not an integer followed by a
    weaker well-formed row, [rf_analyzer.py] returns nothing. *)
Theorem C2_malformed_rows_not_skipped :
  App.select_strongest noisy_sweep = Raise ValueError /\
  (forall fuel w,
     fst (App.start_analysis_loop (S fuel)
            (App.boot {| sweeps := Exited 0 noisy_sweep [] :: sweeps w;
                         replies := replies w; waits := waits w |}))
     = Raise ValueError) /\
  Standalone.select_strongest noisy_sweep = Ret (Some sample_observation) /\
  App.select_strongest shadowed_sweep = Raise ValueError /\
  Standalone.select_strongest shadowed_sweep = Ret None /\
  data_rows shadowed_sweep =
    Some [map lit ["d"; "t"; "1e8"; "100100000"; "100000"; "131072"; "-10"]%string;
          map lit ["d"; "t"; "100000000"; "100100000"; "100000"; "131072";
                   "-20.5"]%string].
Proof.
  assert (E : App.select_strongest noisy_sweep = Raise ValueError)
    by (vm_compute; reflexivity).
  split; [exact E|]. split.
  - intros fuel [sw rp wt]. unfold App.start_analysis_loop, App.boot.
    cbn [App.loop]. run_app. rewrite E. reflexivity.
  - repeat split; vm_compute; reflexivity.
Qed.

(** ** Characters *)

Lemma upper_lower (x : ascii) : upper_char (lower_ascii x) = upper_char x.
Proof. each_char x; reflexivity. Qed.

Lemma upper_of_upper (a : ascii) :
  isupper_ascii a = true -> upper_char (lower_ascii a) = a.
Proof. each_char a; intros H; try reflexivity; discriminate. Qed.

Lemma isword_lower (x : ascii) : isword (lower_ascii x) = isword x.
Proof. each_char x; reflexivity. Qed.

Lemma isword_upper (a : ascii) : isupper_ascii a = true -> isword a = true.
Proof. each_char a; intros H; try reflexivity; discriminate. Qed.

Lemma digit_plain (c : ascii) :
  isdigit c = true ->
  isspace_num c = false /\ Ascii.eqb c "-" = false /\
  Ascii.eqb c "+" = false /\ Ascii.eqb c "_" = false.
Proof. each_char c; intros H; try discriminate; repeat split. Qed.

Lemma digit_val_range (c : ascii) : isdigit c = true -> 0 <= digit_val c <= 9.
Proof. each_char c; intros H; try discriminate; vm_compute; split; discriminate. Qed.

(** A letter that is an upper-case letter up to case is a word character,
    and that letter once in upper case. *)
Lemma same_letter (a x : ascii) :
  isupper_ascii a = true -> lower_ascii x = lower_ascii a ->
  isword x = true /\ upper_char x = a.
Proof.
  intros Ha E. split.
  - rewrite <- isword_lower, E, isword_lower. now apply isword_upper.
  - rewrite <- upper_lower, E. now apply upper_of_upper.
Qed.

Lemma same_word (t w : str) :
  forallb isupper_ascii t = true -> map lower_ascii w = map lower_ascii t ->
  upper w = t /\ forallb isword w = true.
Proof.
  revert w. induction t as [|a t IH]; intros [|x w] Ht E; try discriminate.
  - split; reflexivity.
  - cbn in Ht, E. apply andb_prop in Ht. destruct Ht as [Ha Ht].
    injection E as Ex Ew. destruct (same_letter a x Ha Ex) as [Hw Hu].
    destruct (IH w Ht Ew) as [IH1 IH2]. unfold upper in *.
    cbn [map forallb]. rewrite Hw, Hu, IH1, IH2. split; reflexivity.
Qed.

(** ** Regular expressions *)

Lemma last_opt_app (b : option ascii) (u v : str) :
  last_opt b (u ++ v) = last_opt (last_opt b u) v.
Proof. unfold last_opt. apply fold_left_app. Qed.

Lemma prefix_ci_sound (t s w post : str) :
  prefix_ci t s = Some (w, post) ->
  s = w ++ post /\ map lower_ascii w = map lower_ascii t.
Proof.
  revert s w. induction t as [|a t IH]; intros s w H.
  - cbn in H. injection H as <- <-. split; reflexivity.
  - destruct s as [|x s]; [discriminate|]. cbn in H.
    destruct (Ascii.eqb_spec (lower_ascii a) (lower_ascii x)) as [E|];
      [|discriminate].
    destruct (prefix_ci t s) as [[w' post']|] eqn:P; [|discriminate].
    injection H as <- <-. destruct (IH _ _ P) as [-> Hw].
    cbn. rewrite Hw, E. split; reflexivity.
Qed.

Lemma prefix_ci_complete (t w post : str) :
  map lower_ascii w = map lower_ascii t ->
  prefix_ci t (w ++ post) = Some (w, post).
Proof.
  revert w. induction t as [|a t IH]; intros [|x w] E; try discriminate.
  - reflexivity.
  - injection E as Ex Ew. cbn. rewrite Ex, Ascii.eqb_refl, (IH w Ew).
    reflexivity.
Qed.

Lemma rmatch_word (t : str) (k : cursor -> option cursor) (c : cursor) :
  rmatch true (word t) k c =
  match prefix_ci t (rest c) with
  | Some (w, post) =>
      k {| before := last_opt (before c) w; rest := post;
           group1 := group1 c |}
  | None => None
  end.
Proof.
  revert c. induction t as [|a t IH]; intros c.
  - destruct c. reflexivity.
  - cbn [word rmatch prefix_ci]. destruct (rest c) as [|x xs]; [reflexivity|].
    destruct (chr_match true a x); [|reflexivity].
    rewrite IH. cbn [advance rest before group1].
    destruct (prefix_ci t xs) as [[w post]|]; reflexivity.
Qed.

Lemma span_app (p : ascii -> bool) (s : str) :
  s = fst (span p s) ++ snd (span p s).
Proof.
  induction s as [|c s IH]; [reflexivity|]. cbn.
  destruct (p c); [|reflexivity].
  destruct (span p s) as [a b]. cbn in *. now rewrite <- IH.
Qed.

Lemma span_all (p : ascii -> bool) (s : str) :
  forallb p (fst (span p s)) = true.
Proof.
  induction s as [|c s IH]; [reflexivity|]. cbn.
  destruct (p c) eqn:E; [|reflexivity].
  destruct (span p s) as [a b]. cbn in *. now rewrite E.
Qed.

Lemma span_stop (p : ascii -> bool) (s : str) :
  match snd (span p s) with c :: _ => p c = false | [] => True end.
Proof.
  induction s as [|c s IH]; [exact I|]. cbn.
  destruct (p c) eqn:E; [|exact E].
  destruct (span p s) as [a b]. exact IH.
Qed.

Lemma span_run (p : ascii -> bool) (ds post : str) :
  forallb p ds = true ->
  match post with c :: _ => p c = false | [] => True end ->
  span p (ds ++ post) = (ds, post).
Proof.
  intros Hd Hp. induction ds as [|d ds IH].
  - destruct post as [|c post]; [reflexivity|]. cbn. now rewrite Hp.
  - cbn in Hd. apply andb_prop in Hd. destruct Hd as [H1 H2].
    cbn. rewrite H1, (IH H2). reflexivity.
Qed.

(** Greedy repetition before a continuation that always succeeds takes the
    whole run. *)
Lemma star_total (cls : ascii -> bool) (k : cursor -> option cursor)
    (g : option str) (prev : option ascii) (s : str) :
  (forall c, k c <> None) ->
  star cls k g prev s =
  k {| before := last_opt prev (fst (span cls s)); rest := snd (span cls s);
       group1 := g |}.
Proof.
  intros Hk. revert prev. induction s as [|x xs IH]; intros prev;
    [reflexivity|].
  cbn [star span]. destruct (cls x); [|reflexivity].
  rewrite IH. destruct (span cls xs) as [a b]. cbn [fst snd].
  destruct (k _) eqn:E; [reflexivity | now apply Hk in E].
Qed.

Lemma firstn_span (x : ascii) (xs : str) :
  firstn (List.length (x :: xs) - List.length (snd (span isdigit xs)))
    (x :: xs) = x :: fst (span isdigit xs).
Proof.
  rewrite (span_app isdigit xs) at 1 3.
  destruct (span isdigit xs) as [a b]. cbn [fst snd].
  change (x :: a ++ b) with ((x :: a) ++ b).
  replace (List.length ((x :: a) ++ b) - List.length b)%nat
    with (List.length (x :: a) + 0)%nat by (rewrite length_app; lia).
  rewrite firstn_app_2. cbn. now rewrite app_nil_r.
Qed.

(** The pattern of a gain at a position of the text. *)
Lemma rmatch_gain (label : str) (prev : option ascii) (s : str) :
  match rmatch true (gain_pattern label) Some
          {| before := prev; rest := s; group1 := None |} with
  | Some c => gain_match label s = group1 c /\ group1 c <> None
  | None => gain_match label s = None
  end.
Proof.
  unfold gain_pattern, gain_match. cbn [rmatch]. rewrite rmatch_word.
  cbn [rest before group1].
  destruct (prefix_ci label s) as [[w post]|]; [|reflexivity].
  cbn [rmatch rest group1 before].
  destruct post as [|x xs]; [reflexivity|]. cbn [span].
  destruct (isdigit x); [|reflexivity].
  rewrite star_total by discriminate.
  cbn [rest]. rewrite firstn_span.
  destruct (span isdigit xs) as [a b]. cbn. split; [reflexivity|discriminate].
Qed.

(** [re.search] finds the leftmost position where the pattern matches. *)
Lemma search_from_Some (ic : bool) (r : regex) (prev : option ascii) (s : str)
    (g : option str) :
  search_from ic r prev s = Some g ->
  exists pre post c,
    s = pre ++ post /\
    rmatch ic r Some (cursor_at prev pre post) = Some c /\ group1 c = g /\
    forall pre' post', s = pre' ++ post' ->
      (List.length pre' < List.length pre)%nat ->
      rmatch ic r Some (cursor_at prev pre' post') = None.
Proof.
  revert prev. induction s as [|x xs IH]; intros prev H.
  - cbn [search_from] in H.
    destruct (rmatch ic r Some _) as [c|] eqn:E; [|discriminate].
    injection H as <-. exists [], [], c. repeat split; [exact E|].
    intros pre' post' _ Hl. cbn in Hl. lia.
  - cbn [search_from] in H.
    destruct (rmatch ic r Some _) as [c|] eqn:E.
    + injection H as <-. exists [], (x :: xs), c. repeat split; [exact E|].
      intros pre' post' _ Hl. cbn in Hl. lia.
    + destruct (IH _ H) as (pre & post & c & -> & Hm & Hg & Hmin).
      exists (x :: pre), post, c. repeat split; [exact Hm | exact Hg |].
      intros [|y pre'] post' Hs Hl.
      * cbn in Hs. subst post'. exact E.
      * cbn in Hs. injection Hs as <- Hs. cbn in Hl.
        apply (Hmin pre' post' Hs). lia.
Qed.

Lemma search_from_None (ic : bool) (r : regex) (prev : option ascii) (s : str) :
  search_from ic r prev s = None ->
  forall pre post, s = pre ++ post ->
    rmatch ic r Some (cursor_at prev pre post) = None.
Proof.
  revert prev. induction s as [|x xs IH]; intros prev H pre post Hs.
  - destruct pre; [|discriminate]. cbn in Hs. subst post.
    cbn [search_from] in H. unfold cursor_at. cbn [last_opt fold_left].
    destruct (rmatch ic r Some _) as [c|]; [discriminate | reflexivity].
  - cbn [search_from] in H.
    destruct (rmatch ic r Some {| before := prev; rest := x :: xs;
                                  group1 := None |}) as [c|] eqn:E;
      [discriminate|].
    destruct pre as [|y pre].
    + cbn in Hs. subst post. exact E.
    + cbn in Hs. injection Hs as <- Hs. apply (IH _ H pre post Hs).
Qed.

(** ** The gains a suggestion names *)

Lemma gain_at_match (label s pre ds : str) :
  gain_at label s pre ds <->
  exists post0, s = pre ++ post0 /\ gain_match label post0 = Some ds.
Proof.
  unfold gain_match. split.
  - intros (w & post & -> & Hw & Hne & Hd & Hp).
    exists (w ++ ds ++ post). split; [reflexivity|].
    rewrite (prefix_ci_complete label w (ds ++ post) Hw).
    rewrite (span_run isdigit ds post Hd Hp). cbn [fst].
    destruct ds; [contradiction | reflexivity].
  - intros (post0 & -> & H).
    destruct (prefix_ci label post0) as [[w post1]|] eqn:P; [|discriminate].
    destruct (prefix_ci_sound _ _ _ _ P) as [-> Hw].
    pose proof (span_app isdigit post1) as Happ.
    pose proof (span_all isdigit post1) as Hall.
    pose proof (span_stop isdigit post1) as Hstop.
    destruct (span isdigit post1) as [a b]. cbn [fst snd] in *.
    destruct a as [|d a]; [discriminate|]. injection H as <-.
    exists w, b. rewrite Happ. repeat split; auto. discriminate.
Qed.

Lemma search_gain_Some (label s : str) (g : option str) :
  re_search true (gain_pattern label) s = Some g ->
  exists ds, g = Some ds /\ first_gain label s ds.
Proof.
  intros H. apply search_from_Some in H.
  destruct H as (pre & post & c & -> & Hm & <- & Hmin).
  pose proof (rmatch_gain label (last_opt None pre) post) as R.
  unfold cursor_at in Hm. rewrite Hm in R. destruct R as [R Hne].
  destruct (group1 c) as [ds|]; [|contradiction].
  exists ds. split; [reflexivity|]. exists pre. split.
  - apply gain_at_match. eauto.
  - intros pre' ds' Hat. apply gain_at_match in Hat.
    destruct Hat as (post' & Hs & Hg).
    destruct (Nat.le_gt_cases (List.length pre) (List.length pre')) as [|Hlt];
      [assumption|].
    specialize (Hmin pre' post' Hs Hlt).
    pose proof (rmatch_gain label (last_opt None pre') post') as R'.
    unfold cursor_at in Hmin. rewrite Hmin in R'. congruence.
Qed.

Lemma search_gain_None (label s : str) :
  re_search true (gain_pattern label) s = None -> ~ gain_occurs label s.
Proof.
  intros H (pre & ds & Hat). apply gain_at_match in Hat.
  destruct Hat as (post & Hs & Hg).
  pose proof (search_from_None _ _ _ _ H pre post Hs) as Hm.
  pose proof (rmatch_gain label (last_opt None pre) post) as R.
  unfold cursor_at in Hm. rewrite Hm in R. congruence.
Qed.

Lemma first_gain_digits (label s ds : str) :
  first_gain label s ds -> ds <> [] /\ forallb isdigit ds = true.
Proof. intros (pre & (w & post & _ & _ & Hne & Hd & _) & _). auto. Qed.

(** [int()] reads a run of digits as its decimal value. *)
Lemma lstrip_digit (d : ascii) (ds : str) :
  isdigit d = true -> lstrip isspace_num (d :: ds) = d :: ds.
Proof. intros H. cbn. now destruct (digit_plain d H) as (-> & _). Qed.

Lemma drop_underscores_digits (prev : ascii) (ds : str) :
  forallb isdigit ds = true -> Ascii.eqb prev "_" = false ->
  drop_underscores prev ds = Some ds.
Proof.
  revert prev. induction ds as [|d ds IH]; intros prev H Hprev.
  - cbn. now rewrite Hprev.
  - cbn in H. apply andb_prop in H. destruct H as [Hd Hds].
    destruct (digit_plain d Hd) as (_ & _ & _ & Hu).
    cbn. rewrite Hu, Hprev. cbn. now rewrite (IH d Hds Hu).
Qed.

Lemma int_of_digits (ds : str) :
  ds <> [] -> forallb isdigit ds = true ->
  int_of_str ds =
  if Z.of_nat (List.length ds) <=? int_max_str_digits
  then Some (digits_val ds) else None.
Proof.
  intros Hne Hd. unfold int_of_str.
  assert (E : rstrip isspace_num (lstrip isspace_num ds) = ds).
  { destruct ds as [|d ds]; [contradiction|].
    pose proof Hd as Hd'. cbn in Hd'. apply andb_prop in Hd'.
    rewrite (lstrip_digit d ds (proj1 Hd')). unfold rstrip.
    assert (Hr : forallb isdigit (rev (d :: ds)) = true).
    { rewrite forallb_forall in *. intros c Hc. apply Hd.
      now apply in_rev. }
    destruct (rev (d :: ds)) as [|e es] eqn:R.
    - apply (f_equal (@List.length ascii)) in R. rewrite length_rev in R.
      discriminate.
    - cbn in Hr. apply andb_prop in Hr.
      rewrite (lstrip_digit e es (proj1 Hr)), <- R. apply rev_involutive. }
  rewrite E. destruct ds as [|d ds]; [contradiction|].
  pose proof Hd as Hd'. cbn in Hd'. apply andb_prop in Hd'.
  destruct (digit_plain d (proj1 Hd')) as (_ & Hm & Hp & _).
  unfold split_sign. rewrite Hm, Hp.
  rewrite (drop_underscores_digits "x" (d :: ds) Hd eq_refl).
  rewrite Hd. reflexivity.
Qed.

(** What [adjust_settings] computes for one gain. *)
Lemma clamped_gain_digits {S} (ds : str) (hi : Z) (s : S) :
  ds <> [] -> forallb isdigit ds = true ->
  clamped_gain (Some ds) hi s =
  (if Z.of_nat (List.length ds) <=? int_max_str_digits
   then Ret (Z.max 0 (Z.min (digits_val ds) hi)) else Raise ValueError, s).
Proof.
  intros Hne Hd. unfold clamped_gain, int_, orelse, bind, ret.
  rewrite (int_of_digits ds Hne Hd).
  now destruct (Z.of_nat (List.length ds) <=? int_max_str_digits).
Qed.

(** The three ways a suggestion names a gain: by digits [int()] reads, by
    more digits than it reads, or not at all. *)
Lemma search_gain_cases (label s : str) :
  (exists ds, re_search true (gain_pattern label) s = Some (Some ds) /\
              first_gain label s ds /\
              Z.of_nat (List.length ds) <= int_max_str_digits /\
              forall S hi (st : S),
                clamped_gain (Some ds) hi st =
                (Ret (Z.max 0 (Z.min (digits_val ds) hi)), st)) \/
  (exists ds, re_search true (gain_pattern label) s = Some (Some ds) /\
              first_gain label s ds /\
              int_max_str_digits < Z.of_nat (List.length ds) /\
              forall S hi (st : S),
                clamped_gain (Some ds) hi st = (Raise ValueError, st)) \/
  (re_search true (gain_pattern label) s = None /\ ~ gain_occurs label s).
Proof.
  destruct (re_search true (gain_pattern label) s) as [g|] eqn:E.
  - destruct (search_gain_Some label s g E) as (ds & -> & H).
    destruct (first_gain_digits _ _ _ H) as [Hne Hd].
    destruct (Z.of_nat (List.length ds) <=? int_max_str_digits) eqn:L.
    + left. exists ds. repeat split; auto.
      * now apply Z.leb_le.
      * intros S hi st. rewrite (clamped_gain_digits ds hi st Hne Hd).
        now rewrite L.
    + right. left. exists ds. repeat split; auto.
      * now apply Z.leb_gt.
      * intros S hi st. rewrite (clamped_gain_digits ds hi st Hne Hd).
        now rewrite L.
  - right. right. split; [reflexivity | now apply search_gain_None].
Qed.

(** [adjust_settings] of [app.py]. *)
Lemma app_adjust_settings (text : str) (s : App.state) :
  exists r s' evs,
    App.adjust_settings text s = (r, s') /\
    adjusted text r (App.lna_gain (self s)) (App.vga_gain (self s))
      (App.lna_gain (self s')) (App.vga_gain (self s')) /\
    App.amp_enabled (self s') = App.amp_enabled (self s) /\
    App.stop_event (self s') = App.stop_event (self s) /\
    env s' = env s /\
    trace s' = trace s ++ evs /\ Forall adjust_event evs.
Proof.
  destruct s as [[lna vga amp stop] w tr].
  unfold App.adjust_settings, lna_pattern, vga_pattern, adjusted.
  destruct (search_gain_cases lna_label text)
    as [(dl & -> & Hl & Ll & Cl)|[(dl & -> & Hl & Ll & Cl)|[-> Hl]]];
    destruct (search_gain_cases vga_label text)
      as [(dv & -> & Hv & Lv & Cv)|[(dv & -> & Hv & Lv & Cv)|[-> Hv]]].
  all: eexists; eexists; eexists; split;
    [ try (unfold bind at 1; unfold bind at 1; rewrite Cl);
      run_app; try rewrite Cv; reflexivity |].
  all: cbn [self env trace App.lna_gain App.vga_gain App.amp_enabled
            App.stop_event].
  all: split; [| repeat split;
                 try (rewrite <- ?app_assoc; reflexivity);
                 try (symmetry; apply app_nil_r);
                 try (repeat constructor)].
  all: first
    [ left; split; [reflexivity|]; split; solve_gain
    | right; left; split; [reflexivity|]; split; [solve_gain|];
      split; reflexivity
    | right; right; split; [reflexivity|]; split; [solve_gain|];
      split; [solve_gain | reflexivity] ].
Qed.

(** [adjust_settings] of [rf_analyzer.py]. *)
Lemma standalone_adjust_settings (text : str) (s : Standalone.state) :
  exists s' evs,
    Standalone.adjust_settings text s = (Ret tt, s') /\
    gain_outcome lna_label 40 text
      (Standalone.lna_gain (self s)) (Standalone.lna_gain (self s')) /\
    gain_outcome vga_label 62 text
      (Standalone.vga_gain (self s)) (Standalone.vga_gain (self s')) /\
    Standalone.amp_enabled (self s') = Standalone.amp_enabled (self s) /\
    env s' = env s /\
    trace s' = trace s ++ evs /\ Forall adjust_event evs.
Proof.
  destruct s as [[lna vga amp] w tr].
  unfold Standalone.adjust_settings, lna_pattern, vga_pattern.
  destruct (search_gain_cases lna_label text)
    as [(dl & -> & Hl & Ll & Cl)|[(dl & -> & Hl & Ll & Cl)|[-> Hl]]];
    destruct (search_gain_cases vga_label text)
      as [(dv & -> & Hv & Lv & Cv)|[(dv & -> & Hv & Lv & Cv)|[-> Hv]]].
  all: eexists; eexists; split;
    [ try (unfold bind at 1; unfold try_except at 1; unfold bind at 1;
           rewrite Cl);
      run_standalone; try rewrite Cv; reflexivity |].
  all: cbn [self env trace Standalone.lna_gain Standalone.vga_gain
            Standalone.amp_enabled].
  all: unfold gain_outcome.
  all: split; [|split; [|repeat split;
                 try (rewrite <- ?app_assoc; reflexivity);
                 try (symmetry; apply app_nil_r);
                 try (repeat constructor)]].
  all: first [left; solve_gain | right; split; [solve_gain | reflexivity]].
Qed.

Lemma gain_update_range (label : str) (hi : Z) (s : str) (old new : Z) :
  0 <= hi -> gain_update label hi s old new ->
  0 <= new <= hi \/ ~ gain_occurs label s.
Proof.
  intros Hhi [(ds & _ & _ & ->)|[H _]]; [left; lia | now right].
Qed.

Lemma gain_update_absent (label : str) (hi : Z) (s : str) (old new : Z) :
  gain_update label hi s old new -> ~ gain_occurs label s -> new = old.
Proof.
  intros [(ds & (pre & Hat & _) & _)|[_ ->]] Hno; [|reflexivity].
  exfalso. apply Hno. exists pre, ds. exact Hat.
Qed.

Lemma gain_outcome_absent (label : str) (hi : Z) (s : str) (old new : Z) :
  gain_outcome label hi s old new -> ~ gain_occurs label s -> new = old.
Proof.
  intros [H|[_ ->]] Hno; [|reflexivity].
  exact (gain_update_absent _ _ _ _ _ H Hno).
Qed.

(** C4, as amended. From every configuration, the suggestion
    [New settings: LNA gain 55, VGA gain -3] sets the LNA gain to 40 and
    leaves the VGA gain as it is, the pattern of digits not matching [-3].
    In general, of each gain: the digits of the first occurrence of its
    label, when no more than [int()] reads, are read as an integer and
    clamped, to [0, 40] for the LNA and [0, 62] for the VGA, before the
    gain is replaced by them; the gain stays when there is no occurrence.
    On more digits than [int()] reads, [rf_analyzer.py] leaves the gain as
    it is, and [app.py] ends with the [ValueError]. *)
Theorem C4_gains_clamped :
  (forall s : App.state,
     exists s',
       App.adjust_settings sample_suggestion s = (Ret tt, s') /\
       App.lna_gain (self s') = 40 /\
       App.vga_gain (self s') = App.vga_gain (self s)) /\
  (forall s : Standalone.state,
     exists s',
       Standalone.adjust_settings sample_suggestion s = (Ret tt, s') /\
       Standalone.lna_gain (self s') = 40 /\
       Standalone.vga_gain (self s') = Standalone.vga_gain (self s)) /\
  (forall (text : str) (s : App.state),
     exists r s',
       App.adjust_settings text s = (r, s') /\
       ((r = Ret tt /\
         gain_update lna_label 40 text
           (App.lna_gain (self s)) (App.lna_gain (self s')) /\
         gain_update vga_label 62 text
           (App.vga_gain (self s)) (App.vga_gain (self s')) /\
         (0 <= App.lna_gain (self s') <= 40
          \/ ~ gain_occurs lna_label text) /\
         (0 <= App.vga_gain (self s') <= 62
          \/ ~ gain_occurs vga_label text))
        \/ (r = Raise ValueError /\
            (oversized lna_label text \/ oversized vga_label text)))) /\
  (forall (text : str) (s : Standalone.state),
     exists s',
       Standalone.adjust_settings text s = (Ret tt, s') /\
       gain_outcome lna_label 40 text
         (Standalone.lna_gain (self s)) (Standalone.lna_gain (self s')) /\
       gain_outcome vga_label 62 text
         (Standalone.vga_gain (self s)) (Standalone.vga_gain (self s')) /\
       (0 <= Standalone.lna_gain (self s') <= 40
        \/ ~ gain_occurs lna_label text \/ oversized lna_label text) /\
       (0 <= Standalone.vga_gain (self s') <= 62
        \/ ~ gain_occurs vga_label text \/ oversized vga_label text)).
Proof.
  split; [|split; [|split]].
  - intros [[lna vga amp stop] w tr]. eexists. split.
    + vm_compute. reflexivity.
    + split; reflexivity.
  - intros [[lna vga amp] w tr]. eexists. split.
    + vm_compute. reflexivity.
    + split; reflexivity.
  - intros text s.
    destruct (app_adjust_settings text s)
      as (r & s' & evs & Hrun & Hadj & _).
    exists r, s'. split; [exact Hrun|].
    destruct Hadj as [(-> & Hl & Hv)|[(-> & Ho & _)|(-> & _ & Ho & _)]].
    + left. repeat split; try assumption.
      * apply (gain_update_range lna_label 40 _ _ _ ltac:(lia) Hl).
      * apply (gain_update_range vga_label 62 _ _ _ ltac:(lia) Hv).
    + right. auto.
    + right. auto.
  - intros text s.
    destruct (standalone_adjust_settings text s)
      as (s' & evs & Hrun & Hl & Hv & _).
    exists s'. repeat split; try assumption.
    + destruct Hl as [Hl|[Ho _]]; [|now right; right].
      destruct (gain_update_range lna_label 40 _ _ _ ltac:(lia) Hl); auto.
    + destruct Hv as [Hv|[Ho _]]; [|now right; right].
      destruct (gain_update_range vga_label 62 _ _ _ ltac:(lia) Hv); auto.
Qed.

(** C4 as stated fails: from the initial configuration, whose VGA gain is
    20, the suggestion of the design document leaves the VGA gain at 20,
    not at 0. And a suggestion that names the LNA gain by 4301 digits has
    it neither read nor clamped: [app.py] ends with the [ValueError], and
    [rf_analyzer.py] leaves the gain at 16. *)
Lemma C4_counterexample :
  let w := {| sweeps := []; replies := []; waits := [] |} in
  App.vga_gain
    (self (snd (App.adjust_settings sample_suggestion (App.boot w)))) = 20 /\
  Standalone.vga_gain
    (self (snd (Standalone.adjust_settings sample_suggestion
                  (Standalone.boot w)))) = 20 /\
  re_search true vga_pattern sample_suggestion = None /\
  fst (App.adjust_settings long_suggestion (App.boot w)) = Raise ValueError /\
  Standalone.lna_gain
    (self (snd (Standalone.adjust_settings long_suggestion
                  (Standalone.boot w)))) = 16.
Proof. repeat split; vm_compute; reflexivity. Qed.

(** C8. A suggestion in which the label of a gain followed by digits does
    not occur leaves that gain as it is, and [adjust_settings] changes
    nothing of the configuration but the two gains: not the amplifier
    flag, not the stop request, and nothing of the script of the outside.
    In both programs, and however [adjust_settings] ends. *)
Theorem C8_absent_pattern_keeps_gain (text : str) :
  (forall s : App.state,
     exists r s',
       App.adjust_settings text s = (r, s') /\
       (r = Ret tt \/ r = Raise ValueError) /\
       (~ gain_occurs lna_label text ->
        App.lna_gain (self s') = App.lna_gain (self s)) /\
       (~ gain_occurs vga_label text ->
        App.vga_gain (self s') = App.vga_gain (self s)) /\
       App.amp_enabled (self s') = App.amp_enabled (self s) /\
       App.stop_event (self s') = App.stop_event (self s) /\
       env s' = env s) /\
  (forall s : Standalone.state,
     exists s',
       Standalone.adjust_settings text s = (Ret tt, s') /\
       (~ gain_occurs lna_label text ->
        Standalone.lna_gain (self s') = Standalone.lna_gain (self s)) /\
       (~ gain_occurs vga_label text ->
        Standalone.vga_gain (self s') = Standalone.vga_gain (self s)) /\
       Standalone.amp_enabled (self s') = Standalone.amp_enabled (self s) /\
       env s' = env s).
Proof.
  split; intros s.
  - destruct (app_adjust_settings text s)
      as (r & s' & evs & Hrun & Hadj & Ha & Hs & He & _).
    exists r, s'. split; [exact Hrun|].
    destruct Hadj
      as [(-> & Hl & Hv)|[(-> & _ & Hl & Hv)|(-> & Hl & _ & Hv)]];
      repeat split; auto; intros Hno;
      eauto using gain_update_absent.
  - destruct (standalone_adjust_settings text s)
      as (s' & evs & Hrun & Hl & Hv & Ha & He & _).
    exists s'. repeat split; eauto using gain_outcome_absent.
Qed.

Lemma C8_absent_pattern_keeps_gain_witness :
  exists r s',
    App.adjust_settings no_suggestions
      (App.boot {| sweeps := []; replies := []; waits := [] |})
    = (r, s') /\
    App.lna_gain (self s') = 16 /\ App.vga_gain (self s') = 20.
Proof.
  destruct (C8_absent_pattern_keeps_gain no_suggestions) as [H _].
  destruct (H (App.boot {| sweeps := []; replies := []; waits := [] |}))
    as (r & s' & Hrun & _ & Hl & Hv & _).
  exists r, s'. split; [exact Hrun|]. split.
  - apply Hl. apply search_gain_None. vm_compute. reflexivity.
  - apply Hv. apply search_gain_None. vm_compute. reflexivity.
Defined.

(** ** The modulation token of a description *)

Lemma first_match_Some {X Y} (xs : list X) (f : X -> option Y) (y : Y) :
  first_match xs f = Some y -> exists x, In x xs /\ f x = Some y.
Proof.
  induction xs as [|x xs IH]; [discriminate|]. cbn.
  destruct (f x) as [y'|] eqn:E.
  - intros [= <-]. exists x. auto.
  - intros H. destruct (IH H) as (x' & Hin & Hx). exists x'. auto.
Qed.

Lemma first_match_None {X Y} (xs : list X) (f : X -> option Y) :
  first_match xs f = None -> forall x, In x xs -> f x = None.
Proof.
  induction xs as [|x xs IH]; [intros _ ? []|]. cbn.
  destruct (f x) as [y'|] eqn:E; [discriminate|].
  intros H x' [<-|Hin]; [exact E | now apply IH].
Qed.

Lemma rmatch_alt_of (ic : bool) (r : regex) (rs : list regex)
    (k : cursor -> option cursor) (c : cursor) :
  rmatch ic (alt_of r rs) k c = first_match (r :: rs) (fun r' => rmatch ic r' k c).
Proof.
  revert r. induction rs as [|r' rs IH]; intros r.
  - cbn. now destruct (rmatch ic r k c).
  - cbn [alt_of rmatch]. rewrite IH. reflexivity.
Qed.

Lemma first_match_map {X X' Y} (g : X -> X') (xs : list X) (f : X' -> option Y) :
  first_match (map g xs) f = first_match xs (fun x => f (g x)).
Proof.
  induction xs as [|x xs IH]; [reflexivity|]. cbn. now rewrite IH.
Qed.

Lemma tokens_upper (t : str) :
  In t modulation_tokens -> t <> [] /\ forallb isupper_ascii t = true.
Proof.
  unfold modulation_tokens. cbn [map In]. intros H.
  repeat (destruct H as [<-|H]; [split; [discriminate | reflexivity]|]).
  destruct H.
Qed.

Lemma word_edges (prev : option ascii) (w post : str) :
  w <> [] -> forallb isword w = true ->
  isword_opt (last_opt prev w) = true /\
  isword_opt (hd_error (w ++ post)) = true.
Proof.
  intros Hne Hw. split.
  - destruct (exists_last Hne) as (w' & x & ->).
    rewrite last_opt_app. cbn. rewrite forallb_app in Hw.
    apply andb_prop in Hw. destruct Hw as [_ Hx]. cbn in Hx.
    now apply andb_prop in Hx.
  - destruct w as [|x w]; [contradiction|]. cbn in *.
    now apply andb_prop in Hw.
Qed.

Lemma firstn_prefix (w post : str) :
  firstn (List.length (w ++ post) - List.length post) (w ++ post) = w.
Proof.
  replace (List.length (w ++ post) - List.length post)%nat
    with (List.length w + 0)%nat by (rewrite length_app; lia).
  rewrite firstn_app_2. cbn. now rewrite app_nil_r.
Qed.

(** One token of the pattern at a position of the text. *)
Lemma rmatch_token (t : str) (prev : option ascii) (s : str) :
  In t modulation_tokens ->
  rmatch true (word t)
    (fun c' =>
       rmatch true WordBoundary Some
         {| before := before c'; rest := rest c';
            group1 := Some (firstn (List.length s - List.length (rest c')) s) |})
    {| before := prev; rest := s; group1 := None |} =
  match prefix_ci t s with
  | Some (w, post) =>
      if isword_opt (hd_error post) then None
      else Some {| before := last_opt prev w; rest := post;
                   group1 := Some w |}
  | None => None
  end.
Proof.
  intros Hin. rewrite rmatch_word. cbn [rest before group1].
  destruct (prefix_ci t s) as [[w post]|] eqn:P; [|reflexivity].
  destruct (prefix_ci_sound _ _ _ _ P) as [-> Hw].
  destruct (tokens_upper t Hin) as [Hne Hup].
  destruct (same_word t w Hup Hw) as [_ Hword].
  assert (Hwne : w <> []) by (intros ->; destruct t; [contradiction|discriminate]).
  destruct (word_edges prev w post Hwne Hword) as [Hlast _].
  cbn [rmatch before rest]. rewrite Hlast, firstn_prefix.
  destruct (isword_opt (hd_error post)); reflexivity.
Qed.

(** The pattern of the modulation at a position of the text. *)
Lemma rmatch_modulation (prev : option ascii) (s : str) :
  match rmatch true modulation_pattern Some
          {| before := prev; rest := s; group1 := None |} with
  | Some c =>
      exists w post t,
        s = w ++ post /\ In t modulation_tokens /\
        map lower_ascii w = map lower_ascii t /\
        isword_opt prev = false /\ isword_opt (hd_error post) = false /\
        group1 c = Some w
  | None =>
      forall w post t,
        s = w ++ post -> In t modulation_tokens ->
        map lower_ascii w = map lower_ascii t ->
        isword_opt prev = false -> isword_opt (hd_error post) = false -> False
  end.
Proof.
  unfold modulation_pattern. cbn [rmatch before rest group1].
  rewrite rmatch_alt_of.
  change (word (lit "FM") :: map word (tl modulation_tokens))
    with (map word modulation_tokens).
  rewrite first_match_map.
  destruct (xorb (isword_opt prev) (isword_opt (hd_error s))) eqn:B.
  - destruct (first_match modulation_tokens _) as [c|] eqn:F.
    + apply first_match_Some in F. destruct F as (t & Hin & Hm).
      pose proof (rmatch_token t prev s Hin) as Ht.
      cbn [rmatch before rest group1] in Ht. rewrite Ht in Hm. clear Ht.
      destruct (prefix_ci t s) as [[w post]|] eqn:P; [|discriminate].
      destruct (isword_opt (hd_error post)) eqn:A; [discriminate|].
      injection Hm as <-.
      destruct (prefix_ci_sound _ _ _ _ P) as [-> Hw].
      destruct (tokens_upper t Hin) as [Hne Hup].
      destruct (same_word t w Hup Hw) as [_ Hword].
      assert (Hwne : w <> [])
        by (intros ->; destruct t; [contradiction|discriminate]).
      destruct (word_edges prev w post Hwne Hword) as [_ Hhd].
      rewrite Hhd in B. exists w, post, t. repeat split; auto.
      now destruct (isword_opt prev).
    + intros w post t -> Hin Hw Hp Ha.
      pose proof (first_match_None _ _ F t Hin) as Hm. cbn beta in Hm.
      pose proof (rmatch_token t prev (w ++ post) Hin) as Ht.
      cbn [rmatch before rest group1] in Ht. rewrite Ht in Hm. clear Ht.
      rewrite (prefix_ci_complete t w post Hw), Ha in Hm. discriminate.
  - intros w post t -> Hin Hw Hp Ha.
    destruct (tokens_upper t Hin) as [Hne Hup].
    destruct (same_word t w Hup Hw) as [_ Hword].
    assert (Hwne : w <> [])
      by (intros ->; destruct t; [contradiction|discriminate]).
    destruct (word_edges prev w post Hwne Hword) as [_ Hhd].
    rewrite Hhd, Hp in B. discriminate.
Qed.

Lemma modulation_at_position (s pre w post : str) :
  modulation_at s pre w post <->
  s = pre ++ w ++ post /\
  exists t, In t modulation_tokens /\ map lower_ascii w = map lower_ascii t /\
            isword_opt (last_opt None pre) = false /\
            isword_opt (hd_error post) = false.
Proof.
  unfold modulation_at, last_char, last_opt. split.
  - intros (Hs & (t & Hin & Hw) & Hb & Ha). split; [exact Hs|].
    exists t. auto.
  - intros (Hs & t & Hin & Hw & Hb & Ha). repeat split; auto.
    exists t. auto.
Qed.

(** The token [_extract_modulation] returns. *)
Lemma extract_modulation_cases (d : str) :
  (exists pre w post,
     modulation_at d pre w post /\
     (forall pre' w' post', modulation_at d pre' w' post' ->
                            (List.length pre <= List.length pre')%nat) /\
     In (upper w) modulation_tokens /\
     _extract_modulation d = Ret (upper w))
  \/ ((forall pre w post, ~ modulation_at d pre w post) /\
      _extract_modulation d = Ret unknown).
Proof.
  unfold _extract_modulation, re_search.
  destruct (search_from true modulation_pattern None d) as [g|] eqn:E.
  - left. apply search_from_Some in E.
    destruct E as (pre & post0 & c & -> & Hm & <- & Hmin).
    pose proof (rmatch_modulation (last_opt None pre) post0) as R.
    unfold cursor_at in Hm. rewrite Hm in R.
    destruct R as (w & post & t & -> & Hin & Hw & Hb & Ha & Hg).
    exists pre, w, post. split; [|split; [|split]].
    + apply modulation_at_position. split; [reflexivity|].
      exists t. auto.
    + intros pre' w' post' Hat. apply modulation_at_position in Hat.
      destruct Hat as (Hs & t' & Hin' & Hw' & Hb' & Ha').
      destruct (Nat.le_gt_cases (List.length pre) (List.length pre'))
        as [|Hlt]; [assumption|]. exfalso.
      specialize (Hmin pre' (w' ++ post') Hs Hlt).
      pose proof (rmatch_modulation (last_opt None pre') (w' ++ post')) as R.
      unfold cursor_at in Hmin. rewrite Hmin in R.
      apply (R w' post' t' eq_refl Hin' Hw' Hb' Ha').
    + destruct (tokens_upper t Hin) as [_ Hup].
      destruct (same_word t w Hup Hw) as [-> _]. exact Hin.
    + rewrite Hg. reflexivity.
  - right. split; [|reflexivity].
    intros pre w post Hat. apply modulation_at_position in Hat.
    destruct Hat as (Hs & t & Hin & Hw & Hb & Ha).
    pose proof (search_from_None _ _ _ _ E pre (w ++ post) Hs) as Hm.
    pose proof (rmatch_modulation (last_opt None pre) (w ++ post)) as R.
    unfold cursor_at in Hm. rewrite Hm in R.
    apply (R w post t eq_refl Hin Hw Hb Ha).
Qed.


(** ** The analysis of a signal *)

Lemma app_analyze (sig : signal_data) (khz : float) (s : App.state)
    (r1 r2 : reply) (rs : list reply) :
  kilohertz sig = Some khz ->
  replies (env s) = r1 :: r2 :: rs ->
  App.analyze_with_ollama sig s =
  (Ret (answer r1 analysis_failed, answer r2 no_suggestions),
   {| self := self s; env := with_replies (env s) rs;
      trace := trace s ++
        analysis_events sig khz (App.lna_gain (self s))
          (App.vga_gain (self s)) r1 r2 |}).
Proof.
  destruct s as [a [sw rp wt] tr]. cbn [env replies self trace].
  intros Hk ->.
  unfold analysis_events, answer, query_events, App.analyze_with_ollama.
  rewrite Hk.
  destruct r1 as [|x1], r2 as [|x2]; run_app; norm_trace; reflexivity.
Qed.

(** The bandwidth in kHz of the first prompt out of the range of a
    [float]: the analysis ends there, before any request. *)
Lemma app_analyze_overflow (sig : signal_data) (s : App.state) :
  kilohertz sig = None ->
  App.analyze_with_ollama sig s =
  (Raise OverflowError,
   {| self := self s; env := env s;
      trace := trace s ++ [Log (MsgAnalyzing sig)] |}).
Proof.
  destruct s as [a w tr]. cbn [env self trace]. intros Hk.
  unfold App.analyze_with_ollama. rewrite Hk. run_app. reflexivity.
Qed.

Lemma standalone_analyze (sig : signal_data) (khz : float)
    (s : Standalone.state) (r1 r2 : reply) (rs : list reply) :
  kilohertz sig = Some khz ->
  replies (env s) = r1 :: r2 :: rs ->
  Standalone.analyze_with_ollama sig s =
  (Ret (answer r1 analysis_failed, answer r2 no_suggestions),
   {| self := self s; env := with_replies (env s) rs;
      trace := trace s ++
        analysis_events sig khz (Standalone.lna_gain (self s))
          (Standalone.vga_gain (self s)) r1 r2 |}).
Proof.
  destruct s as [a [sw rp wt] tr]. cbn [env replies self trace].
  intros Hk ->.
  unfold analysis_events, answer, query_events,
    Standalone.analyze_with_ollama.
  rewrite Hk.
  destruct r1 as [|x1], r2 as [|x2]; run_standalone; norm_trace; reflexivity.
Qed.

Lemma standalone_analyze_overflow (sig : signal_data)
    (s : Standalone.state) :
  kilohertz sig = None ->
  Standalone.analyze_with_ollama sig s =
  (Raise OverflowError,
   {| self := self s; env := env s;
      trace := trace s ++ [Log (MsgAnalyzing sig)] |}).
Proof.
  destruct s as [a w tr]. cbn [env self trace]. intros Hk.
  unfold Standalone.analyze_with_ollama. rewrite Hk. run_standalone.
  reflexivity.
Qed.




(** ** One cycle of [app.py] *)

Lemma app_run_scan (s : App.state) :
  App.run_scan s =
  let a := self s in
  let tr := trace s ++ app_scan_events a in
  match sweeps (env s) with
  | [] => (Stuck, {| self := a; env := env s; trace := tr |})
  | NotFound :: rest =>
      (Ret None, {| self := App.set_stop_event a;
                    env := with_sweeps (env s) rest;
                    trace := tr ++ [Log MsgToolNotFound] |})
  | Exited code out err :: rest =>
      let w := with_sweeps (env s) rest in
      if negb (code =? 0) then
        (Ret None, {| self := a; env := w;
                      trace := tr ++ [Log (MsgSweepError (strip err))] |})
      else
        match App.select_strongest out with
        | Ret (Some sig) =>
            (Ret (Some sig), {| self := a; env := w;
                                trace := tr ++ [Log (MsgStrongest sig)] |})
        | Ret None => (Ret None, {| self := a; env := w; trace := tr |})
        | Raise e =>
            if exn_eqb e FileNotFoundError then
              (Ret None, {| self := App.set_stop_event a; env := w;
                            trace := tr ++ [Log MsgToolNotFound] |})
            else (Raise e, {| self := a; env := w; trace := tr |})
        | Stuck => (Stuck, {| self := a; env := w; trace := tr |})
        end
  end.
Proof.
  destruct s as [a [sw rp wt] tr]. unfold app_scan_events.
  cbn [self env trace sweeps].
  destruct sw as [|[|code out err] rest].
  - run_app. norm_trace. reflexivity.
  - run_app. norm_trace. reflexivity.
  - unfold App.run_scan. run_app.
    destruct (negb (code =? 0)).
    + norm_trace. reflexivity.
    + destruct (App.select_strongest out) as [[sig|]|e|];
        [| |destruct e|]; norm_trace; reflexivity.
Qed.

Lemma app_wait_stop (n : Z) (s : App.state) :
  App.wait_stop n s =
  let tr := trace s ++ [Wait n] in
  if App.stop_event (self s) then
    (Ret tt, {| self := self s; env := env s; trace := tr |})
  else
    match waits (env s) with
    | [] => (Stuck, {| self := self s; env := env s; trace := tr |})
    | b :: bs =>
        (Ret tt,
         {| self := if b then App.set_stop_event (self s) else self s;
            env := with_waits (env s) bs; trace := tr |})
    end.
Proof.
  destruct s as [[lna vga amp stop] [sw rp wt] tr].
  cbn [self env trace waits App.stop_event].
  destruct stop; [reflexivity|]. destruct wt as [|[|] bs]; reflexivity.
Qed.

Lemma extract_modulation_total (d : str) :
  exists m, _extract_modulation d = Ret m.
Proof.
  destruct (extract_modulation_cases d)
    as [(pre & w & post & _ & _ & _ & H)|[_ H]]; eauto.
Qed.

Lemma app_decode_signal (sig : signal_data) (m : str) (s : App.state) :
  App.decode_signal sig m s =
  (Ret decoding_placeholder,
   {| self := self s; env := env s;
      trace := trace s ++ [Log (MsgDecoding sig m)] |}).
Proof. reflexivity. Qed.

Lemma app_log_data (sig : signal_data) (d g dec m : str) (s : App.state) :
  App.log_data sig d g dec m s =
  let a := self s in
  let r := log_entry_of sig m (App.lna_gain a) (App.vga_gain a)
             (App.amp_enabled a) d g dec in
  (Ret tt,
   {| self := a; env := env s;
      trace := trace s ++ [WriteRow r; Log (MsgLogged sig); EmitNewSignal r] |}).
Proof.
  destruct s as [a w tr]. run_app. norm_trace. reflexivity.
Qed.

(** A cycle of [app.py] whose sweep gave a signal, the two requests being
    answered. *)
Lemma app_cycle_signal (s s1 : App.state) (sig : signal_data) (khz : float)
    (r1 r2 : reply) (rs : list reply) :
  App.run_scan s = (Ret (Some sig), s1) ->
  kilohertz sig = Some khz ->
  replies (env s1) = r1 :: r2 :: rs ->
  exists m ra a' evs,
    let d := answer r1 analysis_failed in
    let g := answer r2 no_suggestions in
    let a := self s1 in
    let r := log_entry_of sig m (App.lna_gain a) (App.vga_gain a)
               (App.amp_enabled a) d g decoding_placeholder in
    let tr := trace s1
                ++ analysis_events sig khz (App.lna_gain a) (App.vga_gain a)
                     r1 r2
                ++ record_events sig m r true ++ evs in
    _extract_modulation d = Ret m /\
    ((ra = Ret tt /\
      App.cycle s =
        App.wait_stop 10
          {| self := a'; env := with_replies (env s1) rs;
             trace := tr ++ [Log MsgWaiting] |})
     \/ (ra = Raise ValueError /\
         App.cycle s =
           (Raise ValueError,
            {| self := a'; env := with_replies (env s1) rs;
               trace := tr |}))) /\
    Forall adjust_event evs /\
    adjusted g ra (App.lna_gain a) (App.vga_gain a)
      (App.lna_gain a') (App.vga_gain a') /\
    App.amp_enabled a' = App.amp_enabled a /\
    App.stop_event a' = App.stop_event a.
Proof.
  intros Hscan Hk Hrep.
  destruct (extract_modulation_total (answer r1 analysis_failed)) as [m Hm].
  remember (App.cycle s) as c eqn:Hc.
  unfold App.cycle in Hc. rewrite (bind_Ret _ _ _ _ _ Hscan) in Hc.
  cbv beta iota in Hc. unfold bind at 1 in Hc. unfold bind at 1 in Hc.
  rewrite (app_analyze sig khz s1 r1 r2 rs Hk Hrep) in Hc.
  cbv beta iota in Hc. unfold bind at 1, lift at 1 in Hc.
  rewrite Hm in Hc. cbv beta iota in Hc.
  unfold bind at 1 in Hc. rewrite app_decode_signal in Hc.
  unfold bind at 1 in Hc. rewrite app_log_data in Hc.
  cbv beta iota zeta in Hc. cbn [self env trace] in Hc.
  match type of Hc with
  | context [App.adjust_settings ?t ?st] =>
      destruct (app_adjust_settings t st)
        as (ra & s' & evs & Hadj & Hg & Ha & Hs & He & Ht & Hev);
      rewrite Hadj in Hc
  end.
  cbn [self env trace] in *.
  exists m, ra, (self s'), evs. cbv zeta. split; [exact Hm|]. split.
  - destruct s' as [a' w' tr']. cbn [self env trace] in *. subst w' tr'.
    destruct Hg as [(-> & _)|[(-> & _)|(-> & _)]]; [left|right|right];
      (split; [reflexivity|]); subst c;
      unfold bind, App._emit_log, emit, modify; cbn [self env trace];
      unfold record_events; norm_trace; reflexivity.
  - auto.
Qed.

(** A bandwidth whose value in kHz is out of the range of a [float] ends
    the cycle at the first prompt. *)
Lemma app_cycle_overflow (s s1 : App.state) (sig : signal_data) :
  App.run_scan s = (Ret (Some sig), s1) ->
  kilohertz sig = None ->
  App.cycle s =
  (Raise OverflowError,
   {| self := self s1; env := env s1;
      trace := trace s1 ++ [Log (MsgAnalyzing sig)] |}).
Proof.
  intros Hscan Hk. unfold App.cycle.
  rewrite (bind_Ret _ _ _ _ _ Hscan). cbv beta iota.
  unfold bind at 1. unfold bind at 1.
  now rewrite (app_analyze_overflow sig s1 Hk).
Qed.

Lemma app_cycle_no_signal (s s1 : App.state) :
  App.run_scan s = (Ret None, s1) ->
  App.cycle s =
  App.wait_stop 10
    {| self := self s1; env := env s1;
       trace := trace s1 ++ [Log MsgNoSignal; Log MsgWaiting] |}.
Proof.
  intros H. unfold App.cycle. rewrite (bind_Ret _ _ _ _ _ H).
  destruct s1 as [a w tr]. unfold bind, App._emit_log, emit, modify.
  cbn [self env trace]. norm_trace. reflexivity.
Qed.

Lemma app_cycle_raise (s s1 : App.state) (e : exn) :
  App.run_scan s = (Raise e, s1) -> App.cycle s = (Raise e, s1).
Proof. intros H. unfold App.cycle. now rewrite (bind_Raise _ _ _ _ _ H). Qed.

Lemma app_cycle_stuck (s s1 : App.state) :
  App.run_scan s = (Stuck, s1) -> App.cycle s = (Stuck, s1).
Proof. intros H. unfold App.cycle. now rewrite (bind_Stuck _ _ _ _ H). Qed.

(** The analysis when the endpoint does not answer both requests. *)
Lemma app_cycle_unanswered (s s1 : App.state) (sig : signal_data)
    (khz : float) :
  App.run_scan s = (Ret (Some sig), s1) ->
  kilohertz sig = Some khz ->
  (List.length (replies (env s1)) < 2)%nat ->
  exists w evs,
    App.cycle s = (Stuck, {| self := self s1; env := w;
                             trace := trace s1 ++ evs |}) /\
    Forall quiet_event evs.
Proof.
  intros Hscan Hk Hlen. unfold App.cycle.
  rewrite (bind_Ret _ _ _ _ _ Hscan).
  destruct s1 as [a [sw rp wt] tr]. cbn [env replies] in Hlen.
  cbv beta iota. unfold App.analyze_with_ollama. rewrite Hk.
  destruct rp as [|[|x] [|r2 rp]]; cbn in Hlen; try lia;
    eexists; eexists; (split; [run_app; norm_trace; reflexivity|]);
    repeat constructor.
Qed.

Lemma Forall_quiet_wait (n : Z) : Forall quiet_event [Wait n].
Proof. repeat constructor. Qed.

Lemma analysis_events_quiet (sig : signal_data) (khz : float) (lna vga : Z)
    (r1 r2 : reply) :
  Forall quiet_event (analysis_events sig khz lna vga r1 r2).
Proof.
  unfold analysis_events, query_events.
  destruct r1, r2; repeat constructor.
Qed.

(** What [wait_stop] leaves of the state it is given. *)
Lemma app_wait_stop_outcome (n : Z) (s : App.state) :
  exists r s',
    App.wait_stop n s = (r, s') /\
    trace s' = trace s ++ [Wait n] /\
    App.lna_gain (self s') = App.lna_gain (self s) /\
    App.vga_gain (self s') = App.vga_gain (self s) /\
    App.amp_enabled (self s') = App.amp_enabled (self s) /\
    (App.stop_event (self s) = true ->
     r = Ret tt /\ self s' = self s /\ env s' = env s).
Proof.
  rewrite app_wait_stop. cbv zeta.
  destruct (App.stop_event (self s)) eqn:St.
  - eexists. eexists. split; [reflexivity|]. cbn. repeat split.
  - destruct (waits (env s)) as [|[|] bs]; eexists; eexists;
      (split; [reflexivity|]); cbn; repeat split; discriminate.
Qed.

(** The three courses of a cycle of [app.py], by the events that follow
    those of its sweep: a quiet cycle, which writes no row and leaves the
    gains; a cycle that finds the tool missing; a cycle that writes a row
    with the gains it started with, and adjusts the gains afterwards. *)
Lemma app_cycle_outcome (s : App.state) :
  exists r s' evs,
    App.cycle s = (r, s') /\
    trace s' = trace s ++ app_scan_events (self s) ++ evs /\
    App.amp_enabled (self s') = App.amp_enabled (self s) /\
    ((Forall quiet_event evs /\
      App.lna_gain (self s') = App.lna_gain (self s) /\
      App.vga_gain (self s') = App.vga_gain (self s))
     \/ (evs = tool_missing_events /\ r = Ret tt /\
         App.stop_event (self s') = true /\
         sweeps (env s') = tl (sweeps (env s)) /\
         App.lna_gain (self s') = App.lna_gain (self s) /\
         App.vga_gain (self s') = App.vga_gain (self s))
     \/ (exists sig m d g evs1 evs2 evs3 ra,
           evs = evs1
                 ++ record_events sig m
                      (log_entry_of sig m (App.lna_gain (self s))
                         (App.vga_gain (self s)) (App.amp_enabled (self s))
                         d g decoding_placeholder) true
                 ++ evs2 ++ evs3 /\
           Forall quiet_event evs1 /\ Forall adjust_event evs2 /\
           Forall quiet_event evs3 /\
           adjusted g ra (App.lna_gain (self s)) (App.vga_gain (self s))
             (App.lna_gain (self s')) (App.vga_gain (self s')) /\
           (ra = Ret tt \/ r = ra))).
Proof.
  assert (quiet_end : forall e (st : App.state),
    App.run_scan s = (Ret None, st) ->
    self st = self s ->
    trace st = (trace s ++ app_scan_events (self s)) ++ e ->
    Forall quiet_event e ->
    exists r s' evs,
      App.wait_stop 10
        {| self := self st; env := env st;
           trace := trace st ++ [Log MsgNoSignal; Log MsgWaiting] |} = (r, s') /\
      trace s' = trace s ++ app_scan_events (self s) ++ evs /\
      App.amp_enabled (self s') = App.amp_enabled (self s) /\
      (Forall quiet_event evs /\
       App.lna_gain (self s') = App.lna_gain (self s) /\
       App.vga_gain (self s') = App.vga_gain (self s))).
  { intros e st _ Hself Htr Hq.
    match goal with |- context [App.wait_stop ?n ?st] =>
      destruct (app_wait_stop_outcome n st)
        as (r & s' & -> & Ht & Hl & Hv & Ha & _) end.
    cbn [self env trace] in *. rewrite Hself in *.
    exists r, s', (e ++ [Log MsgNoSignal; Log MsgWaiting; Wait 10]).
    split; [reflexivity|]. split.
    { rewrite Ht, Htr. norm_trace. reflexivity. }
    split; [exact Ha|]. repeat split; auto.
    apply Forall_app. split; [exact Hq | repeat constructor]. }
  pose proof (app_run_scan s) as Hrs. cbv zeta in Hrs.
  destruct (sweeps (env s)) as [|[|code out err] rest] eqn:Hsw.
  - rewrite (app_cycle_stuck _ _ Hrs).
    exists Stuck. eexists. exists []. split; [reflexivity|].
    cbn [self trace]. rewrite app_nil_r. repeat split. left. auto.
  - rewrite (app_cycle_no_signal _ _ Hrs). rewrite app_wait_stop.
    cbn [self env trace App.set_stop_event App.stop_event].
    eexists. eexists. exists tool_missing_events.
    split; [reflexivity|]. cbn [self env trace]. split.
    { unfold tool_missing_events. norm_trace. reflexivity. }
    split; [reflexivity|]. right. left. repeat split.
  - destruct (negb (code =? 0)).
    { rewrite (app_cycle_no_signal _ _ Hrs).
      destruct (quiet_end [Log (MsgSweepError (strip err))] _
                  Hrs eq_refl eq_refl)
        as (r & s' & evs & Hw & Ht & Ha & Hq); [repeat constructor|].
      exists r, s', evs. repeat split; auto. }
    destruct (App.select_strongest out) as [[sig|]|e|].
    + (* a signal *)
      destruct (kilohertz sig) as [khz|] eqn:Hk.
      2:{ rewrite (app_cycle_overflow _ _ sig Hrs Hk).
          cbn [self env trace].
          exists (Raise OverflowError). eexists.
          exists [Log (MsgStrongest sig); Log (MsgAnalyzing sig)].
          split; [reflexivity|]. cbn [self trace]. split.
          { norm_trace. reflexivity. }
          split; [reflexivity|]. left. repeat split. repeat constructor. }
      destruct (Nat.lt_ge_cases (List.length (replies (env s))) 2) as [Hr|Hr].
      * destruct (app_cycle_unanswered _ _ sig khz Hrs Hk)
          as (w & evs & -> & Hq).
        { exact Hr. }
        cbn [self env trace].
        exists Stuck. eexists. exists (Log (MsgStrongest sig) :: evs).
        split; [reflexivity|]. cbn [self trace]. split.
        { norm_trace. reflexivity. }
        split; [reflexivity|]. left. repeat split. now constructor.
      * destruct (replies (env s)) as [|r1 [|r2 rs]] eqn:Hrp;
          cbn in Hr; try lia.
        destruct (app_cycle_signal _ _ sig khz r1 r2 rs Hrs Hk Hrp)
          as (m & ra & a' & evs & Hm & Hc & Hev & Hg & Ha & Hst).
        cbv zeta in Hc. cbn [self env trace] in *.
        destruct Hc as [[-> Hc]|[-> Hc]]; rewrite Hc.
        -- match goal with |- context [App.wait_stop ?n ?st] =>
             destruct (app_wait_stop_outcome n st)
               as (r & s' & -> & Ht & Hl' & Hv' & Ha' & _) end.
           cbn [self env trace] in *.
           exists r, s'.
           exists ((Log (MsgStrongest sig)
                    :: analysis_events sig khz (App.lna_gain (self s))
                         (App.vga_gain (self s)) r1 r2)
                   ++ record_events sig m
                        (log_entry_of sig m (App.lna_gain (self s))
                           (App.vga_gain (self s)) (App.amp_enabled (self s))
                           (answer r1 analysis_failed)
                           (answer r2 no_suggestions)
                           decoding_placeholder) true
                   ++ evs ++ [Log MsgWaiting; Wait 10]).
           split; [reflexivity|]. split.
           { rewrite Ht. norm_trace. reflexivity. }
           split; [congruence|]. right. right.
           exists sig, m, (answer r1 analysis_failed),
             (answer r2 no_suggestions).
           eexists. eexists. eexists. exists (Ret tt).
           split; [reflexivity|].
           split; [constructor; [exact I | apply analysis_events_quiet]|].
           split; [exact Hev|]. split; [repeat constructor|].
           rewrite Hl', Hv'. split; [assumption | now left].
        -- eexists. eexists.
           exists ((Log (MsgStrongest sig)
                    :: analysis_events sig khz (App.lna_gain (self s))
                         (App.vga_gain (self s)) r1 r2)
                   ++ record_events sig m
                        (log_entry_of sig m (App.lna_gain (self s))
                           (App.vga_gain (self s)) (App.amp_enabled (self s))
                           (answer r1 analysis_failed)
                           (answer r2 no_suggestions)
                           decoding_placeholder) true
                   ++ evs ++ []).
           split; [reflexivity|]. cbn [self env trace]. split.
           { rewrite app_nil_r. norm_trace. reflexivity. }
           split; [congruence|]. right. right.
           exists sig, m, (answer r1 analysis_failed),
             (answer r2 no_suggestions).
           eexists. eexists. eexists. exists (Raise ValueError).
           split; [reflexivity|].
           split; [constructor; [exact I | apply analysis_events_quiet]|].
           split; [exact Hev|]. split; [constructor|].
           split; [assumption | now right].
    + rewrite (app_cycle_no_signal _ _ Hrs).
      destruct (quiet_end [] _ Hrs eq_refl)
        as (r & s' & evs & Hw & Ht & Ha & Hq).
      { cbn [trace]. now rewrite app_nil_r. }
      { constructor. }
      exists r, s', evs. repeat split; auto.
    + destruct (exn_eqb e FileNotFoundError).
      * rewrite (app_cycle_no_signal _ _ Hrs). rewrite app_wait_stop.
        cbn [self env trace App.set_stop_event App.stop_event].
        eexists. eexists. exists tool_missing_events.
        split; [reflexivity|]. cbn [self env trace]. split.
        { unfold tool_missing_events. norm_trace. reflexivity. }
        split; [reflexivity|]. right. left. repeat split.
      * rewrite (app_cycle_raise _ _ _ Hrs).
        exists (Raise e). eexists. exists []. split; [reflexivity|].
        cbn [self trace]. rewrite app_nil_r. repeat split. left. auto.
    + rewrite (app_cycle_stuck _ _ Hrs).
      exists Stuck. eexists. exists []. split; [reflexivity|].
      cbn [self trace]. rewrite app_nil_r. repeat split. left. auto.
Qed.

(** ** One cycle of [rf_analyzer.py] *)

Lemma standalone_run_scan (s : Standalone.state) :
  Standalone.run_scan s =
  let a := self s in
  let tr := trace s ++ standalone_scan_events a in
  match sweeps (env s) with
  | [] => (Stuck, {| self := a; env := env s; trace := tr |})
  | NotFound :: rest =>
      (Ret None, {| self := a; env := with_sweeps (env s) rest;
                    trace := tr ++ [Log MsgToolNotFound; Log MsgInstallHint] |})
  | Exited code out err :: rest =>
      let w := with_sweeps (env s) rest in
      if negb (code =? 0) then
        (Ret None, {| self := a; env := w;
                      trace := tr ++ [Log (MsgSweepError (strip err))] |})
      else
        match Standalone.select_strongest out with
        | Ret (Some sig) =>
            (Ret (Some sig), {| self := a; env := w;
                                trace := tr ++ [Log (MsgStrongest sig)] |})
        | Ret None => (Ret None, {| self := a; env := w; trace := tr |})
        | Raise e =>
            if exn_eqb e FileNotFoundError then
              (Ret None, {| self := a; env := w;
                            trace := tr ++ [Log MsgToolNotFound;
                                            Log MsgInstallHint] |})
            else (Raise e, {| self := a; env := w; trace := tr |})
        | Stuck => (Stuck, {| self := a; env := w; trace := tr |})
        end
  end.
Proof.
  destruct s as [a [sw rp wt] tr]. unfold standalone_scan_events.
  cbn [self env trace sweeps].
  destruct sw as [|[|code out err] rest].
  - run_standalone. norm_trace. reflexivity.
  - run_standalone. norm_trace. reflexivity.
  - unfold Standalone.run_scan. run_standalone.
    destruct (negb (code =? 0)).
    + norm_trace. reflexivity.
    + destruct (Standalone.select_strongest out) as [[sig|]|e|];
        [| |destruct e|]; norm_trace; reflexivity.
Qed.

Lemma standalone_sleep (n : Z) (s : Standalone.state) :
  Standalone.sleep n s =
  let tr := trace s ++ [Wait n] in
  match waits (env s) with
  | [] => (Stuck, {| self := self s; env := env s; trace := tr |})
  | b :: bs =>
      (if b then Raise KeyboardInterrupt else Ret tt,
       {| self := self s; env := with_waits (env s) bs; trace := tr |})
  end.
Proof.
  destruct s as [a [sw rp wt] tr]. cbn [self env trace waits].
  destruct wt as [|[|] bs]; reflexivity.
Qed.

Lemma standalone_sleep_outcome (n : Z) (s : Standalone.state) :
  exists r s',
    Standalone.sleep n s = (r, s') /\
    trace s' = trace s ++ [Wait n] /\ self s' = self s.
Proof.
  rewrite standalone_sleep. cbv zeta.
  destruct (waits (env s)) as [|b bs]; eexists; eexists;
    (split; [reflexivity|]); split; reflexivity.
Qed.

Lemma standalone_decode_signal (sig : signal_data) (m : str)
    (s : Standalone.state) :
  Standalone.decode_signal sig m s =
  (Ret decoding_placeholder,
   {| self := self s; env := env s;
      trace := trace s ++ [Log (MsgDecoding sig m)] |}).
Proof. reflexivity. Qed.

Lemma standalone_log_data (sig : signal_data) (d g dec m : str)
    (s : Standalone.state) :
  Standalone.log_data sig d g dec m s =
  let a := self s in
  let r := log_entry_of sig m (Standalone.lna_gain a) (Standalone.vga_gain a)
             (Standalone.amp_enabled a) d g dec in
  (Ret tt,
   {| self := a; env := env s;
      trace := trace s ++ [WriteRow r; Log (MsgLogged sig)] |}).
Proof.
  destruct s as [a w tr]. run_standalone. norm_trace. reflexivity.
Qed.

Lemma standalone_cycle_signal (s s1 : Standalone.state) (sig : signal_data)
    (khz : float) (r1 r2 : reply) (rs : list reply) :
  Standalone.run_scan s = (Ret (Some sig), s1) ->
  kilohertz sig = Some khz ->
  replies (env s1) = r1 :: r2 :: rs ->
  exists m a' evs,
    let d := answer r1 analysis_failed in
    let g := answer r2 no_suggestions in
    let a := self s1 in
    let r := log_entry_of sig m (Standalone.lna_gain a)
               (Standalone.vga_gain a) (Standalone.amp_enabled a) d g
               decoding_placeholder in
    _extract_modulation d = Ret m /\
    Standalone.cycle s =
      Standalone.sleep 30
        {| self := a'; env := with_replies (env s1) rs;
           trace := trace s1
             ++ analysis_events sig khz (Standalone.lna_gain a)
                  (Standalone.vga_gain a) r1 r2
             ++ record_events sig m r false ++ evs ++ [Log MsgWaiting] |} /\
    Forall adjust_event evs /\
    gain_outcome lna_label 40 g
      (Standalone.lna_gain a) (Standalone.lna_gain a') /\
    gain_outcome vga_label 62 g
      (Standalone.vga_gain a) (Standalone.vga_gain a') /\
    Standalone.amp_enabled a' = Standalone.amp_enabled a.
Proof.
  intros Hscan Hk Hrep.
  destruct (extract_modulation_total (answer r1 analysis_failed)) as [m Hm].
  unfold Standalone.cycle. rewrite (bind_Ret _ _ _ _ _ Hscan). cbv beta iota.
  unfold bind at 1. unfold bind at 1.
  rewrite (standalone_analyze sig khz s1 r1 r2 rs Hk Hrep). cbv beta iota.
  unfold bind at 1, lift at 1. rewrite Hm. cbv beta iota.
  unfold bind at 1. rewrite standalone_decode_signal.
  unfold bind at 1. rewrite standalone_log_data. cbv beta iota zeta.
  cbn [self env trace].
  match goal with
  | |- context [Standalone.adjust_settings ?t ?st] =>
      destruct (standalone_adjust_settings t st)
        as (s' & evs & Hadj & Hl & Hv & Ha & He & Ht & Hev);
      rewrite Hadj
  end.
  cbn [self env trace] in *.
  exists m, (self s'), evs. cbv zeta. split; [reflexivity|]. split.
  - destruct s' as [a' w' tr']. cbn [self env trace] in *. subst w' tr'.
    unfold bind, Standalone.print, emit, modify. cbn [self env trace].
    unfold record_events. norm_trace. reflexivity.
  - auto.
Qed.

Lemma standalone_cycle_overflow (s s1 : Standalone.state)
    (sig : signal_data) :
  Standalone.run_scan s = (Ret (Some sig), s1) ->
  kilohertz sig = None ->
  Standalone.cycle s =
  (Raise OverflowError,
   {| self := self s1; env := env s1;
      trace := trace s1 ++ [Log (MsgAnalyzing sig)] |}).
Proof.
  intros Hscan Hk. unfold Standalone.cycle.
  rewrite (bind_Ret _ _ _ _ _ Hscan). cbv beta iota.
  unfold bind at 1. unfold bind at 1.
  now rewrite (standalone_analyze_overflow sig s1 Hk).
Qed.

Lemma standalone_cycle_no_signal (s s1 : Standalone.state) :
  Standalone.run_scan s = (Ret None, s1) ->
  Standalone.cycle s =
  Standalone.sleep 30
    {| self := self s1; env := env s1;
       trace := trace s1 ++ [Log MsgNoSignal; Log MsgWaiting] |}.
Proof.
  intros H. unfold Standalone.cycle. rewrite (bind_Ret _ _ _ _ _ H).
  destruct s1 as [a w tr]. unfold bind, Standalone.print, emit, modify.
  cbn [self env trace]. norm_trace. reflexivity.
Qed.

Lemma standalone_cycle_raise (s s1 : Standalone.state) (e : exn) :
  Standalone.run_scan s = (Raise e, s1) -> Standalone.cycle s = (Raise e, s1).
Proof.
  intros H. unfold Standalone.cycle. now rewrite (bind_Raise _ _ _ _ _ H).
Qed.

Lemma standalone_cycle_stuck (s s1 : Standalone.state) :
  Standalone.run_scan s = (Stuck, s1) -> Standalone.cycle s = (Stuck, s1).
Proof.
  intros H. unfold Standalone.cycle. now rewrite (bind_Stuck _ _ _ _ H).
Qed.

Lemma standalone_cycle_unanswered (s s1 : Standalone.state)
    (sig : signal_data) (khz : float) :
  Standalone.run_scan s = (Ret (Some sig), s1) ->
  kilohertz sig = Some khz ->
  (List.length (replies (env s1)) < 2)%nat ->
  exists w evs,
    Standalone.cycle s = (Stuck, {| self := self s1; env := w;
                                    trace := trace s1 ++ evs |}) /\
    Forall quiet_event evs.
Proof.
  intros Hscan Hk Hlen. unfold Standalone.cycle.
  rewrite (bind_Ret _ _ _ _ _ Hscan).
  destruct s1 as [a [sw rp wt] tr]. cbn [env replies] in Hlen.
  cbv beta iota. unfold Standalone.analyze_with_ollama. rewrite Hk.
  destruct rp as [|[|x] [|r2 rp]]; cbn in Hlen; try lia;
    eexists; eexists; (split; [run_standalone; norm_trace; reflexivity|]);
    repeat constructor.
Qed.

(** The three courses of a cycle of [rf_analyzer.py]. *)
Lemma standalone_cycle_outcome (s : Standalone.state) :
  exists r s' evs,
    Standalone.cycle s = (r, s') /\
    trace s' = trace s ++ standalone_scan_events (self s) ++ evs /\
    Standalone.amp_enabled (self s') = Standalone.amp_enabled (self s) /\
    ((Forall quiet_event evs /\ self s' = self s)
     \/ (exists tail, evs = Log MsgToolNotFound :: tail /\
                      Forall quiet_event tail /\ self s' = self s)
     \/ (exists sig m d g evs1 evs2 evs3,
           evs = evs1
                 ++ record_events sig m
                      (log_entry_of sig m (Standalone.lna_gain (self s))
                         (Standalone.vga_gain (self s))
                         (Standalone.amp_enabled (self s))
                         d g decoding_placeholder) false
                 ++ evs2 ++ evs3 /\
           Forall quiet_event evs1 /\ Forall adjust_event evs2 /\
           Forall quiet_event evs3 /\
           gain_outcome lna_label 40 g
             (Standalone.lna_gain (self s)) (Standalone.lna_gain (self s')) /\
           gain_outcome vga_label 62 g
             (Standalone.vga_gain (self s)) (Standalone.vga_gain (self s')))).
Proof.
  assert (quiet_end : forall e (st : Standalone.state),
    Standalone.run_scan s = (Ret None, st) ->
    self st = self s ->
    trace st = (trace s ++ standalone_scan_events (self s)) ++ e ->
    exists r s',
      Standalone.sleep 30
        {| self := self st; env := env st;
           trace := trace st ++ [Log MsgNoSignal; Log MsgWaiting] |} = (r, s') /\
      trace s' = trace s ++ standalone_scan_events (self s)
                 ++ e ++ [Log MsgNoSignal; Log MsgWaiting; Wait 30] /\
      self s' = self s).
  { intros e st _ Hself Htr.
    match goal with |- context [Standalone.sleep ?n ?st] =>
      destruct (standalone_sleep_outcome n st) as (r & s' & -> & Ht & Hs) end.
    cbn [self env trace] in *. rewrite Hself in *.
    exists r, s'. split; [reflexivity|]. split; [|exact Hs].
    rewrite Ht, Htr. norm_trace. reflexivity. }
  pose proof (standalone_run_scan s) as Hrs. cbv zeta in Hrs.
  destruct (sweeps (env s)) as [|[|code out err] rest] eqn:Hsw.
  - rewrite (standalone_cycle_stuck _ _ Hrs).
    exists Stuck. eexists. exists []. split; [reflexivity|].
    cbn [self trace]. rewrite app_nil_r. repeat split. left. auto.
  - rewrite (standalone_cycle_no_signal _ _ Hrs).
    destruct (quiet_end [Log MsgToolNotFound; Log MsgInstallHint] _
                Hrs eq_refl eq_refl) as (r & s' & Hw & Ht & Hs).
    exists r, s'. eexists. split; [exact Hw|]. split; [exact Ht|].
    split; [now rewrite Hs|]. right. left. eexists.
    split; [reflexivity|]. split; [repeat constructor | exact Hs].
  - destruct (negb (code =? 0)).
    { rewrite (standalone_cycle_no_signal _ _ Hrs).
      destruct (quiet_end [Log (MsgSweepError (strip err))] _
                  Hrs eq_refl eq_refl) as (r & s' & Hw & Ht & Hs).
      exists r, s'. eexists. split; [exact Hw|]. split; [exact Ht|].
      split; [now rewrite Hs|]. left.
      split; [repeat constructor | exact Hs]. }
    destruct (Standalone.select_strongest out) as [[sig|]|e|].
    + destruct (kilohertz sig) as [khz|] eqn:Hk.
      2:{ rewrite (standalone_cycle_overflow _ _ sig Hrs Hk).
          cbn [self env trace].
          exists (Raise OverflowError). eexists.
          exists [Log (MsgStrongest sig); Log (MsgAnalyzing sig)].
          split; [reflexivity|]. cbn [self trace]. split.
          { norm_trace. reflexivity. }
          split; [reflexivity|]. left.
          split; [repeat constructor | reflexivity]. }
      destruct (Nat.lt_ge_cases (List.length (replies (env s))) 2) as [Hr|Hr].
      * destruct (standalone_cycle_unanswered _ _ sig khz Hrs Hk)
          as (w & evs & -> & Hq).
        { exact Hr. }
        cbn [self env trace].
        exists Stuck. eexists. exists (Log (MsgStrongest sig) :: evs).
        split; [reflexivity|]. cbn [self trace]. split.
        { norm_trace. reflexivity. }
        split; [reflexivity|]. left. split; [now constructor | reflexivity].
      * destruct (replies (env s)) as [|r1 [|r2 rs]] eqn:Hrp;
          cbn in Hr; try lia.
        destruct (standalone_cycle_signal _ _ sig khz r1 r2 rs Hrs Hk Hrp)
          as (m & a' & evs & Hm & Hc & Hev & Hl & Hv & Ha).
        cbv zeta in Hc. cbn [self env trace] in *. rewrite Hc.
        match goal with |- context [Standalone.sleep ?n ?st] =>
          destruct (standalone_sleep_outcome n st)
            as (r & s' & -> & Ht & Hs) end.
        cbn [self env trace] in *.
        exists r, s'.
        exists ((Log (MsgStrongest sig)
                 :: analysis_events sig khz (Standalone.lna_gain (self s))
                      (Standalone.vga_gain (self s)) r1 r2)
                ++ record_events sig m
                     (log_entry_of sig m (Standalone.lna_gain (self s))
                        (Standalone.vga_gain (self s))
                        (Standalone.amp_enabled (self s))
                        (answer r1 analysis_failed) (answer r2 no_suggestions)
                        decoding_placeholder) false
                ++ evs ++ [Log MsgWaiting; Wait 30]).
        split; [reflexivity|]. split.
        { rewrite Ht. norm_trace. reflexivity. }
        split; [now rewrite Hs|]. right. right.
        exists sig, m, (answer r1 analysis_failed),
          (answer r2 no_suggestions).
        eexists. eexists. eexists. split; [reflexivity|].
        split; [constructor; [exact I | apply analysis_events_quiet]|].
        split; [exact Hev|]. split; [repeat constructor|].
        rewrite Hs. split; assumption.
    + rewrite (standalone_cycle_no_signal _ _ Hrs).
      destruct (quiet_end [] _ Hrs eq_refl) as (r & s' & Hw & Ht & Hs).
      { cbn [trace]. now rewrite app_nil_r. }
      exists r, s'. eexists. split; [exact Hw|]. split; [exact Ht|].
      split; [now rewrite Hs|]. left.
      split; [repeat constructor | exact Hs].
    + destruct (exn_eqb e FileNotFoundError).
      * rewrite (standalone_cycle_no_signal _ _ Hrs).
        destruct (quiet_end [Log MsgToolNotFound; Log MsgInstallHint] _
                    Hrs eq_refl eq_refl) as (r & s' & Hw & Ht & Hs).
        exists r, s'. eexists. split; [exact Hw|]. split; [exact Ht|].
        split; [now rewrite Hs|]. right. left. eexists.
        split; [reflexivity|]. split; [repeat constructor | exact Hs].
      * rewrite (standalone_cycle_raise _ _ _ Hrs).
        exists (Raise e). eexists. exists []. split; [reflexivity|].
        cbn [self trace]. rewrite app_nil_r. repeat split. left. auto.
    + rewrite (standalone_cycle_stuck _ _ Hrs).
      exists Stuck. eexists. exists []. split; [reflexivity|].
      cbn [self trace]. rewrite app_nil_r. repeat split. left. auto.
Qed.

(** ** Rows of the log and gains *)

Lemma quiet_no_row (evs : list event) (r : log_record) :
  Forall quiet_event evs -> ~ In (WriteRow r) evs.
Proof.
  intros H Hin. rewrite Forall_forall in H. apply (H _ Hin).
Qed.

Lemma quiet_no_popen (evs : list event) (c : list str) :
  Forall quiet_event evs -> ~ In (Popen c) evs.
Proof.
  intros H Hin. rewrite Forall_forall in H. apply (H _ Hin).
Qed.

Lemma adjust_no_row (evs : list event) (r : log_record) :
  Forall adjust_event evs -> ~ In (WriteRow r) evs.
Proof.
  intros H Hin. rewrite Forall_forall in H. apply (H _ Hin).
Qed.

Lemma adjust_no_popen (evs : list event) (c : list str) :
  Forall adjust_event evs -> ~ In (Popen c) evs.
Proof.
  intros H Hin. rewrite Forall_forall in H. apply (H _ Hin).
Qed.

(** The events of a cycle that writes a row: the row is the one of the
    gains the cycle started with, nothing before it changes a gain, and no
    sweep is among them. *)
Lemma record_cycle_events (sig : signal_data) (m d g : str) (lna vga : Z)
    (amp web : bool) (evs1 evs2 evs3 : list event) :
  Forall quiet_event evs1 -> Forall adjust_event evs2 ->
  Forall quiet_event evs3 ->
  let r0 := log_entry_of sig m lna vga amp d g decoding_placeholder in
  let evs := evs1 ++ record_events sig m r0 web ++ evs2 ++ evs3 in
  (forall c, ~ In (Popen c) evs) /\
  (forall r, In (WriteRow r) evs ->
     r = r0 /\
     exists before after,
       evs = before ++ WriteRow r :: after /\ Forall quiet_event before).
Proof.
  intros H1 H2 H3 r0 evs. subst evs. split.
  - intros c Hin. apply in_app_or in Hin. destruct Hin as [Hin|Hin].
    { now apply (quiet_no_popen _ c H1). }
    apply in_app_or in Hin. destruct Hin as [Hin|Hin].
    { unfold record_events in Hin. destruct web; cbn in Hin;
        repeat (destruct Hin as [Hin|Hin]; [discriminate|]); exact Hin. }
    apply in_app_or in Hin. destruct Hin as [Hin|Hin].
    { now apply (adjust_no_popen _ c H2). }
    now apply (quiet_no_popen _ c H3).
  - intros r Hin. apply in_app_or in Hin. destruct Hin as [Hin|Hin].
    { now apply (quiet_no_row _ r H1) in Hin. }
    apply in_app_or in Hin. destruct Hin as [Hin|Hin].
    + assert (E : r = r0).
      { unfold record_events in Hin. destruct web; cbn in Hin;
          repeat (destruct Hin as [Hin|Hin];
                  [first [discriminate | now injection Hin]|]);
          contradiction. }
      split; [exact E|]. subst r.
      exists (evs1 ++ [Log (MsgDecoding sig m)]).
      exists (Log (MsgLogged sig)
              :: (if web then [EmitNewSignal r0] else []) ++ evs2 ++ evs3).
      split.
      * unfold record_events. repeat rewrite <- app_assoc. reflexivity.
      * apply Forall_app. split; [exact H1 | repeat constructor].
    + apply in_app_or in Hin. destruct Hin as [Hin|Hin].
      { now apply (adjust_no_row _ r H2) in Hin. }
      now apply (quiet_no_row _ r H3) in Hin.
Qed.

(** C10. In a cycle, the sweep is started with the gains of the
    configuration the cycle begins with, and is the only sweep of the
    cycle; a row written to the log in that cycle carries those gains and
    nothing before it in the cycle changes a gain; the configuration the
    cycle leaves, the one the next cycle begins with, has the gains that
    the suggestions of the row name, clamped, where they name one by
    digits that [int()] reads. Where they name one by more digits, the
    cycle of [app.py] ends with the [ValueError] and that of
    [rf_analyzer.py] leaves the gain. In both programs. *)
Theorem C10_record_carries_sweep_gains :
  (forall s : App.state,
     exists r s' evs,
       App.cycle s = (r, s') /\
       trace s' = trace s ++ app_scan_events (self s) ++ evs /\
       (forall c, ~ In (Popen c) evs) /\
       (forall row, In (WriteRow row) evs ->
          rec_lna_gain row = App.lna_gain (self s) /\
          rec_vga_gain row = App.vga_gain (self s) /\
          (exists before after,
             evs = before ++ WriteRow row :: after /\
             Forall quiet_event before) /\
          ((gain_update lna_label 40 (rec_suggestions row)
              (App.lna_gain (self s)) (App.lna_gain (self s')) /\
            gain_update vga_label 62 (rec_suggestions row)
              (App.vga_gain (self s)) (App.vga_gain (self s')))
           \/ (r = Raise ValueError /\
               (oversized lna_label (rec_suggestions row)
                \/ oversized vga_label (rec_suggestions row)))))) /\
  (forall s : Standalone.state,
     exists r s' evs,
       Standalone.cycle s = (r, s') /\
       trace s' = trace s ++ standalone_scan_events (self s) ++ evs /\
       (forall c, ~ In (Popen c) evs) /\
       (forall row, In (WriteRow row) evs ->
          rec_lna_gain row = Standalone.lna_gain (self s) /\
          rec_vga_gain row = Standalone.vga_gain (self s) /\
          (exists before after,
             evs = before ++ WriteRow row :: after /\
             Forall quiet_event before) /\
          gain_outcome lna_label 40 (rec_suggestions row)
            (Standalone.lna_gain (self s)) (Standalone.lna_gain (self s')) /\
          gain_outcome vga_label 62 (rec_suggestions row)
            (Standalone.vga_gain (self s)) (Standalone.vga_gain (self s')))).
Proof.
  split; intros s.
  - destruct (app_cycle_outcome s) as (r & s' & evs & Hc & Ht & _ & Hshape).
    exists r, s', evs. split; [exact Hc|]. split; [exact Ht|].
    destruct Hshape as [(Hq & _)|[(-> & _)|Hrec]].
    + split; [intros c; now apply quiet_no_popen|].
      intros row Hin. now apply (quiet_no_row _ row Hq) in Hin.
    + split; intros x Hin; cbn in Hin;
        repeat (destruct Hin as [Hin|Hin]; [discriminate|]); contradiction.
    + destruct Hrec as (sig & m & d & g & evs1 & evs2 & evs3 & ra & -> & H1
                        & H2 & H3 & Hg & Hra).
      destruct (record_cycle_events sig m d g (App.lna_gain (self s))
                  (App.vga_gain (self s)) (App.amp_enabled (self s)) true
                  _ _ _ H1 H2 H3) as [Hp Hr].
      split; [exact Hp|]. intros row Hin.
      destruct (Hr row Hin) as (-> & Hsplit). cbn.
      split; [reflexivity|]. split; [reflexivity|]. split; [exact Hsplit|].
      destruct Hg as [(_ & Hl & Hv)|[(-> & Ho & _)|(-> & _ & Ho & _)]].
      * left. auto.
      * right. destruct Hra as [Hra| ->]; [discriminate | auto].
      * right. destruct Hra as [Hra| ->]; [discriminate | auto].
  - destruct (standalone_cycle_outcome s)
      as (r & s' & evs & Hc & Ht & _ & Hshape).
    exists r, s', evs. split; [exact Hc|]. split; [exact Ht|].
    destruct Hshape as [(Hq & _)|[(tail & -> & Hq & _)|Hrec]].
    + split; [intros c; now apply quiet_no_popen|].
      intros row Hin. now apply (quiet_no_row _ row Hq) in Hin.
    + split; intros x [Hin|Hin]; try discriminate.
      * now apply (quiet_no_popen _ x Hq).
      * now apply (quiet_no_row _ x Hq) in Hin.
    + destruct Hrec as (sig & m & d & g & evs1 & evs2 & evs3 & -> & H1 & H2
                        & H3 & Hl & Hv).
      destruct (record_cycle_events sig m d g (Standalone.lna_gain (self s))
                  (Standalone.vga_gain (self s))
                  (Standalone.amp_enabled (self s)) false
                  _ _ _ H1 H2 H3) as [Hp Hr].
      split; [exact Hp|]. intros row Hin.
      destruct (Hr row Hin) as (-> & Hsplit). cbn. repeat split; auto.
Qed.

(** ** The loop of [app.py] and the missing tool *)

Lemma app_loop_eq (fuel : nat) (s : App.state) :
  App.loop fuel s =
  if App.stop_event (self s) then (Ret tt, s)
  else match fuel with
       | O => (Stuck, s)
       | S fuel' =>
           match App.cycle s with
           | (Ret _, s1) => App.loop fuel' s1
           | (Raise e, s1) => (Raise e, s1)
           | (Stuck, s1) => (Stuck, s1)
           end
       end.
Proof.
  destruct fuel; cbn [App.loop]; unfold bind, get_self, ret, stuck;
    destruct (App.stop_event (self s)); reflexivity.
Qed.

Lemma scan_events_no_report (a : App.RFAnalyzer) :
  ~ In (Log MsgToolNotFound) (app_scan_events a).
Proof. intros [H|[H|[]]]; discriminate. Qed.

Lemma quiet_no_report (evs : list event) :
  Forall quiet_event evs -> ~ In (Log MsgToolNotFound) evs.
Proof.
  intros H Hin. rewrite Forall_forall in H. apply (H _ Hin).
Qed.

Lemma adjust_no_report (evs : list event) :
  Forall adjust_event evs -> ~ In (Log MsgToolNotFound) evs.
Proof.
  intros H Hin. rewrite Forall_forall in H. apply (H _ Hin).
Qed.

(** A cycle of [app.py] either does not report a missing tool, or reports
    it once, does nothing more than wait, and leaves the stop request
    set. *)
Lemma app_cycle_report (s : App.state) :
  exists r s' evs,
    App.cycle s = (r, s') /\ trace s' = trace s ++ evs /\
    (~ In (Log MsgToolNotFound) evs
     \/ (evs = app_scan_events (self s) ++ tool_missing_events /\
         r = Ret tt /\ App.stop_event (self s') = true)).
Proof.
  destruct (app_cycle_outcome s) as (r & s' & evs & Hc & Ht & _ & Hshape).
  exists r, s', (app_scan_events (self s) ++ evs).
  split; [exact Hc|]. split; [exact Ht|].
  destruct Hshape as [(Hq & _)|[(-> & -> & Hs & _)|Hrec]].
  - left. intros Hin. apply in_app_or in Hin. destruct Hin as [Hin|Hin].
    + now apply scan_events_no_report in Hin.
    + now apply quiet_no_report in Hin.
  - right. auto.
  - left. destruct Hrec as (sig & m & d & g & evs1 & evs2 & evs3 & ra & ->
                            & H1 & H2 & H3 & _).
    intros Hin. apply in_app_or in Hin. destruct Hin as [Hin|Hin].
    { now apply scan_events_no_report in Hin. }
    apply in_app_or in Hin. destruct Hin as [Hin|Hin].
    { now apply quiet_no_report in Hin. }
    apply in_app_or in Hin. destruct Hin as [Hin|Hin].
    { unfold record_events in Hin. cbn in Hin.
      repeat (destruct Hin as [Hin|Hin]; [discriminate|]). exact Hin. }
    apply in_app_or in Hin. destruct Hin as [Hin|Hin].
    { now apply adjust_no_report in Hin. }
    now apply quiet_no_report in Hin.
Qed.

(** The same of the whole loop: the report of a missing tool, if there is
    one, is the only one, and what follows it is the end of the loop. *)
Lemma app_loop_report (fuel : nat) (s : App.state) :
  exists r s' evs,
    App.loop fuel s = (r, s') /\ trace s' = trace s ++ evs /\
    (~ In (Log MsgToolNotFound) evs
     \/ (exists pre a,
           evs = pre ++ app_scan_events a ++ tool_missing_events /\
           ~ In (Log MsgToolNotFound) pre /\
           r = Ret tt /\ App.stop_event (self s') = true)).
Proof.
  revert s. induction fuel as [|fuel IH]; intros s; rewrite app_loop_eq.
  - exists (if App.stop_event (self s) then Ret tt else Stuck), s, [].
    split; [now destruct (App.stop_event (self s))|].
    split; [now rewrite app_nil_r | left; intros []].
  - destruct (App.stop_event (self s)) eqn:St.
    { exists (Ret tt), s, []. split; [reflexivity|].
      split; [now rewrite app_nil_r | left; intros []]. }
    destruct (app_cycle_report s) as (rc & s1 & evs1 & Hc & Ht1 & Hcase).
    rewrite Hc. destruct Hcase as [Hno|(-> & -> & Hstop)].
    + destruct rc as [[]|e|].
      * destruct (IH s1) as (r & s' & evs & Hl & Ht & Hcase).
        exists r, s', (evs1 ++ evs). split; [exact Hl|].
        split; [rewrite Ht, Ht1; now rewrite app_assoc|].
        destruct Hcase as [Hno'|(pre & a & -> & Hpre & Hr & Hs)].
        -- left. intros Hin. apply in_app_or in Hin. tauto.
        -- right. exists (evs1 ++ pre), a. rewrite app_assoc.
           repeat split; auto.
           intros Hin. apply in_app_or in Hin. tauto.
      * exists (Raise e), s1, evs1. auto.
      * exists Stuck, s1, evs1. auto.
    + rewrite app_loop_eq, Hstop.
      exists (Ret tt), s1, (app_scan_events (self s) ++ tool_missing_events).
      split; [reflexivity|]. split; [exact Ht1|]. right.
      exists [], (self s). repeat split; auto.
Qed.

Lemma tool_missing_no_sweep (c : list str) :
  ~ In (Popen c) tool_missing_events.
Proof. intros H. cbn in H. repeat (destruct H as [H|H]; [discriminate|]). exact H. Qed.

(** C3, as amended. In [app.py]: when the sweep tool is missing, the loop
    reports it, sets the stop request and ends with the wait of that
    cycle, which returns at once; the rest of the script of sweeps is left
    untouched, whatever it holds. In every run of the loop, a report of a
    missing tool is the only one, and it is followed by the end of that
    cycle and no sweep. [rf_analyzer.py] has no stop request: it reports
    the missing tool and goes on to the next cycle. *)
Theorem C3_missing_tool_stops_app_loop :
  (forall (fuel : nat) (s : App.state) (rest : list popen_result),
     App.stop_event (self s) = false ->
     sweeps (env s) = NotFound :: rest ->
     exists s',
       App.loop (S fuel) s = (Ret tt, s') /\
       trace s' = trace s ++ app_scan_events (self s) ++ tool_missing_events /\
       sweeps (env s') = rest /\ App.stop_event (self s') = true) /\
  (forall (fuel : nat) (s : App.state),
     exists r s' evs,
       App.loop fuel s = (r, s') /\ trace s' = trace s ++ evs /\
       forall pre post,
         evs = pre ++ Log MsgToolNotFound :: post ->
         r = Ret tt /\ App.stop_event (self s') = true /\
         ~ In (Log MsgToolNotFound) pre /\
         post = [Log MsgNoSignal; Log MsgWaiting; Wait 10]) /\
  (forall c, ~ In (Popen c) tool_missing_events) /\
  (forall (s : Standalone.state) (rest : list popen_result),
     sweeps (env s) = NotFound :: rest ->
     exists w,
       Standalone.run_scan s =
       (Ret None,
        {| self := self s; env := w;
           trace := trace s ++ standalone_scan_events (self s)
                    ++ [Log MsgToolNotFound; Log MsgInstallHint] |}) /\
       sweeps w = rest).
Proof.
  split; [|split; [|split]].
  - intros fuel s rest Hstop Hsw.
    pose proof (app_run_scan s) as Hrs. rewrite Hsw in Hrs. cbv zeta in Hrs.
    rewrite app_loop_eq, Hstop, (app_cycle_no_signal _ _ Hrs), app_wait_stop.
    cbn [self env trace App.set_stop_event App.stop_event].
    rewrite app_loop_eq. cbn [self App.stop_event].
    eexists. split; [reflexivity|]. cbn [self env trace]. repeat split.
    unfold tool_missing_events. norm_trace. reflexivity.
  - intros fuel s.
    destruct (app_loop_report fuel s) as (r & s' & evs & Hl & Ht & Hcase).
    exists r, s', evs. split; [exact Hl|]. split; [exact Ht|].
    intros pre post E.
    destruct Hcase as [Hno|(pre0 & a & -> & Hpre & Hr & Hs)].
    + exfalso. apply Hno. rewrite E. apply in_or_app. right. now left.
    + assert (Hsplit : pre0 ++ app_scan_events a ++ tool_missing_events
                       = (pre0 ++ app_scan_events a)
                         ++ Log MsgToolNotFound
                            :: [Log MsgNoSignal; Log MsgWaiting; Wait 10])
        by (unfold tool_missing_events; now rewrite <- app_assoc).
      rewrite Hsplit in E.
      assert (Hpre' : ~ In (Log MsgToolNotFound) (pre0 ++ app_scan_events a)).
      { intros Hin. apply in_app_or in Hin. destruct Hin as [Hin|Hin];
          [tauto | now apply scan_events_no_report in Hin]. }
      assert (Hpost : ~ In (Log MsgToolNotFound)
                        [Log MsgNoSignal; Log MsgWaiting; Wait 10]).
      { intros Hin. cbn in Hin.
        repeat (destruct Hin as [Hin|Hin]; [discriminate|]). exact Hin. }
      clear Hsplit.
      assert (Huniq : forall (l1 l2 r1 r2 : list event) x,
                 ~ In x l1 -> ~ In x r1 ->
                 l1 ++ x :: r1 = l2 ++ x :: r2 -> l1 = l2 /\ r1 = r2).
      { clear. intros l1. induction l1 as [|y l1 IH]; intros l2 r1 r2 x H1 Hr E.
        - destruct l2 as [|z l2]; [now injection E|].
          injection E as <- E. exfalso. apply Hr. rewrite E.
          apply in_or_app. right. now left.
        - destruct l2 as [|z l2].
          + injection E as -> _. exfalso. apply H1. now left.
          + injection E as <- E.
            destruct (IH l2 r1 r2 x) as [-> ->]; auto.
            intros Hin. apply H1. now right. }
      destruct (Huniq _ _ _ _ _ Hpre' Hpost E) as [<- <-]. auto.
  - apply tool_missing_no_sweep.
  - intros s rest Hsw. pose proof (standalone_run_scan s) as Hrs.
    rewrite Hsw in Hrs. cbv zeta in Hrs. eexists. split.
    + rewrite Hrs. rewrite <- app_assoc. reflexivity.
    + reflexivity.
Qed.

Lemma C3_missing_tool_stops_app_loop_witness :
  exists s',
    App.loop 6 (App.boot tool_missing_world) = (Ret tt, s') /\
    trace s' = app_scan_events App.init ++ tool_missing_events /\
    sweeps (env s') = [NotFound] /\ App.stop_event (self s') = true.
Proof.
  destruct C3_missing_tool_stops_app_loop as [H _].
  destruct (H 5%nat (App.boot tool_missing_world) [NotFound] eq_refl eq_refl)
    as (s' & Hl & Ht & Hs & Hst).
  exists s'. repeat split; assumption.
Defined.

(** C3 as stated fails for [rf_analyzer.py]: with the tool missing, two
    cycles of its loop report it twice and start the sweep twice, and the
    loop is still running when the script ends. *)
Lemma C3_counterexample :
  let cycle_events :=
    standalone_scan_events Standalone.init
    ++ [Log MsgToolNotFound; Log MsgInstallHint; Log MsgNoSignal;
        Log MsgWaiting; Wait 30] in
  let '(r, s') := Standalone.start 2 (Standalone.boot tool_missing_world) in
  r = Stuck /\
  trace s' = [Log MsgStarted] ++ cycle_events ++ cycle_events /\
  sweeps (env s') = [].
Proof. vm_compute. repeat split. Qed.

(** ** The command of the sweep *)

Lemma app_run_scan_events (s : App.state) :
  exists r s' evs,
    App.run_scan s = (r, s') /\
    trace s' = trace s ++ app_scan_events (self s) ++ evs /\
    forall c, ~ In (Popen c) evs.
Proof.
  pose proof (app_run_scan s) as H. cbv zeta in H.
  destruct (sweeps (env s)) as [|[|code out err] rest].
  - scan_case H (@nil event).
  - scan_case H [Log MsgToolNotFound].
  - destruct (negb (code =? 0)).
    { scan_case H [Log (MsgSweepError (strip err))]. }
    destruct (App.select_strongest out) as [[sig|]|e|].
    + scan_case H [Log (MsgStrongest sig)].
    + scan_case H (@nil event).
    + destruct (exn_eqb e FileNotFoundError).
      * scan_case H [Log MsgToolNotFound].
      * scan_case H (@nil event).
    + scan_case H (@nil event).
Qed.

Lemma standalone_run_scan_events (s : Standalone.state) :
  exists r s' evs,
    Standalone.run_scan s = (r, s') /\
    trace s' = trace s ++ standalone_scan_events (self s) ++ evs /\
    forall c, ~ In (Popen c) evs.
Proof.
  pose proof (standalone_run_scan s) as H. cbv zeta in H.
  destruct (sweeps (env s)) as [|[|code out err] rest].
  - scan_case H (@nil event).
  - scan_case H [Log MsgToolNotFound; Log MsgInstallHint].
  - destruct (negb (code =? 0)).
    { scan_case H [Log (MsgSweepError (strip err))]. }
    destruct (Standalone.select_strongest out) as [[sig|]|e|].
    + scan_case H [Log (MsgStrongest sig)].
    + scan_case H (@nil event).
    + destruct (exn_eqb e FileNotFoundError).
      * scan_case H [Log MsgToolNotFound; Log MsgInstallHint].
      * scan_case H (@nil event).
    + scan_case H (@nil event).
Qed.

(** C6, as amended. [app.py] starts the sweep with exactly the frequency
    range as [low:high], the LNA gain, the VGA gain, the bin width and the
    sample count, and the amplifier flag at the end when and only when the
    amplifier is enabled. [rf_analyzer.py] starts it with the same
    arguments but the sample count, which it does not pass. Each run of
    [run_scan] starts that command once, with the gains of the
    configuration it is given. *)
Theorem C6_sweep_command :
  (forall a : App.RFAnalyzer,
     App.sweep_command a =
     [lit "hackrf_sweep"; lit "-f"; lit "100:400";
      lit "-l"; str_of_int (App.lna_gain a);
      lit "-g"; str_of_int (App.vga_gain a);
      lit "-w"; lit "100000"; lit "-n"; lit "131072"]
     ++ (if App.amp_enabled a then [lit "-a"] else [])) /\
  (forall a : Standalone.RFAnalyzer,
     Standalone.sweep_command a =
     [lit "hackrf_sweep"; lit "-f"; lit "100:400";
      lit "-l"; str_of_int (Standalone.lna_gain a);
      lit "-g"; str_of_int (Standalone.vga_gain a);
      lit "-w"; lit "100000"]
     ++ (if Standalone.amp_enabled a then [lit "-a"] else [])) /\
  (forall s : App.state,
     exists r s' evs,
       App.run_scan s = (r, s') /\
       trace s' = trace s
                  ++ [Log (MsgScanning (App.lna_gain (self s))
                             (App.vga_gain (self s))
                             (App.amp_enabled (self s)));
                      Popen (App.sweep_command (self s))] ++ evs /\
       forall c, ~ In (Popen c) evs) /\
  (forall s : Standalone.state,
     exists r s' evs,
       Standalone.run_scan s = (r, s') /\
       trace s' = trace s
                  ++ [Log (MsgScanning (Standalone.lna_gain (self s))
                             (Standalone.vga_gain (self s))
                             (Standalone.amp_enabled (self s)));
                      Popen (Standalone.sweep_command (self s))] ++ evs /\
       forall c, ~ In (Popen c) evs).
Proof.
  split; [|split; [|split]].
  - intros a. reflexivity.
  - intros a. reflexivity.
  - apply app_run_scan_events.
  - apply standalone_run_scan_events.
Qed.

(** C6 as stated fails for [rf_analyzer.py]: its command has neither the
    option of the sample count nor the count. *)
Lemma C6_counterexample :
  Standalone.sweep_command Standalone.init =
    map lit ["hackrf_sweep"; "-f"; "100:400"; "-l"; "16"; "-g"; "20";
             "-w"; "100000"]%string /\
  ~ In (lit "-n") (Standalone.sweep_command Standalone.init) /\
  ~ In (str_of_int SCAN_NUM_SAMPLES) (Standalone.sweep_command Standalone.init) /\
  In (lit "-n") (App.sweep_command App.init).
Proof.
  split; [reflexivity|]. split; [|split].
  - intros H. vm_compute in H.
    repeat (destruct H as [H|H]; [discriminate|]). exact H.
  - intros H. vm_compute in H.
    repeat (destruct H as [H|H]; [discriminate|]). exact H.
  - vm_compute. tauto.
Qed.

(** ** A failed request and the cycle *)






Lemma C10_record_carries_sweep_gains_witness :
  let s := App.boot {| sweeps := [Exited 0 sample_sweep []];
                       replies := [Failed; Body (Some sample_suggestion)];
                       waits := [false] |} in
  exists r s' row,
    App.cycle s = (r, s') /\ In (WriteRow row) (trace s') /\
    rec_lna_gain row = 16 /\ rec_vga_gain row = 20 /\
    gain_update lna_label 40 (rec_suggestions row) 16 (App.lna_gain (self s')).
Proof.
  intros s.
  destruct C10_record_carries_sweep_gains as [H _].
  destruct (H s) as (r & s' & evs & Hc & Ht & _ & Hrow).
  pose (row := log_entry_of sample_observation (lit "Unknown") 16 20 false
                 analysis_failed sample_suggestion decoding_placeholder).
  assert (Hr : fst (App.cycle s) = Ret tt) by (vm_compute; reflexivity).
  assert (Hin : In (WriteRow row) evs).
  { assert (E : trace (snd (App.cycle s)) =
                trace s ++ app_scan_events (self s)
                ++ [Log (MsgStrongest sample_observation);
                    Log (MsgAnalyzing sample_observation);
                    Post (DescPrompt sample_observation sample_kilohertz);
                    Log MsgOllamaError;
                    Post (SuggPrompt sample_observation 16 20);
                    Log (MsgDescription analysis_failed);
                    Log (MsgSuggestions sample_suggestion);
                    Log (MsgDecoding sample_observation (lit "Unknown"));
                    WriteRow row; Log (MsgLogged sample_observation);
                    EmitNewSignal row; Log (MsgAdjustedLna 40);
                    Log MsgWaiting; Wait 10])
      by (vm_compute; reflexivity).
    rewrite Hc in E. cbn [snd] in E. rewrite Ht in E.
    apply app_inv_head in E. apply app_inv_head in E. subst evs.
    cbn. tauto. }
  rewrite Hc in Hr. cbn [fst] in Hr.
  destruct (Hrow row Hin) as (Hl & Hv & _ & [[Hg _]|[Hraise _]]).
  - exists r, s', row. split; [exact Hc|]. split.
    + rewrite Ht. apply in_or_app. right. apply in_or_app. now right.
    + split; [exact Hl|]. split; [exact Hv|]. exact Hg.
  - rewrite Hr in Hraise. discriminate Hraise.
Defined.

(** * Further properties of the two programs *)

(** ** The loops, cycle by cycle *)

Lemma app_start_eq (fuel : nat) (s : App.state) :
  App.start_analysis_loop fuel s =
  match App.loop fuel {| self := self s; env := env s;
                         trace := trace s ++ [Log MsgStarted] |} with
  | (Ret _, s1) => (Ret tt, {| self := self s1; env := env s1;
                               trace := trace s1 ++ [Log MsgStopped] |})
  | (Raise e, s1) => (Raise e, s1)
  | (Stuck, s1) => (Stuck, s1)
  end.
Proof.
  unfold App.start_analysis_loop, App._emit_log, emit, modify.
  unfold bind at 1. cbv beta iota. unfold bind at 1.
  destruct (App.loop fuel _) as [[[]|e|] s1]; reflexivity.
Qed.

Lemma standalone_loop_eq (fuel : nat) (s : Standalone.state) :
  Standalone.loop fuel s =
  match fuel with
  | O => (Stuck, s)
  | S fuel' =>
      match Standalone.cycle s with
      | (Ret _, s1) => Standalone.loop fuel' s1
      | (Raise e, s1) => (Raise e, s1)
      | (Stuck, s1) => (Stuck, s1)
      end
  end.
Proof. destruct fuel; reflexivity. Qed.

Lemma standalone_start_eq (fuel : nat) (s : Standalone.state) :
  Standalone.start fuel s =
  match Standalone.loop fuel {| self := self s; env := env s;
                                trace := trace s ++ [Log MsgStarted] |} with
  | (Ret _, s1) => (Ret tt, s1)
  | (Raise e, s1) =>
      if exn_eqb e KeyboardInterrupt
      then (Ret tt, {| self := self s1; env := env s1;
                       trace := trace s1 ++ [Log MsgStopped] |})
      else (Raise e, s1)
  | (Stuck, s1) => (Stuck, s1)
  end.
Proof.
  unfold Standalone.start, Standalone.print, emit, modify.
  unfold bind at 1. cbv beta iota. unfold try_except.
  destruct (Standalone.loop fuel _) as [[[]|e|] s1]; try reflexivity.
  unfold any_of. cbn [existsb]. rewrite orb_false_r.
  destruct (exn_eqb e KeyboardInterrupt); reflexivity.
Qed.

(** What holds of the configuration before a cycle and of the events of
    a cycle holds of the loop. *)
Lemma app_loop_forall (I : App.RFAnalyzer -> Prop) (P : event -> Prop) :
  (forall s, I (self s) ->
     exists r s' evs,
       App.cycle s = (r, s') /\ trace s' = trace s ++ evs /\
       Forall P evs /\ I (self s')) ->
  forall fuel s, I (self s) ->
    exists r s' evs,
      App.loop fuel s = (r, s') /\ trace s' = trace s ++ evs /\
      Forall P evs /\ I (self s').
Proof.
  intros Hcycle fuel. induction fuel as [|fuel IH]; intros s Hs;
    rewrite app_loop_eq.
  - exists (if App.stop_event (self s) then Ret tt else Stuck), s, [].
    split; [now destruct (App.stop_event (self s))|].
    split; [now rewrite app_nil_r|]. split; [constructor | exact Hs].
  - destruct (App.stop_event (self s)).
    { exists (Ret tt), s, []. split; [reflexivity|].
      split; [now rewrite app_nil_r|]. split; [constructor | exact Hs]. }
    destruct (Hcycle s Hs) as (rc & s1 & evs1 & Hc & Ht1 & HP1 & Hs1).
    rewrite Hc. destruct rc as [[]|e|].
    + destruct (IH s1 Hs1) as (r & s' & evs & Hl & Ht & HP & Hs').
      exists r, s', (evs1 ++ evs). split; [exact Hl|].
      split; [rewrite Ht, Ht1; now rewrite app_assoc|].
      split; [apply Forall_app; now split | exact Hs'].
    + exists (Raise e), s1, evs1. auto.
    + exists Stuck, s1, evs1. auto.
Qed.

Lemma standalone_loop_forall (I : Standalone.RFAnalyzer -> Prop)
    (P : event -> Prop) :
  (forall s, I (self s) ->
     exists r s' evs,
       Standalone.cycle s = (r, s') /\ trace s' = trace s ++ evs /\
       Forall P evs /\ I (self s')) ->
  forall fuel s, I (self s) ->
    exists r s' evs,
      Standalone.loop fuel s = (r, s') /\ trace s' = trace s ++ evs /\
      Forall P evs /\ I (self s').
Proof.
  intros Hcycle fuel. induction fuel as [|fuel IH]; intros s Hs;
    rewrite standalone_loop_eq.
  - exists Stuck, s, []. split; [reflexivity|].
    split; [now rewrite app_nil_r|]. split; [constructor | exact Hs].
  - destruct (Hcycle s Hs) as (rc & s1 & evs1 & Hc & Ht1 & HP1 & Hs1).
    rewrite Hc. destruct rc as [[]|e|].
    + destruct (IH s1 Hs1) as (r & s' & evs & Hl & Ht & HP & Hs').
      exists r, s', (evs1 ++ evs). split; [exact Hl|].
      split; [rewrite Ht, Ht1; now rewrite app_assoc|].
      split; [apply Forall_app; now split | exact Hs'].
    + exists (Raise e), s1, evs1. auto.
    + exists Stuck, s1, evs1. auto.
Qed.

(** The same of the two programs from their start to their end, the
    events being those of the cycles and status lines. *)
Lemma app_start_forall (I : App.RFAnalyzer -> Prop) (P : event -> Prop) :
  (forall s, I (self s) ->
     exists r s' evs,
       App.cycle s = (r, s') /\ trace s' = trace s ++ evs /\
       Forall P evs /\ I (self s')) ->
  (forall m, P (Log m)) ->
  forall fuel s, I (self s) ->
    exists r s' evs,
      App.start_analysis_loop fuel s = (r, s') /\
      trace s' = trace s ++ evs /\ Forall P evs /\ I (self s').
Proof.
  intros Hcycle Hlog fuel s Hs. rewrite app_start_eq.
  destruct (app_loop_forall I P Hcycle fuel
              {| self := self s; env := env s;
                 trace := trace s ++ [Log MsgStarted] |} Hs)
    as (r & s1 & evs & -> & Ht & HP & Hs1).
  cbn [trace] in Ht. destruct r as [[]|e|].
  - eexists. eexists. exists (Log MsgStarted :: evs ++ [Log MsgStopped]).
    split; [reflexivity|]. cbn [self trace]. rewrite Ht.
    split; [now rewrite <- !app_assoc|]. split; [|exact Hs1].
    constructor; [apply Hlog|]. apply Forall_app. split; [exact HP|].
    constructor; [apply Hlog | constructor].
  - exists (Raise e), s1, (Log MsgStarted :: evs). split; [reflexivity|].
    rewrite Ht. split; [now rewrite <- app_assoc|].
    split; [constructor; [apply Hlog | exact HP] | exact Hs1].
  - exists Stuck, s1, (Log MsgStarted :: evs). split; [reflexivity|].
    rewrite Ht. split; [now rewrite <- app_assoc|].
    split; [constructor; [apply Hlog | exact HP] | exact Hs1].
Qed.

Lemma standalone_start_forall (I : Standalone.RFAnalyzer -> Prop)
    (P : event -> Prop) :
  (forall s, I (self s) ->
     exists r s' evs,
       Standalone.cycle s = (r, s') /\ trace s' = trace s ++ evs /\
       Forall P evs /\ I (self s')) ->
  (forall m, P (Log m)) ->
  forall fuel s, I (self s) ->
    exists r s' evs,
      Standalone.start fuel s = (r, s') /\
      trace s' = trace s ++ evs /\ Forall P evs /\ I (self s').
Proof.
  intros Hcycle Hlog fuel s Hs. rewrite standalone_start_eq.
  destruct (standalone_loop_forall I P Hcycle fuel
              {| self := self s; env := env s;
                 trace := trace s ++ [Log MsgStarted] |} Hs)
    as (r & s1 & evs & -> & Ht & HP & Hs1).
  cbn [trace] in Ht. destruct r as [[]|e|].
  - exists (Ret tt), s1, (Log MsgStarted :: evs). split; [reflexivity|].
    rewrite Ht. split; [now rewrite <- app_assoc|].
    split; [constructor; [apply Hlog | exact HP] | exact Hs1].
  - destruct (exn_eqb e KeyboardInterrupt).
    + eexists. eexists. exists (Log MsgStarted :: evs ++ [Log MsgStopped]).
      split; [reflexivity|]. cbn [self trace]. rewrite Ht.
      split; [now rewrite <- !app_assoc|]. split; [|exact Hs1].
      constructor; [apply Hlog|]. apply Forall_app. split; [exact HP|].
      constructor; [apply Hlog | constructor].
    + exists (Raise e), s1, (Log MsgStarted :: evs). split; [reflexivity|].
      rewrite Ht. split; [now rewrite <- app_assoc|].
      split; [constructor; [apply Hlog | exact HP] | exact Hs1].
  - exists Stuck, s1, (Log MsgStarted :: evs). split; [reflexivity|].
    rewrite Ht. split; [now rewrite <- app_assoc|].
    split; [constructor; [apply Hlog | exact HP] | exact Hs1].
Qed.

(** ** A cycle that writes a row, in full *)

Lemma quiet_plain (evs : list event) :
  Forall quiet_event evs -> Forall plain_event evs.
Proof.
  intros H. rewrite Forall_forall in *. intros e He. specialize (H e He).
  destruct e; try exact I; exact H.
Qed.

Lemma adjust_plain (evs : list event) :
  Forall adjust_event evs -> Forall plain_event evs.
Proof.
  intros H. rewrite Forall_forall in *. intros e He. specialize (H e He).
  destruct e; try exact I; exact H.
Qed.

(** What [run_scan] of [app.py] leaves: status lines after the start of
    the sweep, the configuration but for the stop request, and one line
    for the signal it returns. *)
Lemma app_run_scan_result (s : App.state) :
  exists r s' evs,
    App.run_scan s = (r, s') /\
    trace s' = trace s ++ app_scan_events (self s) ++ evs /\
    Forall plain_event evs /\
    App.lna_gain (self s') = App.lna_gain (self s) /\
    App.vga_gain (self s') = App.vga_gain (self s) /\
    App.amp_enabled (self s') = App.amp_enabled (self s) /\
    (forall sig, r = Ret (Some sig) ->
       self s' = self s /\ evs = [Log (MsgStrongest sig)]).
Proof.
  pose proof (app_run_scan s) as H. cbv zeta in H.
  destruct (sweeps (env s)) as [|[|code out err] rest].
  - rewrite H. scan_result (@nil event). discriminate.
  - rewrite H. scan_result [Log MsgToolNotFound]. discriminate.
  - destruct (negb (code =? 0)).
    { rewrite H. scan_result [Log (MsgSweepError (strip err))].
      discriminate. }
    destruct (App.select_strongest out) as [[sig|]|e|].
    + rewrite H. scan_result [Log (MsgStrongest sig)].
      intros sig' [= <-]. split; reflexivity.
    + rewrite H. scan_result (@nil event). discriminate.
    + destruct (exn_eqb e FileNotFoundError).
      * rewrite H. scan_result [Log MsgToolNotFound]. discriminate.
      * rewrite H. scan_result (@nil event). discriminate.
    + rewrite H. scan_result (@nil event). discriminate.
Qed.

(** The events of a cycle of [app.py] after those of the start of its
    sweep: status lines, requests and waits only; or those of a cycle
    that gets a signal and the two answers, with the modulation and the
    two texts of its row. *)
Lemma app_cycle_record (s : App.state) :
  exists r s' evs,
    App.cycle s = (r, s') /\
    trace s' = trace s ++ app_scan_events (self s) ++ evs /\
    (Forall plain_event evs
     \/ (exists sig khz r1 r2 m evs2 evs3,
           let d := answer r1 analysis_failed in
           let g := answer r2 no_suggestions in
           let row := log_entry_of sig m (App.lna_gain (self s))
                        (App.vga_gain (self s)) (App.amp_enabled (self s))
                        d g decoding_placeholder in
           _extract_modulation d = Ret m /\
           evs = (Log (MsgStrongest sig)
                  :: analysis_events sig khz (App.lna_gain (self s))
                       (App.vga_gain (self s)) r1 r2)
                 ++ record_events sig m row true ++ evs2 ++ evs3 /\
           Forall adjust_event evs2 /\ Forall plain_event evs3)).
Proof.
  destruct (app_run_scan_result s)
    as (rs & s1 & evs1 & Hscan & Htr & Hp1 & Hl & Hv & Ha & Hsig).
  destruct rs as [[sig|]|e|].
  - (* a signal *)
    destruct (Hsig sig eq_refl) as [Hself ->].
    destruct (kilohertz sig) as [khz|] eqn:Hk.
    2:{ rewrite (app_cycle_overflow _ _ sig Hscan Hk).
        eexists. eexists.
        exists [Log (MsgStrongest sig); Log (MsgAnalyzing sig)].
        split; [reflexivity|]. cbn [trace]. rewrite Htr. split.
        { now rewrite <- !app_assoc. }
        left. repeat constructor. }
    destruct (Nat.lt_ge_cases (List.length (replies (env s1))) 2) as [Hr|Hr].
    + destruct (app_cycle_unanswered _ _ sig khz Hscan Hk Hr)
        as (w & evs & -> & Hq).
      eexists. eexists. exists (Log (MsgStrongest sig) :: evs).
      split; [reflexivity|]. cbn [trace]. rewrite Htr. split.
      { now rewrite <- !app_assoc. }
      left. constructor; [exact I | now apply quiet_plain].
    + destruct (replies (env s1)) as [|r1 [|r2 rs]] eqn:Hrp;
        cbn in Hr; try lia.
      destruct (app_cycle_signal _ _ sig khz r1 r2 rs Hscan Hk Hrp)
        as (m & ra & a' & evs & Hm & Hc & Hev & _).
      cbv zeta in Hc. rewrite Hself in Hc.
      destruct Hc as [[-> Hc]|[-> Hc]]; rewrite Hc.
      * match goal with |- context [App.wait_stop ?n ?st] =>
          destruct (app_wait_stop_outcome n st)
            as (r & s' & -> & Ht & _) end.
        cbn [trace] in Ht. exists r, s'. eexists.
        split; [reflexivity|]. split.
        2:{ right. exists sig, khz, r1, r2, m, evs, [Log MsgWaiting; Wait 10].
            cbv zeta. split; [exact Hm|]. split; [reflexivity|].
            split; [exact Hev | repeat constructor]. }
        rewrite Ht, Htr. repeat rewrite <- app_assoc. cbn [app]. reflexivity.
      * eexists. eexists. eexists. split; [reflexivity|]. split.
        2:{ right. exists sig, khz, r1, r2, m, evs, [].
            cbv zeta. split; [exact Hm|]. split; [reflexivity|].
            split; [exact Hev | constructor]. }
        cbn [trace]. rewrite Htr, app_nil_r.
        repeat rewrite <- app_assoc. cbn [app]. reflexivity.
  - (* no signal *)
    rewrite (app_cycle_no_signal _ _ Hscan).
    match goal with |- context [App.wait_stop ?n ?st] =>
      destruct (app_wait_stop_outcome n st)
        as (r & s' & -> & Ht & _) end.
    cbn [trace] in Ht. exists r, s'.
    exists (evs1 ++ [Log MsgNoSignal; Log MsgWaiting; Wait 10]).
    split; [reflexivity|]. split.
    { rewrite Ht, Htr. repeat rewrite <- app_assoc. reflexivity. }
    left. apply Forall_app. split; [exact Hp1 | repeat constructor].
  - rewrite (app_cycle_raise _ _ _ Hscan). exists (Raise e), s1, evs1. auto.
  - rewrite (app_cycle_stuck _ _ Hscan). exists Stuck, s1, evs1. auto.
Qed.



(** ** Gains and amplifier over a run *)

Lemma gain_update_in_range (label : str) (hi : Z) (s : str) (old new : Z) :
  0 <= hi -> gain_update label hi s old new ->
  0 <= old <= hi -> 0 <= new <= hi.
Proof.
  intros Hhi [(ds & _ & _ & ->)|[_ ->]] Hold; [lia | exact Hold].
Qed.

Lemma gain_outcome_in_range (label : str) (hi : Z) (s : str) (old new : Z) :
  0 <= hi -> gain_outcome label hi s old new ->
  0 <= old <= hi -> 0 <= new <= hi.
Proof.
  intros Hhi [H|[_ ->]] Hold; [|exact Hold].
  exact (gain_update_in_range label hi s old new Hhi H Hold).
Qed.

(** A cycle of [app.py] starts one sweep, that of the configuration it
    begins with; it keeps the amplifier flag, and gains that are within
    their ranges. *)
Lemma app_cycle_invariant (s : App.state) :
  exists r s' evs,
    App.cycle s = (r, s') /\
    trace s' = trace s ++ app_scan_events (self s) ++ evs /\
    (forall c, ~ In (Popen c) evs) /\
    App.amp_enabled (self s') = App.amp_enabled (self s) /\
    (gains_in_range (App.lna_gain (self s)) (App.vga_gain (self s)) ->
     gains_in_range (App.lna_gain (self s')) (App.vga_gain (self s'))).
Proof.
  destruct (app_cycle_outcome s) as (r & s' & evs & Hc & Ht & Ha & Hshape).
  exists r, s', evs. split; [exact Hc|]. split; [exact Ht|].
  destruct Hshape as [(Hq & Hl & Hv)|[(-> & _ & _ & _ & Hl & Hv)|Hrec]].
  - split; [intros c; now apply quiet_no_popen|]. split; [exact Ha|].
    now rewrite Hl, Hv.
  - split.
    { intros c Hin. cbn in Hin.
      repeat (destruct Hin as [Hin|Hin]; [discriminate|]). exact Hin. }
    split; [exact Ha|]. now rewrite Hl, Hv.
  - destruct Hrec as (sig & m & d & g & evs1 & evs2 & evs3 & ra & -> & H1
                      & H2 & H3 & Hg & _).
    destruct (record_cycle_events sig m d g (App.lna_gain (self s))
                (App.vga_gain (self s)) (App.amp_enabled (self s)) true
                _ _ _ H1 H2 H3) as [Hp _].
    split; [exact Hp|]. split; [exact Ha|]. intros [Hl Hv].
    destruct Hg as [(_ & Gl & Gv)|[(_ & _ & -> & ->)|(_ & Gl & _ & ->)]].
    + split; [apply (gain_update_in_range lna_label 40 g _ _ ltac:(lia) Gl Hl)
             |apply (gain_update_in_range vga_label 62 g _ _ ltac:(lia) Gv Hv)].
    + now split.
    + split; [|exact Hv].
      apply (gain_update_in_range lna_label 40 g _ _ ltac:(lia) Gl Hl).
Qed.

Lemma standalone_cycle_invariant (s : Standalone.state) :
  exists r s' evs,
    Standalone.cycle s = (r, s') /\
    trace s' = trace s ++ standalone_scan_events (self s) ++ evs /\
    (forall c, ~ In (Popen c) evs) /\
    Standalone.amp_enabled (self s') = Standalone.amp_enabled (self s) /\
    (gains_in_range (Standalone.lna_gain (self s))
       (Standalone.vga_gain (self s)) ->
     gains_in_range (Standalone.lna_gain (self s'))
       (Standalone.vga_gain (self s'))).
Proof.
  destruct (standalone_cycle_outcome s)
    as (r & s' & evs & Hc & Ht & Ha & Hshape).
  exists r, s', evs. split; [exact Hc|]. split; [exact Ht|].
  destruct Hshape as [(Hq & Hs)|[(tail & -> & Hq & Hs)|Hrec]].
  - split; [intros c; now apply quiet_no_popen|]. split; [exact Ha|].
    now rewrite Hs.
  - split.
    { intros c [Hin|Hin]; [discriminate|]. now apply (quiet_no_popen _ c Hq). }
    split; [exact Ha|]. now rewrite Hs.
  - destruct Hrec as (sig & m & d & g & evs1 & evs2 & evs3 & -> & H1
                      & H2 & H3 & Gl & Gv).
    destruct (record_cycle_events sig m d g (Standalone.lna_gain (self s))
                (Standalone.vga_gain (self s))
                (Standalone.amp_enabled (self s)) false
                _ _ _ H1 H2 H3) as [Hp _].
    split; [exact Hp|]. split; [exact Ha|]. intros [Hl Hv].
    split; [apply (gain_outcome_in_range lna_label 40 g _ _ ltac:(lia) Gl Hl)
           |apply (gain_outcome_in_range vga_label 62 g _ _ ltac:(lia) Gv Hv)].
Qed.

(** X1. Started with gains within their ranges ([0, 40] for the LNA,
    [0, 62] for the VGA), as [__init__] sets them, a run of either
    program leaves them within their ranges and leaves the amplifier flag
    as it was; every sweep of the run is started with the command of a
    configuration whose gains are within the ranges and whose amplifier
    flag is the one the run began with. *)
Theorem X1_sweeps_within_ranges :
  (forall fuel (s : App.state),
     gains_in_range (App.lna_gain (self s)) (App.vga_gain (self s)) ->
     exists r s' evs,
       App.start_analysis_loop fuel s = (r, s') /\
       trace s' = trace s ++ evs /\
       gains_in_range (App.lna_gain (self s')) (App.vga_gain (self s')) /\
       App.amp_enabled (self s') = App.amp_enabled (self s) /\
       forall c, In (Popen c) evs ->
         exists a, c = App.sweep_command a /\
                   gains_in_range (App.lna_gain a) (App.vga_gain a) /\
                   App.amp_enabled a = App.amp_enabled (self s)) /\
  (forall fuel (s : Standalone.state),
     gains_in_range (Standalone.lna_gain (self s))
       (Standalone.vga_gain (self s)) ->
     exists r s' evs,
       Standalone.start fuel s = (r, s') /\
       trace s' = trace s ++ evs /\
       gains_in_range (Standalone.lna_gain (self s'))
         (Standalone.vga_gain (self s')) /\
       Standalone.amp_enabled (self s') = Standalone.amp_enabled (self s) /\
       forall c, In (Popen c) evs ->
         exists a, c = Standalone.sweep_command a /\
                   gains_in_range (Standalone.lna_gain a)
                     (Standalone.vga_gain a) /\
                   Standalone.amp_enabled a = Standalone.amp_enabled (self s)).
Proof.
  split; intros fuel s Hs.
  - pose (Inv := fun a : App.RFAnalyzer =>
                 gains_in_range (App.lna_gain a) (App.vga_gain a) /\
                 App.amp_enabled a = App.amp_enabled (self s)).
    pose (P := fun e : event =>
                 match e with
                 | Popen c => exists a, c = App.sweep_command a /\ Inv a
                 | _ => True
                 end).
    destruct (app_start_forall Inv P) with (fuel := fuel) (s := s)
      as (r & s' & evs & Hrun & Ht & HP & [Hg Ha]).
    + intros s0 [Hg0 Ha0].
      destruct (app_cycle_invariant s0)
        as (r & s' & evs & Hc & Ht & Hno & Ha & Hg).
      exists r, s', (app_scan_events (self s0) ++ evs).
      split; [exact Hc|]. split; [exact Ht|]. split.
      * unfold app_scan_events. cbn [app]. constructor; [exact I|].
        constructor; [exists (self s0); split; [reflexivity | now split]|].
        rewrite Forall_forall. intros e He. destruct e; try exact I.
        now apply Hno in He.
      * split; [now apply Hg | congruence].
    + intros m. exact I.
    + now split.
    + exists r, s', evs. repeat split; try assumption; try apply Hg.
      intros c Hin. rewrite Forall_forall in HP.
      destruct (HP _ Hin) as (a & -> & Hga & Haa). eauto.
  - pose (Inv := fun a : Standalone.RFAnalyzer =>
                 gains_in_range (Standalone.lna_gain a)
                   (Standalone.vga_gain a) /\
                 Standalone.amp_enabled a = Standalone.amp_enabled (self s)).
    pose (P := fun e : event =>
                 match e with
                 | Popen c => exists a, c = Standalone.sweep_command a /\ Inv a
                 | _ => True
                 end).
    destruct (standalone_start_forall Inv P) with (fuel := fuel) (s := s)
      as (r & s' & evs & Hrun & Ht & HP & [Hg Ha]).
    + intros s0 [Hg0 Ha0].
      destruct (standalone_cycle_invariant s0)
        as (r & s' & evs & Hc & Ht & Hno & Ha & Hg).
      exists r, s', (standalone_scan_events (self s0) ++ evs).
      split; [exact Hc|]. split; [exact Ht|]. split.
      * unfold standalone_scan_events. cbn [app]. constructor; [exact I|].
        constructor; [exists (self s0); split; [reflexivity | now split]|].
        rewrite Forall_forall. intros e He. destruct e; try exact I.
        now apply Hno in He.
      * split; [now apply Hg | congruence].
    + intros m. exact I.
    + now split.
    + exists r, s', evs. repeat split; try assumption; try apply Hg.
      intros c Hin. rewrite Forall_forall in HP.
      destruct (HP _ Hin) as (a & -> & Hga & Haa). eauto.
Qed.

Lemma X1_sweeps_within_ranges_witness :
  let s := App.boot {| sweeps := [Exited 0 sample_sweep []];
                       replies := [Failed; Body (Some sample_suggestion)];
                       waits := [false] |} in
  let s' := snd (App.start_analysis_loop 3 s) in
  gains_in_range (App.lna_gain (self s)) (App.vga_gain (self s)) /\
  gains_in_range (App.lna_gain (self s')) (App.vga_gain (self s')) /\
  App.amp_enabled (self s') = App.amp_enabled (self s).
Proof.
  intros s s'.
  assert (Hs : gains_in_range (App.lna_gain (self s)) (App.vga_gain (self s)))
    by (vm_compute; intuition discriminate).
  split; [exact Hs|].
  destruct (proj1 X1_sweeps_within_ranges 3%nat s Hs)
    as (r & s1 & evs & E & _ & G & A & _).
  unfold s'. rewrite E. cbn [snd]. now split.
Defined.

(** ** A wait between two sweeps *)

Lemma paced_app (n : Z) (x y : list event) (b : bool) :
  paced n b (x ++ y) = (paced n b x && paced n (ready_after n b x) y)%bool.
Proof.
  revert b. induction x as [|e x IH]; intros b; [reflexivity|].
  destruct e; cbn [app paced ready_after]; rewrite ?IH; try reflexivity.
  now rewrite andb_assoc.
Qed.

Lemma ready_after_app (n : Z) (x y : list event) (b : bool) :
  ready_after n b (x ++ y) = ready_after n (ready_after n b x) y.
Proof.
  revert b. induction x as [|e x IH]; intros b; [reflexivity|].
  destruct e; cbn [app ready_after]; now rewrite ?IH.
Qed.

Lemma paced_no_popen (n : Z) (evs : list event) (b : bool) :
  (forall c, ~ In (Popen c) evs) -> paced n b evs = true.
Proof.
  revert b. induction evs as [|e evs IH]; intros b H; [reflexivity|].
  assert (H' : forall c, ~ In (Popen c) evs).
  { intros c Hin. apply (H c). now right. }
  destruct e; cbn [paced]; auto.
  exfalso. apply (H command). now left.
Qed.

Lemma ready_after_true (n : Z) (evs : list event) :
  (forall c, ~ In (Popen c) evs) -> ready_after n true evs = true.
Proof.
  induction evs as [|e evs IH]; intros H; [reflexivity|].
  assert (H' : forall c, ~ In (Popen c) evs).
  { intros c Hin. apply (H c). now right. }
  destruct e; cbn [ready_after orb]; auto.
  exfalso. apply (H command). now left.
Qed.

Lemma ready_after_wait (n : Z) (evs : list event) (b : bool) :
  (forall c, ~ In (Popen c) evs) -> In (Wait n) evs ->
  ready_after n b evs = true.
Proof.
  revert b. induction evs as [|e evs IH]; intros b H Hin; [destruct Hin|].
  assert (H' : forall c, ~ In (Popen c) evs).
  { intros c Hc. apply (H c). now right. }
  destruct Hin as [->|Hin].
  - cbn [ready_after]. rewrite Z.eqb_refl, orb_true_r.
    now apply ready_after_true.
  - destruct e; cbn [ready_after]; auto.
Qed.

(** Events that are paced have a wait between two sweeps. *)
Lemma paced_wait_before (n : Z) (m : list event) (c : list str)
    (z : list event) :
  paced n false (m ++ Popen c :: z) = true -> In (Wait n) m.
Proof.
  induction m as [|e m IH]; cbn [app paced]; [discriminate|].
  destruct e; try (intros H; right; now apply IH); try discriminate.
  cbn [orb]. destruct (seconds =? n) eqn:E.
  - intros _. left. apply Z.eqb_eq in E. now subst.
  - intros H. right. now apply IH.
Qed.

Lemma paced_sound (n : Z) (a : list event) :
  forall (b : bool) (c1 c2 : list str) (m z : list event),
    paced n b (a ++ Popen c1 :: m ++ Popen c2 :: z) = true ->
    In (Wait n) m.
Proof.
  induction a as [|e a IH]; intros b c1 c2 m z H.
  - cbn [app paced] in H. apply andb_prop in H.
    exact (paced_wait_before n m c2 z (proj2 H)).
  - destruct e; cbn [app paced] in H; try (eapply IH; exact H).
    apply andb_prop in H. eapply IH. exact (proj2 H).
Qed.

(** A cycle that returns has waited last. *)
Lemma app_cycle_ret_wait (s s' : App.state) :
  App.cycle s = (Ret tt, s') -> exists tr, trace s' = tr ++ [Wait 10].
Proof.
  unfold App.cycle. unfold bind at 1.
  destruct (App.run_scan s) as [[x|e|] s1]; try discriminate.
  unfold bind at 1.
  match goal with |- context [match ?b s1 with _ => _ end] =>
    destruct (b s1) as [[u|e|] s2] end; try discriminate.
  unfold bind at 1, App._emit_log, emit, modify. cbv beta iota.
  rewrite app_wait_stop. cbv zeta. cbn [self env trace].
  destruct (App.stop_event (self s2)).
  - intros [= <-]. cbn [trace]. eauto.
  - destruct (waits (env s2)) as [|b bs]; [discriminate|].
    intros [= <-]. cbn [trace]. eauto.
Qed.

Lemma standalone_cycle_ret_wait (s s' : Standalone.state) :
  Standalone.cycle s = (Ret tt, s') -> exists tr, trace s' = tr ++ [Wait 30].
Proof.
  unfold Standalone.cycle. unfold bind at 1.
  destruct (Standalone.run_scan s) as [[x|e|] s1]; try discriminate.
  unfold bind at 1.
  match goal with |- context [match ?b s1 with _ => _ end] =>
    destruct (b s1) as [[u|e|] s2] end; try discriminate.
  unfold bind at 1, Standalone.print, emit, modify. cbv beta iota.
  rewrite standalone_sleep. cbv zeta. cbn [self env trace].
  destruct (waits (env s2)) as [|[|] bs]; try discriminate.
  intros [= <-]. cbn [trace]. eauto.
Qed.

(** The events of a cycle that ends with a wait and has no sweep after
    its first two events. *)
Lemma tail_wait (n : Z) (tr tr' : list event) (e0 : event) (c : list str)
    (evs : list event) :
  tr ++ [e0; Popen c] ++ evs = tr' ++ [Wait n] -> In (Wait n) evs.
Proof.
  intros H. destruct evs as [|e evs] using rev_ind.
  - rewrite app_nil_r in H.
    change (tr ++ [e0; Popen c]) with (tr ++ [e0] ++ [Popen c]) in H.
    rewrite app_assoc in H. apply app_inj_tail in H.
    destruct H as [_ H]. discriminate H.
  - rewrite !app_assoc in H. apply app_inj_tail in H.
    destruct H as [_ ->]. apply in_or_app. right. now left.
Qed.

Lemma app_cycle_paced (s : App.state) :
  exists r s' evs,
    App.cycle s = (r, s') /\ trace s' = trace s ++ evs /\
    paced 10 true evs = true /\
    (r = Ret tt -> ready_after 10 true evs = true).
Proof.
  destruct (app_cycle_invariant s) as (r & s' & evs & Hc & Ht & Hno & _).
  exists r, s', (app_scan_events (self s) ++ evs).
  split; [exact Hc|]. split; [exact Ht|]. split.
  - unfold app_scan_events. cbn [app paced andb].
    now apply paced_no_popen.
  - intros ->. destruct (app_cycle_ret_wait s s' Hc) as [tr Htr].
    rewrite Htr in Ht. symmetry in Ht. unfold app_scan_events in *.
    apply tail_wait in Ht. cbn [app ready_after].
    now apply ready_after_wait.
Qed.

Lemma standalone_cycle_paced (s : Standalone.state) :
  exists r s' evs,
    Standalone.cycle s = (r, s') /\ trace s' = trace s ++ evs /\
    paced 30 true evs = true /\
    (r = Ret tt -> ready_after 30 true evs = true).
Proof.
  destruct (standalone_cycle_invariant s)
    as (r & s' & evs & Hc & Ht & Hno & _).
  exists r, s', (standalone_scan_events (self s) ++ evs).
  split; [exact Hc|]. split; [exact Ht|]. split.
  - unfold standalone_scan_events. cbn [app paced andb].
    now apply paced_no_popen.
  - intros ->. destruct (standalone_cycle_ret_wait s s' Hc) as [tr Htr].
    rewrite Htr in Ht. symmetry in Ht. unfold standalone_scan_events in *.
    apply tail_wait in Ht. cbn [app ready_after].
    now apply ready_after_wait.
Qed.

Lemma app_loop_paced (fuel : nat) (s : App.state) :
  exists r s' evs,
    App.loop fuel s = (r, s') /\ trace s' = trace s ++ evs /\
    paced 10 true evs = true.
Proof.
  revert s. induction fuel as [|fuel IH]; intros s; rewrite app_loop_eq.
  - exists (if App.stop_event (self s) then Ret tt else Stuck), s, [].
    split; [now destruct (App.stop_event (self s))|].
    split; [now rewrite app_nil_r | reflexivity].
  - destruct (App.stop_event (self s)).
    { exists (Ret tt), s, []. split; [reflexivity|].
      split; [now rewrite app_nil_r | reflexivity]. }
    destruct (app_cycle_paced s) as (rc & s1 & evs1 & Hc & Ht1 & Hp1 & Hr1).
    rewrite Hc. destruct rc as [[]|e|].
    + destruct (IH s1) as (r & s' & evs & Hl & Ht & Hp).
      exists r, s', (evs1 ++ evs). split; [exact Hl|].
      split; [rewrite Ht, Ht1; now rewrite app_assoc|].
      now rewrite paced_app, Hp1, (Hr1 eq_refl), Hp.
    + exists (Raise e), s1, evs1. auto.
    + exists Stuck, s1, evs1. auto.
Qed.

Lemma standalone_loop_paced (fuel : nat) (s : Standalone.state) :
  exists r s' evs,
    Standalone.loop fuel s = (r, s') /\ trace s' = trace s ++ evs /\
    paced 30 true evs = true.
Proof.
  revert s. induction fuel as [|fuel IH]; intros s;
    rewrite standalone_loop_eq.
  - exists Stuck, s, []. split; [reflexivity|].
    split; [now rewrite app_nil_r | reflexivity].
  - destruct (standalone_cycle_paced s)
      as (rc & s1 & evs1 & Hc & Ht1 & Hp1 & Hr1).
    rewrite Hc. destruct rc as [[]|e|].
    + destruct (IH s1) as (r & s' & evs & Hl & Ht & Hp).
      exists r, s', (evs1 ++ evs). split; [exact Hl|].
      split; [rewrite Ht, Ht1; now rewrite app_assoc|].
      now rewrite paced_app, Hp1, (Hr1 eq_refl), Hp.
    + exists (Raise e), s1, evs1. auto.
    + exists Stuck, s1, evs1. auto.
Qed.

(** X2. In a run of either program two sweeps are never started without
    a wait between them, of 10 seconds in [app.py] and of 30 seconds in
    [rf_analyzer.py]: whatever the tool, the endpoint and the rows of the
    sweeps do, the events between two starts of the sweep include that
    wait. *)
Theorem X2_wait_between_sweeps :
  (forall fuel (s : App.state),
     exists r s' evs,
       App.start_analysis_loop fuel s = (r, s') /\
       trace s' = trace s ++ evs /\
       forall a c1 m c2 z,
         evs = a ++ Popen c1 :: m ++ Popen c2 :: z -> In (Wait 10) m) /\
  (forall fuel (s : Standalone.state),
     exists r s' evs,
       Standalone.start fuel s = (r, s') /\
       trace s' = trace s ++ evs /\
       forall a c1 m c2 z,
         evs = a ++ Popen c1 :: m ++ Popen c2 :: z -> In (Wait 30) m).
Proof.
  split; intros fuel s.
  - rewrite app_start_eq.
    destruct (app_loop_paced fuel
                {| self := self s; env := env s;
                   trace := trace s ++ [Log MsgStarted] |})
      as (r & s1 & evs & -> & Ht & Hp).
    cbn [trace] in Ht.
    assert (Hall : forall tl, (forall c, ~ In (Popen c) tl) ->
              forall a c1 m c2 z,
                Log MsgStarted :: evs ++ tl = a ++ Popen c1 :: m ++ Popen c2 :: z ->
                In (Wait 10) m).
    { intros tl Htl a c1 m c2 z E. apply (paced_sound 10 a true c1 c2 m z).
      rewrite <- E. cbn [paced]. rewrite paced_app, Hp.
      now rewrite paced_no_popen. }
    destruct r as [[]|e|].
    + eexists. eexists. exists (Log MsgStarted :: evs ++ [Log MsgStopped]).
      split; [reflexivity|]. cbn [trace]. rewrite Ht.
      split; [now rewrite <- !app_assoc|]. apply Hall.
      intros c [H|[]]. discriminate H.
    + exists (Raise e), s1, (Log MsgStarted :: evs). split; [reflexivity|].
      rewrite Ht. split; [now rewrite <- app_assoc|].
      intros a c1 m c2 z E. apply (Hall [] (fun c H => H) a c1 m c2 z).
      now rewrite app_nil_r.
    + exists Stuck, s1, (Log MsgStarted :: evs). split; [reflexivity|].
      rewrite Ht. split; [now rewrite <- app_assoc|].
      intros a c1 m c2 z E. apply (Hall [] (fun c H => H) a c1 m c2 z).
      now rewrite app_nil_r.
  - rewrite standalone_start_eq.
    destruct (standalone_loop_paced fuel
                {| self := self s; env := env s;
                   trace := trace s ++ [Log MsgStarted] |})
      as (r & s1 & evs & -> & Ht & Hp).
    cbn [trace] in Ht.
    assert (Hall : forall tl, (forall c, ~ In (Popen c) tl) ->
              forall a c1 m c2 z,
                Log MsgStarted :: evs ++ tl = a ++ Popen c1 :: m ++ Popen c2 :: z ->
                In (Wait 30) m).
    { intros tl Htl a c1 m c2 z E. apply (paced_sound 30 a true c1 c2 m z).
      rewrite <- E. cbn [paced]. rewrite paced_app, Hp.
      now rewrite paced_no_popen. }
    destruct r as [[]|e|].
    + exists (Ret tt), s1, (Log MsgStarted :: evs). split; [reflexivity|].
      rewrite Ht. split; [now rewrite <- app_assoc|].
      intros a c1 m c2 z E. apply (Hall [] (fun c H => H) a c1 m c2 z).
      now rewrite app_nil_r.
    + destruct (exn_eqb e KeyboardInterrupt).
      * eexists. eexists. exists (Log MsgStarted :: evs ++ [Log MsgStopped]).
        split; [reflexivity|]. cbn [trace]. rewrite Ht.
        split; [now rewrite <- !app_assoc|]. apply Hall.
        intros c [H|[]]. discriminate H.
      * exists (Raise e), s1, (Log MsgStarted :: evs). split; [reflexivity|].
        rewrite Ht. split; [now rewrite <- app_assoc|].
        intros a c1 m c2 z E. apply (Hall [] (fun c H => H) a c1 m c2 z).
        now rewrite app_nil_r.
    + exists Stuck, s1, (Log MsgStarted :: evs). split; [reflexivity|].
      rewrite Ht. split; [now rewrite <- app_assoc|].
      intros a c1 m c2 z E. apply (Hall [] (fun c H => H) a c1 m c2 z).
      now rewrite app_nil_r.
Qed.

Lemma X2_wait_between_sweeps_witness :
  let w := {| sweeps := [NotFound; NotFound]; replies := [];
              waits := [false; false] |} in
  let c := Standalone.sweep_command Standalone.init in
  exists a m z,
    trace (snd (Standalone.start 2 (Standalone.boot w)))
    = a ++ Popen c :: m ++ Popen c :: z /\
    In (Wait 30) m.
Proof.
  intros w c.
  destruct (proj2 X2_wait_between_sweeps 2%nat (Standalone.boot w))
    as (r & s' & evs & E & Ht & H).
  assert (Ee : trace (snd (Standalone.start 2 (Standalone.boot w))) = evs)
    by (rewrite E; cbn [snd]; rewrite Ht; reflexivity).
  pose (a := [Log MsgStarted; Log (MsgScanning 16 20 false)]).
  pose (m := [Log MsgToolNotFound; Log MsgInstallHint; Log MsgNoSignal;
              Log MsgWaiting; Wait 30; Log (MsgScanning 16 20 false)]).
  pose (z := [Log MsgToolNotFound; Log MsgInstallHint; Log MsgNoSignal;
              Log MsgWaiting; Wait 30]).
  assert (Hd : trace (snd (Standalone.start 2 (Standalone.boot w)))
               = a ++ Popen c :: m ++ Popen c :: z)
    by (vm_compute; reflexivity).
  exists a, m, z. split; [exact Hd|].
  apply (H a c m c z). now rewrite <- Ee.
Defined.

(** ** How the loops end *)

Lemma app_loop_ret (fuel : nat) (s s' : App.state) :
  App.loop fuel s = (Ret tt, s') -> App.stop_event (self s') = true.
Proof.
  revert s. induction fuel as [|fuel IH]; intros s; rewrite app_loop_eq;
    destruct (App.stop_event (self s)) eqn:St; try discriminate;
    try (intros [= <-]; exact St).
  destruct (App.cycle s) as [[[]|e|] s1]; try discriminate. apply IH.
Qed.

Lemma standalone_loop_never_returns (fuel : nat) (s : Standalone.state) :
  fst (Standalone.loop fuel s) <> Ret tt.
Proof.
  revert s. induction fuel as [|fuel IH]; intros s;
    rewrite standalone_loop_eq; [discriminate|].
  destruct (Standalone.cycle s) as [[[]|e|] s1]; try discriminate. apply IH.
Qed.

(** X3. The loop of [app.py] ends only on a stop request: when
    [start_analysis_loop] returns, the stop request is set, and its first
    and last status lines are the ones of the start and of the stop of
    the loop; started with the request set, it does nothing between the
    two. The loop of [rf_analyzer.py] never ends of itself: [start]
    returns only through its handler of [KeyboardInterrupt], whose line
    is the last it prints. *)
Theorem X3_loop_ends_on_stop :
  (forall fuel (s s' : App.state),
     App.start_analysis_loop fuel s = (Ret tt, s') ->
     App.stop_event (self s') = true /\
     exists evs,
       trace s' = trace s ++ Log MsgStarted :: evs ++ [Log MsgStopped]) /\
  (forall fuel (s : App.state),
     App.stop_event (self s) = true ->
     App.start_analysis_loop fuel s =
     (Ret tt, {| self := self s; env := env s;
                 trace := trace s ++ [Log MsgStarted; Log MsgStopped] |})) /\
  (forall fuel (s : Standalone.state),
     fst (Standalone.loop fuel s) <> Ret tt) /\
  (forall fuel (s s' : Standalone.state),
     Standalone.start fuel s = (Ret tt, s') ->
     exists evs,
       trace s' = trace s ++ Log MsgStarted :: evs ++ [Log MsgStopped]).
Proof.
  split; [|split; [|split]].
  - intros fuel s s'. rewrite app_start_eq.
    destruct (app_loop_forall (fun _ => True) (fun _ => True)) with
      (fuel := fuel)
      (s := {| self := self s; env := env s;
               trace := trace s ++ [Log MsgStarted] |})
      as (r & s1 & evs & Hl & Ht & _).
    { intros s0 _. destruct (app_cycle_invariant s0)
        as (r & s1 & evs & Hc & Ht & _).
      exists r, s1, (app_scan_events (self s0) ++ evs).
      repeat split; auto. rewrite Forall_forall. auto. }
    { exact I. }
    rewrite Hl. destruct r as [[]|e|]; try discriminate.
    intros [= <-]. cbn [self trace]. split.
    + exact (app_loop_ret fuel _ _ Hl).
    + exists evs. rewrite Ht. cbn [trace]. now rewrite <- !app_assoc.
  - intros fuel s St. rewrite app_start_eq, app_loop_eq.
    cbn [self env trace]. rewrite St. cbn [self env trace].
    now rewrite <- app_assoc.
  - exact standalone_loop_never_returns.
  - intros fuel s s'. rewrite standalone_start_eq.
    destruct (standalone_loop_forall (fun _ => True) (fun _ => True)) with
      (fuel := fuel)
      (s := {| self := self s; env := env s;
               trace := trace s ++ [Log MsgStarted] |})
      as (r & s1 & evs & Hl & Ht & _).
    { intros s0 _. destruct (standalone_cycle_invariant s0)
        as (r & s1 & evs & Hc & Ht & _).
      exists r, s1, (standalone_scan_events (self s0) ++ evs).
      repeat split; auto. rewrite Forall_forall. auto. }
    { exact I. }
    pose proof (standalone_loop_never_returns fuel
                  {| self := self s; env := env s;
                     trace := trace s ++ [Log MsgStarted] |}) as Hnever.
    rewrite Hl in *. cbn [fst] in Hnever.
    destruct r as [[]|e|]; try discriminate; [now destruct Hnever|].
    destruct (exn_eqb e KeyboardInterrupt); [|discriminate].
    intros [= <-]. cbn [trace]. exists evs. rewrite Ht. cbn [trace].
    now rewrite <- !app_assoc.
Qed.

Lemma X3_loop_ends_on_stop_witness :
  let w := {| sweeps := [NotFound]; replies := []; waits := [] |} in
  App.stop_event (self (snd (App.start_analysis_loop 1 (App.boot w)))) = true.
Proof.
  intros w. destruct X3_loop_ends_on_stop as [H _].
  destruct (App.start_analysis_loop 1 (App.boot w)) as [r s'] eqn:E.
  assert (Hr : r = Ret tt).
  { change r with (fst (r, s')). rewrite <- E. vm_compute. reflexivity. }
  subst r. exact (proj1 (H 1%nat (App.boot w) s' E)).
Defined.

(** ** A sweep that fails, and an output too short *)

(** X4. A sweep that exits with a code other than zero is reported with
    its error output, cut of the white space around it; its output is not
    read, whatever it holds. The cycle sends no request and writes no
    row, leaves the configuration as it was, and goes on to its wait:
    unlike a missing tool, a failing sweep does not stop [app.py]. *)
Theorem X4_failed_sweep_is_reported (code : Z) (out err : str)
    (rest : list popen_result) (b : bool) (bs : list bool) :
  code <> 0 ->
  (forall s : App.state,
     sweeps (env s) = Exited code out err :: rest ->
     waits (env s) = b :: bs -> App.stop_event (self s) = false ->
     App.cycle s =
     (Ret tt,
      {| self := if b then App.set_stop_event (self s) else self s;
         env := {| sweeps := rest; replies := replies (env s); waits := bs |};
         trace := trace s ++ app_scan_events (self s)
                  ++ [Log (MsgSweepError (strip err)); Log MsgNoSignal;
                      Log MsgWaiting; Wait 10] |})) /\
  (forall s : Standalone.state,
     sweeps (env s) = Exited code out err :: rest ->
     waits (env s) = false :: bs ->
     Standalone.cycle s =
     (Ret tt,
      {| self := self s;
         env := {| sweeps := rest; replies := replies (env s); waits := bs |};
         trace := trace s ++ standalone_scan_events (self s)
                  ++ [Log (MsgSweepError (strip err)); Log MsgNoSignal;
                      Log MsgWaiting; Wait 30] |})).
Proof.
  intros Hcode. apply Z.eqb_neq in Hcode. split.
  - intros s Hsw Hw St. pose proof (app_run_scan s) as Hrs. cbv zeta in Hrs.
    rewrite Hsw, Hcode in Hrs. cbn [negb] in Hrs.
    rewrite (app_cycle_no_signal _ _ Hrs), app_wait_stop. cbv zeta.
    cbn [self env trace with_sweeps waits replies]. rewrite St, Hw.
    unfold with_waits. cbn [sweeps replies]. repeat rewrite <- app_assoc.
    reflexivity.
  - intros s Hsw Hw. pose proof (standalone_run_scan s) as Hrs.
    cbv zeta in Hrs. rewrite Hsw, Hcode in Hrs. cbn [negb] in Hrs.
    rewrite (standalone_cycle_no_signal _ _ Hrs), standalone_sleep.
    cbv zeta. cbn [self env trace with_sweeps waits replies]. rewrite Hw.
    unfold with_waits. cbn [sweeps replies]. repeat rewrite <- app_assoc.
    reflexivity.
Qed.

Lemma X4_failed_sweep_is_reported_witness :
  let w := {| sweeps := [Exited 1 sample_sweep (lit " no device ")];
              replies := []; waits := [false] |} in
  fst (App.cycle (App.boot w)) = Ret tt /\
  self (snd (App.cycle (App.boot w))) = App.init.
Proof.
  intros w.
  destruct (X4_failed_sweep_is_reported 1 sample_sweep (lit " no device ")
              [] false [] ltac:(discriminate)) as [H _].
  rewrite (H (App.boot w) eq_refl eq_refl eq_refl). split; reflexivity.
Defined.

Lemma split_single (sep : ascii) (s : str) :
  ~ In sep s -> split sep s = [s].
Proof.
  induction s as [|c s IH]; intros H; [reflexivity|].
  cbn [split]. destruct (Ascii.eqb_spec c sep) as [->|_].
  - exfalso. apply H. now left.
  - rewrite IH; [reflexivity|]. intros Hin. apply H. now right.
Qed.

(** X5. An output of the sweep that has a single line, once the white
    space around it is cut, gives no signal, be the line a row that
    reads well: the first line is taken for a header, and the rows are
    those after it. *)
Theorem X5_single_line_gives_no_signal (stdout : str) :
  ~ In newline (strip stdout) ->
  App.select_strongest stdout = Ret None /\
  Standalone.select_strongest stdout = Ret None.
Proof.
  intros H. unfold App.select_strongest, Standalone.select_strongest.
  rewrite (split_single newline (strip stdout) H). split; reflexivity.
Qed.

Lemma X5_single_line_gives_no_signal_witness :
  App.select_strongest
    (lit "2024-01-01,00:00:00,100000000,100100000,100000,131072,-20.5")
  = Ret None.
Proof.
  refine (proj1 (X5_single_line_gives_no_signal _ _)).
  intros H. vm_compute in H.
  repeat (destruct H as [H|H]; [discriminate H|]). exact H.
Defined.

(** ** The first line of the output *)

Lemma lstrip_app (p : ascii -> bool) (x y : str) :
  lstrip p (x ++ y) = if forallb p x then lstrip p y else lstrip p x ++ y.
Proof.
  induction x as [|c x IH]; [reflexivity|].
  cbn [app lstrip forallb]. destruct (p c); [exact IH | reflexivity].
Qed.

Lemma forallb_rev {A} (p : A -> bool) (l : list A) :
  forallb p (rev l) = forallb p l.
Proof.
  induction l as [|a l IH]; [reflexivity|].
  cbn [rev forallb]. rewrite forallb_app, IH. cbn [forallb].
  rewrite andb_true_r. apply andb_comm.
Qed.

Lemma rstrip_app (p : ascii -> bool) (a b : str) :
  rstrip p (a ++ b) = if forallb p b then rstrip p a else a ++ rstrip p b.
Proof.
  unfold rstrip. rewrite rev_app_distr, lstrip_app, forallb_rev.
  destruct (forallb p b); [reflexivity|].
  now rewrite rev_app_distr, rev_involutive.
Qed.

Lemma split_app_sep (sep : ascii) (h t : str) :
  ~ In sep h -> split sep (h ++ sep :: t) = h :: split sep t.
Proof.
  induction h as [|c h IH]; intros H.
  - cbn [app split]. now rewrite Ascii.eqb_refl.
  - cbn [app split]. destruct (Ascii.eqb_spec c sep) as [->|_].
    + exfalso. apply H. now left.
    + rewrite IH; [reflexivity|]. intros Hin. apply H. now right.
Qed.

Lemma isspace_newline : isspace newline = true.
Proof. reflexivity. Qed.

(** The lines of an output that begins with a header line. *)
Lemma lines_after_header (h rest : str) :
  header_line h ->
  split newline (strip (h ++ newline :: rest)) =
  if forallb isspace rest then [rstrip isspace h]
  else h :: split newline (rstrip isspace rest).
Proof.
  intros ((c & t & -> & Hc) & Hnl & _). unfold strip.
  cbn [app lstrip]. rewrite Hc.
  change (c :: t ++ newline :: rest) with ((c :: t) ++ newline :: rest).
  change ((c :: t) ++ newline :: rest)
    with ((c :: t) ++ [newline] ++ rest).
  rewrite app_assoc, rstrip_app.
  destruct (forallb isspace rest).
  - rewrite rstrip_app. cbn [forallb]. rewrite isspace_newline. cbn [andb].
    apply split_single. intros Hin. apply Hnl.
    unfold rstrip in Hin. apply in_rev in Hin. apply lstrip_incl in Hin.
    now apply in_rev in Hin.
  - rewrite <- app_assoc.
    exact (split_app_sep newline (c :: t) (rstrip isspace rest) Hnl).
Qed.

Lemma csv_reader_header (h : str) (ls : list str) :
  header_line h ->
  csv_reader (h :: ls) =
  (fields_of_line h :: fst (csv_reader ls), snd (csv_reader ls)).
Proof.
  intros (_ & Hnl & Hp & Hlen). unfold csv_reader. cbn [reader_rows].
  destruct (parse_line_plain h Hp Hnl Hlen) as (p & -> & St & Hf).
  rewrite St. cbn [csv_state_eqb]. rewrite Hf.
  now destruct (reader_rows parse_reset ls).
Qed.

(** X6. The first line of the output of a sweep has no part in the
    choice of the signal: two outputs that differ in their first line
    only give the same result, in both programs. A first line that is
    itself a row of the sweep is passed over like a header. *)
Theorem X6_first_line_is_skipped (h1 h2 rest : str) :
  header_line h1 -> header_line h2 ->
  App.select_strongest (h1 ++ newline :: rest)
  = App.select_strongest (h2 ++ newline :: rest) /\
  Standalone.select_strongest (h1 ++ newline :: rest)
  = Standalone.select_strongest (h2 ++ newline :: rest).
Proof.
  intros H1 H2. unfold App.select_strongest, Standalone.select_strongest.
  rewrite (lines_after_header h1 rest H1), (lines_after_header h2 rest H2).
  destruct (forallb isspace rest); [split; reflexivity|].
  cbn [List.length Nat.ltb Nat.leb].
  rewrite (csv_reader_header h1 _ H1), (csv_reader_header h2 _ H2).
  destruct (split newline (rstrip isspace rest)) as [|l ls];
    split; reflexivity.
Qed.

Lemma X6_first_line_is_skipped_witness :
  App.select_strongest
    (lit "d,t,100000000,100100000,100000,131072,-5.0" ++ newline
     :: lit "d,t,100000000,100100000,100000,131072,-20.5")
  = Ret (Some sample_observation).
Proof.
  assert (H : forall h, forallb (fun c => negb (Ascii.eqb c newline)
                                   && negb (Ascii.eqb c quotechar)
                                   && negb (Ascii.eqb c carriage_return)) h
                        = true ->
                        match h with c :: _ => isspace c = false
                                | [] => False end ->
                        Z.of_nat (List.length h) < field_size_limit ->
                        header_line h).
  { intros h Hall Hhd Hlen. rewrite forallb_forall in Hall.
    split; [|split; [|split]].
    - destruct h as [|c t]; [destruct Hhd | eauto].
    - intros Hin. specialize (Hall _ Hin).
      now rewrite Ascii.eqb_refl in Hall.
    - intros c Hin. specialize (Hall _ Hin).
      split; intros ->; rewrite Ascii.eqb_refl in Hall;
        [now rewrite andb_false_r in Hall | now rewrite andb_false_r in Hall].
    - exact Hlen. }
  assert (H1 : header_line
                 (lit "d,t,100000000,100100000,100000,131072,-5.0"))
    by (apply H; vm_compute; reflexivity).
  assert (H2 : header_line (lit "header"))
    by (apply H; vm_compute; reflexivity).
  rewrite (proj1 (X6_first_line_is_skipped _ _
                    (lit "d,t,100000000,100100000,100000,131072,-20.5")
                    H1 H2)).
  vm_compute. reflexivity.
Defined.

(** ** The texts of an analysis *)

Lemma lstrip_idem (p : ascii -> bool) (s : str) :
  lstrip p (lstrip p s) = lstrip p s.
Proof.
  induction s as [|c s IH]; [reflexivity|].
  cbn [lstrip]. destruct (p c) eqn:E; [exact IH|]. cbn [lstrip]. now rewrite E.
Qed.

Lemma rstrip_idem (p : ascii -> bool) (s : str) :
  rstrip p (rstrip p s) = rstrip p s.
Proof. unfold rstrip. now rewrite rev_involutive, lstrip_idem. Qed.

Lemma lstrip_all (p : ascii -> bool) (s : str) :
  forallb p s = true -> lstrip p s = [].
Proof.
  induction s as [|c s IH]; [reflexivity|]. cbn [forallb lstrip].
  destruct (p c); [exact IH | discriminate].
Qed.

Lemma rstrip_cons (p : ascii -> bool) (c : ascii) (t : str) :
  p c = false -> rstrip p (c :: t) = c :: rstrip p t.
Proof.
  intros Hc. change (c :: t) with ([c] ++ t). rewrite rstrip_app.
  destruct (forallb p t) eqn:E.
  - unfold rstrip. rewrite (lstrip_all p (rev t)) by now rewrite forallb_rev.
    cbn. now rewrite Hc.
  - reflexivity.
Qed.

(** [strip] leaves what it has cut. *)
Lemma strip_idem (s : str) : strip (strip s) = strip s.
Proof.
  unfold strip. destruct (lstrip isspace s) as [|c t] eqn:E; [reflexivity|].
  assert (Hc : isspace c = false).
  { clear -E. induction s as [|x s IH]; [discriminate|]. cbn [lstrip] in E.
    destruct (isspace x) eqn:Ex; [now apply IH|]. now injection E as <- _. }
  rewrite (rstrip_cons isspace c t Hc). cbn [lstrip]. rewrite Hc.
  now rewrite (rstrip_cons isspace c _ Hc), rstrip_idem.
Qed.

Lemma answer_trimmed (r : reply) (fb : str) :
  fb <> [] -> strip fb = fb ->
  answer r fb <> [] /\ strip (answer r fb) = answer r fb.
Proof.
  intros Hne Hfb. unfold answer, or_default.
  destruct r as [|x]; [now split|]. unfold response_text.
  destruct (strip match x with Some r => r | None => [] end) as [|c t] eqn:E;
    [now split|].
  split; [discriminate|]. rewrite <- E. apply strip_idem.
Qed.

(** What [analyze_with_ollama] returns, when it returns. *)
Lemma app_analyze_ret (sig : signal_data) (s s' : App.state) (d g : str) :
  App.analyze_with_ollama sig s = (Ret (d, g), s') ->
  exists r1 r2,
    d = answer r1 analysis_failed /\ g = answer r2 no_suggestions.
Proof.
  destruct (kilohertz sig) as [khz|] eqn:Hk.
  2:{ rewrite (app_analyze_overflow sig s Hk). discriminate. }
  destruct (replies (env s)) as [|r1 [|r2 rs]] eqn:Hrp.
  - destruct s as [a [sw rp wt] tr]. cbn [env replies] in Hrp. subst rp.
    unfold App.analyze_with_ollama. rewrite Hk. run_app. discriminate.
  - destruct s as [a [sw rp wt] tr]. cbn [env replies] in Hrp. subst rp.
    unfold App.analyze_with_ollama. rewrite Hk.
    destruct r1; run_app; discriminate.
  - rewrite (app_analyze sig khz s r1 r2 rs Hk Hrp). intros [= <- <- _].
    eauto.
Qed.

Lemma standalone_analyze_ret (sig : signal_data) (s s' : Standalone.state)
    (d g : str) :
  Standalone.analyze_with_ollama sig s = (Ret (d, g), s') ->
  exists r1 r2,
    d = answer r1 analysis_failed /\ g = answer r2 no_suggestions.
Proof.
  destruct (kilohertz sig) as [khz|] eqn:Hk.
  2:{ rewrite (standalone_analyze_overflow sig s Hk). discriminate. }
  destruct (replies (env s)) as [|r1 [|r2 rs]] eqn:Hrp.
  - destruct s as [a [sw rp wt] tr]. cbn [env replies] in Hrp. subst rp.
    unfold Standalone.analyze_with_ollama. rewrite Hk. run_standalone.
    discriminate.
  - destruct s as [a [sw rp wt] tr]. cbn [env replies] in Hrp. subst rp.
    unfold Standalone.analyze_with_ollama. rewrite Hk.
    destruct r1; run_standalone; discriminate.
  - rewrite (standalone_analyze sig khz s r1 r2 rs Hk Hrp).
    intros [= <- <- _]. eauto.
Qed.

(** X7. The two texts [analyze_with_ollama] returns are never empty and
    have no white space around them: each is the fallback text or a
    response cut of the white space around it, of which something is
    left. In both programs. *)
Theorem X7_analysis_texts_are_trimmed :
  (forall sig (s s' : App.state) d g,
     App.analyze_with_ollama sig s = (Ret (d, g), s') ->
     d <> [] /\ g <> [] /\ strip d = d /\ strip g = g) /\
  (forall sig (s s' : Standalone.state) d g,
     Standalone.analyze_with_ollama sig s = (Ret (d, g), s') ->
     d <> [] /\ g <> [] /\ strip d = d /\ strip g = g).
Proof.
  assert (Hd : forall r, answer r analysis_failed <> [] /\
                         strip (answer r analysis_failed)
                         = answer r analysis_failed).
  { intros r. apply answer_trimmed; [discriminate | reflexivity]. }
  assert (Hg : forall r, answer r no_suggestions <> [] /\
                         strip (answer r no_suggestions)
                         = answer r no_suggestions).
  { intros r. apply answer_trimmed; [discriminate | reflexivity]. }
  split; intros sig s s' d g H.
  - destruct (app_analyze_ret sig s s' d g H) as (r1 & r2 & -> & ->).
    destruct (Hd r1), (Hg r2). auto.
  - destruct (standalone_analyze_ret sig s s' d g H) as (r1 & r2 & -> & ->).
    destruct (Hd r1), (Hg r2). auto.
Qed.

Lemma X7_analysis_texts_are_trimmed_witness :
  let s := App.boot {| sweeps := [];
                       replies := [Body (Some (lit "  NFM voice  "));
                                   Body (Some (lit "   "))];
                       waits := [] |} in
  fst (App.analyze_with_ollama sample_observation s)
  = Ret (lit "NFM voice", no_suggestions) /\
  strip (lit "NFM voice") = lit "NFM voice".
Proof.
  intros s. split; [vm_compute; reflexivity|].
  destruct X7_analysis_texts_are_trimmed as [H _].
  destruct (App.analyze_with_ollama sample_observation s) as [r s'] eqn:E.
  assert (Hr : r = Ret (lit "NFM voice", no_suggestions)).
  { change r with (fst (r, s')). rewrite <- E. vm_compute. reflexivity. }
  subst r. exact (proj1 (proj2 (proj2 (H _ _ _ _ _ E)))).
Defined.

(** ** A suggestion applied twice *)

(** X8. [adjust_settings] sets the gains a suggestion names whatever
    they were before, so that applying a suggestion a second time changes
    nothing: the configuration is the one the first application left,
    and the call ends as the first one did. In both programs. *)
Theorem X8_adjust_is_idempotent (text : str) :
  (forall s : App.state,
     let once := App.adjust_settings text s in
     let twice := App.adjust_settings text (snd once) in
     self (snd twice) = self (snd once) /\ fst twice = fst once) /\
  (forall s : Standalone.state,
     let once := Standalone.adjust_settings text s in
     let twice := Standalone.adjust_settings text (snd once) in
     self (snd twice) = self (snd once) /\ fst twice = fst once).
Proof.
  split; intros [a w tr]; cbv zeta.
  - destruct a as [lna vga amp stop].
    unfold App.adjust_settings, lna_pattern, vga_pattern.
    destruct (search_gain_cases lna_label text)
      as [(dl & -> & Hl & Ll & Cl)|[(dl & -> & Hl & Ll & Cl)|[-> Hl]]];
      destruct (search_gain_cases vga_label text)
        as [(dv & -> & Hv & Lv & Cv)|[(dv & -> & Hv & Lv & Cv)|[-> Hv]]];
      repeat (run_app; first [rewrite Cl | rewrite Cv]);
      run_app; split; reflexivity.
  - destruct a as [lna vga amp].
    unfold Standalone.adjust_settings, lna_pattern, vga_pattern.
    destruct (search_gain_cases lna_label text)
      as [(dl & -> & Hl & Ll & Cl)|[(dl & -> & Hl & Ll & Cl)|[-> Hl]]];
      destruct (search_gain_cases vga_label text)
        as [(dv & -> & Hv & Lv & Cv)|[(dv & -> & Hv & Lv & Cv)|[-> Hv]]];
      repeat (run_standalone; first [rewrite Cl | rewrite Cv]);
      run_standalone; split; reflexivity.
Qed.

(** ** The rows of the log *)

Lemma rows_written_app (x y : list event) :
  rows_written (x ++ y) = rows_written x ++ rows_written y.
Proof. apply flat_map_app. Qed.

Lemma rows_emitted_app (x y : list event) :
  rows_emitted (x ++ y) = rows_emitted x ++ rows_emitted y.
Proof. apply flat_map_app. Qed.

Lemma plain_no_rows (evs : list event) :
  Forall plain_event evs -> rows_written evs = [] /\ rows_emitted evs = [].
Proof.
  induction 1 as [|e evs He _ [IHw IHe]]; [now split|].
  destruct e; try destruct He; cbn; now split.
Qed.

Lemma analysis_events_plain (sig : signal_data) (khz : float) (lna vga : Z)
    (r1 r2 : reply) :
  Forall plain_event (analysis_events sig khz lna vga r1 r2).
Proof. apply quiet_plain, analysis_events_quiet. Qed.

(** What holds of the events of the cycles, of no events, and of events
    put end to end, holds of those of the loop. *)
Lemma app_loop_blocks (Q : list event -> Prop) :
  Q [] -> (forall x y, Q x -> Q y -> Q (x ++ y)) ->
  (forall s, exists r s' evs,
     App.cycle s = (r, s') /\ trace s' = trace s ++ evs /\ Q evs) ->
  forall fuel s,
    exists r s' evs,
      App.loop fuel s = (r, s') /\ trace s' = trace s ++ evs /\ Q evs.
Proof.
  intros Hnil Happ Hcycle fuel.
  induction fuel as [|fuel IH]; intros s; rewrite app_loop_eq.
  - exists (if App.stop_event (self s) then Ret tt else Stuck), s, [].
    split; [now destruct (App.stop_event (self s))|].
    split; [now rewrite app_nil_r | exact Hnil].
  - destruct (App.stop_event (self s)).
    { exists (Ret tt), s, []. split; [reflexivity|].
      split; [now rewrite app_nil_r | exact Hnil]. }
    destruct (Hcycle s) as (rc & s1 & evs1 & Hc & Ht1 & HQ1).
    rewrite Hc. destruct rc as [[]|e|].
    + destruct (IH s1) as (r & s' & evs & Hl & Ht & HQ).
      exists r, s', (evs1 ++ evs). split; [exact Hl|].
      split; [rewrite Ht, Ht1; now rewrite app_assoc | now apply Happ].
    + exists (Raise e), s1, evs1. auto.
    + exists Stuck, s1, evs1. auto.
Qed.

(** X9. In [app.py] the rows sent to the web interface are the rows
    written to the log file, one for one and in the same order: a run
    sends a row when it has written it and at no other time. *)
Theorem X9_web_rows_are_log_rows (fuel : nat) (s : App.state) :
  exists r s' evs,
    App.start_analysis_loop fuel s = (r, s') /\
    trace s' = trace s ++ evs /\
    rows_emitted evs = rows_written evs.
Proof.
  rewrite app_start_eq.
  destruct (app_loop_blocks (fun evs => rows_emitted evs = rows_written evs))
    with (fuel := fuel)
         (s := {| self := self s; env := env s;
                  trace := trace s ++ [Log MsgStarted] |})
    as (r & s1 & evs & -> & Ht & HQ).
  - reflexivity.
  - intros x y Hx Hy. now rewrite rows_emitted_app, rows_written_app, Hx, Hy.
  - intros s0. destruct (app_cycle_record s0)
      as (r & s' & evs & Hc & Ht & Hshape).
    exists r, s', (app_scan_events (self s0) ++ evs).
    split; [exact Hc|]. split; [exact Ht|].
    rewrite rows_emitted_app, rows_written_app. cbn [app_scan_events].
    destruct Hshape as [Hp|Hrec].
    + destruct (plain_no_rows evs Hp) as [-> ->]. reflexivity.
    + destruct Hrec as (sig & khz & r1 & r2 & m & evs2 & evs3 & _ & -> & H2
                        & H3).
      rewrite !rows_emitted_app, !rows_written_app.
      destruct (plain_no_rows _ (adjust_plain _ H2)) as [-> ->].
      destruct (plain_no_rows _ H3) as [-> ->].
      change (Log (MsgStrongest sig) :: analysis_events sig khz
                (App.lna_gain (self s0)) (App.vga_gain (self s0)) r1 r2)
        with ([Log (MsgStrongest sig)] ++ analysis_events sig khz
                (App.lna_gain (self s0)) (App.vga_gain (self s0)) r1 r2).
      rewrite !rows_emitted_app, !rows_written_app.
      destruct (plain_no_rows _ (analysis_events_plain sig khz
                  (App.lna_gain (self s0)) (App.vga_gain (self s0)) r1 r2))
        as [-> ->].
      reflexivity.
  - cbn [trace] in Ht. destruct r as [[]|e|].
    + eexists. eexists. exists (Log MsgStarted :: evs ++ [Log MsgStopped]).
      split; [reflexivity|]. cbn [trace]. rewrite Ht.
      split; [now rewrite <- !app_assoc|].
      change (Log MsgStarted :: evs ++ [Log MsgStopped])
        with ([Log MsgStarted] ++ evs ++ [Log MsgStopped]).
      rewrite !rows_emitted_app, !rows_written_app, HQ. reflexivity.
    + exists (Raise e), s1, (Log MsgStarted :: evs). split; [reflexivity|].
      rewrite Ht. split; [now rewrite <- app_assoc | exact HQ].
    + exists Stuck, s1, (Log MsgStarted :: evs). split; [reflexivity|].
      rewrite Ht. split; [now rewrite <- app_assoc | exact HQ].
Qed.






(** ** A power that is not a number *)

Lemma fgt_nan (q : float) : fgt q S754_nan = false.
Proof. reflexivity. Qed.

Lemma nan_fgt (q : float) : fgt S754_nan q = false.
Proof. unfold fgt, SFltb. now destruct q as [[]|[]| |[]]. Qed.

Lemma raw_power_long (r : row) (p : float) :
  raw_power r = Some p -> long_row r = true.
Proof.
  unfold raw_power, long_row. intros H.
  destruct (nth_error r 6) eqn:E; [|discriminate].
  apply Nat.ltb_lt. apply nth_error_Some. congruence.
Qed.

Lemma max_step_raw (r : row) (p : float) (best : option (row * float)) :
  raw_power r = Some p ->
  max_step r best =
  (Ret tt, match best with
           | None => Some (r, p)
           | Some (r0, p0) => if fgt p p0 then Some (r, p) else Some (r0, p0)
           end).
Proof.
  unfold raw_power. intros H.
  destruct (nth_error r 6) as [f|] eqn:H6; [|discriminate].
  unfold max_step, item, float_, orelse, bind, get. rewrite H6. cbn.
  rewrite H. cbn. destruct best as [[r0 p0]|]; [|reflexivity].
  destruct (fgt p p0); reflexivity.
Qed.

(** Once a row whose power is not a number is kept, it stays. *)
Lemma max_keeps_nan (rows : list row) (r0 : row) :
  (forall r, In r rows -> long_row r = true -> raw_power r <> None) ->
  for_each (filter long_row rows) max_step (Some (r0, S754_nan))
  = (Ret tt, Some (r0, S754_nan)).
Proof.
  induction rows as [|x rows IH]; intros H; [reflexivity|].
  cbn [filter]. destruct (long_row x) eqn:L.
  - destruct (raw_power x) as [q|] eqn:Hq;
      [|now destruct (H x (or_introl eq_refl) L)].
    rewrite for_each_cons, (max_step_raw x q _ Hq), fgt_nan.
    apply IH. intros y Hy. apply H. now right.
  - apply IH. intros y Hy. apply H. now right.
Qed.

Lemma filter_short (rows : list row) :
  (forall r, In r rows -> long_row r = false) -> filter long_row rows = [].
Proof.
  induction rows as [|x rows IH]; intros H; [reflexivity|].
  cbn [filter]. rewrite (H x (or_introl eq_refl)). apply IH.
  intros y Hy. apply H. now right.
Qed.

Lemma scan_row_nan (r : row) (l : Standalone.scan_locals) :
  raw_power r = Some S754_nan -> Standalone.scan_row r l = (Ret tt, l).
Proof.
  unfold raw_power. intros H.
  destruct (nth_error r 6) as [f|] eqn:H6; [|discriminate].
  unfold Standalone.scan_row, try_except, item, float_, orelse, bind, ret,
    get. rewrite H6. cbv beta iota. rewrite H. cbv beta iota.
  now rewrite nan_fgt.
Qed.

(** X11. A power that reads as a number but is not one ([nan]) is
    greater than no power and no power is greater than it. In [app.py]
    the first row of seven fields or more, when its power is such, is the
    row selected, whatever the powers of the rows after it; in
    [rf_analyzer.py] a row of such a power is passed over, and an output
    whose rows all have such a power gives no signal. *)
Theorem X11_power_not_a_number :
  (forall stdout short r0 rest f2 f3 f4 lo hi bw half,
     data_rows stdout = Some (short ++ r0 :: rest) ->
     (forall r, In r short -> long_row r = false) ->
     raw_power r0 = Some S754_nan ->
     (forall r, In r rest -> long_row r = true -> raw_power r <> None) ->
     nth_error r0 2 = Some f2 -> int_of_str f2 = Some lo ->
     nth_error r0 3 = Some f3 -> int_of_str f3 = Some hi ->
     nth_error r0 4 = Some f4 -> int_of_str f4 = Some bw ->
     int_truediv (lo + hi) 2 = Some half ->
     App.select_strongest stdout =
     Ret (Some {| frequency_mhz :=
                    fdiv half (float_of_decimal false 1000000 0);
                  power_db := S754_nan; bandwidth_hz := bw |})) /\
  (forall r l,
     raw_power r = Some S754_nan -> Standalone.scan_row r l = (Ret tt, l)) /\
  (forall stdout rows,
     data_rows stdout = Some rows ->
     (forall r, In r rows -> long_row r = true ->
                raw_power r = Some S754_nan) ->
     Standalone.select_strongest stdout = Ret None).
Proof.
  split; [|split].
  - intros stdout short r0 rest f2 f3 f4 lo hi bw half Hd Hshort Hnan Hrest
      H2 I2 H3 I3 H4 I4 Hh.
    unfold data_rows in Hd. unfold App.select_strongest, run.
    destruct (List.length (split newline (strip stdout)) <? 2)%nat;
      [discriminate|].
    destruct (csv_reader (split newline (strip stdout))) as [[|h rs] [e|]];
      try discriminate.
    injection Hd as ->.
    erewrite bind_Ret by reflexivity.
    erewrite bind_Ret.
    2:{ apply locally_Ret. unfold max_by_power. erewrite bind_Ret;
          [reflexivity|].
        rewrite filter_app, (filter_short short Hshort). cbn [app filter].
        rewrite (raw_power_long r0 _ Hnan), for_each_cons.
        rewrite (max_step_raw r0 _ None Hnan).
        apply (max_keeps_nan rest r0 Hrest). }
    pose proof Hnan as Hraw. unfold raw_power in Hraw.
    destruct (nth_error r0 6) as [f6|] eqn:H6; [|discriminate].
    destruct r0 as [|c r']; [discriminate|].
    unfold item, int_, float_, midpoint_mhz, orelse, bind, ret.
    rewrite H2, I2, H3, I3, H4, I4, H6, Hraw, Hh. reflexivity.
  - exact scan_row_nan.
  - intros stdout rows Hd Hall.
    unfold data_rows in Hd. unfold Standalone.select_strongest, run.
    destruct (List.length (split newline (strip stdout)) <? 2)%nat;
      [discriminate|].
    destruct (csv_reader (split newline (strip stdout))) as [[|h rs] [e|]];
      try discriminate.
    injection Hd as ->.
    erewrite bind_Ret by reflexivity.
    erewrite bind_Ret.
    2:{ apply locally_Ret. unfold Standalone.scan_rows. erewrite bind_Ret;
          [reflexivity|].
        instantiate (1 := {| Standalone.strongest_signal := None;
                             Standalone.max_power := Standalone.minus_999 |}).
        generalize {| Standalone.strongest_signal := None;
                      Standalone.max_power := Standalone.minus_999 |}.
        induction rows as [|x rows IH]; intros l; [reflexivity|].
        rewrite for_each_cons.
        assert (Hx : Standalone.scan_row x l = (Ret tt, l)).
        { destruct (long_row x) eqn:L.
          - apply scan_row_nan. apply Hall; [now left | exact L].
          - now apply scan_row_short. }
        rewrite Hx. apply IH. intros y Hy. apply Hall. now right. }
    reflexivity.
Qed.

Lemma X11_power_not_a_number_witness :
  App.select_strongest nan_sweep =
  Ret (Some {| frequency_mhz := frequency_mhz sample_observation;
               power_db := S754_nan; bandwidth_hz := 100000 |}) /\
  Standalone.select_strongest nan_sweep = Ret (Some sample_observation).
Proof.
  split; [|vm_compute; reflexivity].
  destruct X11_power_not_a_number as [H _].
  rewrite (H nan_sweep []
             (map lit ["d"; "t"; "100000000"; "100100000"; "100000";
                       "131072"; "nan"]%string)
             [map lit ["d"; "t"; "100000000"; "100100000"; "100000";
                       "131072"; "-20.5"]%string]
             (lit "100000000") (lit "100100000") (lit "100000")
             100000000 100100000 100000
             (S754_finite false 6714241843200000 (-26))).
  - vm_compute. reflexivity.
  - vm_compute. reflexivity.
  - intros r [].
  - vm_compute. reflexivity.
  - intros r [<-|[]] _. vm_compute. discriminate.
  - reflexivity.
  - vm_compute. reflexivity.
  - reflexivity.
  - vm_compute. reflexivity.
  - reflexivity.
  - vm_compute. reflexivity.
  - vm_compute. reflexivity.
Defined.

(** ** The modulation read again *)


(** ** The log file read back *)

Lemma parse_chars_app (p : csv_parser) (a b : str) :
  parse_chars p (a ++ b) =
  match parse_chars p a with
  | Some p' => parse_chars p' b
  | None => None
  end.
Proof.
  revert p. induction a as [|c a IH]; intros p; [reflexivity|].
  cbn [app parse_chars]. destruct (parse_process_char p (Some c)); auto.
Qed.

Lemma at_line_step (p0 p p' : csv_parser) (cur : str) (c : ascii) :
  at_line p0 cur p -> parse_process_char p (Some c) = Some p' ->
  at_line p0 (c :: cur) p'.
Proof.
  unfold at_line. intros H Hc. cbn [rev]. rewrite parse_chars_app, H.
  cbn [parse_chars]. now rewrite Hc.
Qed.

Lemma reads_nil (p : csv_parser) : reads p [] p.
Proof. intros p0 cur rest H. exists p0, cur. now split. Qed.

Lemma reads_app (p p1 p2 : csv_parser) (t1 t2 : str) :
  reads p t1 p1 -> reads p1 t2 p2 -> reads p (t1 ++ t2) p2.
Proof.
  intros H1 H2 p0 cur rest Hat.
  destruct (H1 p0 cur (t2 ++ rest) Hat) as (p0' & cur' & Hat' & E1).
  destruct (H2 p0' cur' rest Hat') as (p0'' & cur'' & Hat'' & E2).
  exists p0'', cur''. split; [exact Hat''|].
  now rewrite <- app_assoc, E1, E2.
Qed.

(** A character that ends no line. *)
Lemma reads_char (p p' : csv_parser) (c : ascii) :
  is_eol_char c = false -> parse_process_char p (Some c) = Some p' ->
  reads p [c] p'.
Proof.
  intros Hc Hp p0 cur rest Hat. exists p0, (c :: cur).
  split; [exact (at_line_step p0 p p' cur c Hat Hp)|].
  unfold is_eol_char in Hc. apply orb_false_elim in Hc. destruct Hc as [H1 H2].
  cbn [app file_lines_from]. now rewrite H1, H2.
Qed.

Lemma parse_add_char_ok (p : csv_parser) (st : csv_state) (c : ascii) :
  Z.of_nat (List.length (field p)) < field_size_limit ->
  parse_add_char p st c =
  Some {| state := st; field := c :: field p; fields := fields p |}.
Proof.
  intros H. unfold parse_add_char.
  destruct (Z.leb_spec field_size_limit (Z.of_nat (List.length (field p))));
    [lia | reflexivity].
Qed.

Lemma must_quote_false (c : ascii) :
  must_quote c = false ->
  Ascii.eqb c "," = false /\ Ascii.eqb c quotechar = false /\
  is_eol_char c = false.
Proof.
  unfold must_quote. intros H. apply orb_false_elim in H.
  destruct H as [H H3]. apply orb_false_elim in H. now destruct H.
Qed.

(** A field written as it is. *)
Lemma reads_plain_field (f : str) :
  forall p,
    existsb must_quote f = false ->
    state p = START_RECORD \/ state p = START_FIELD \/ state p = IN_FIELD ->
    Z.of_nat (List.length (field p) + List.length f) <= field_size_limit ->
    exists p',
      reads p f p' /\ field p' = rev f ++ field p /\ fields p' = fields p /\
      (f = [] -> p' = p) /\ (f <> [] -> state p' = IN_FIELD).
Proof.
  induction f as [|c f IH]; intros p Hq Hst Hlen.
  - exists p. split; [apply reads_nil|]. repeat split; auto. contradiction.
  - cbn [existsb] in Hq. apply orb_false_elim in Hq. destruct Hq as [Hc Hq].
    destruct (must_quote_false c Hc) as (Hcomma & Hquote & Heol).
    cbn [List.length] in Hlen.
    assert (Hstep : parse_process_char p (Some c) =
                    Some {| state := IN_FIELD; field := c :: field p;
                            fields := fields p |}).
    { rewrite <- (parse_add_char_ok p IN_FIELD c) by lia.
      unfold parse_process_char.
      destruct Hst as [->|[->| ->]]; now rewrite Heol, ?Hquote, Hcomma. }
    destruct (IH {| state := IN_FIELD; field := c :: field p;
                    fields := fields p |} Hq)
      as (p' & Hr & Hf & Hfs & Hnil & Hne).
    { cbn [state]. auto. }
    { cbn [field List.length]. lia. }
    exists p'. split.
    { change (c :: f) with ([c] ++ f).
      exact (reads_app _ _ _ _ _ (reads_char _ _ c Heol Hstep) Hr). }
    cbn [field fields] in Hf, Hfs. split.
    { rewrite Hf. cbn [rev]. now rewrite <- app_assoc. }
    split; [exact Hfs|]. split; [discriminate|]. intros _.
    destruct f as [|c' f'].
    + now rewrite (Hnil eq_refl).
    + apply Hne. discriminate.
Qed.

(** The first character of what follows a character inside quotes is
    no line feed, unless it is the next character of the field. *)
Lemma quoted_tail_head (content rest : str) :
  match content with c :: _ => c <> newline | [] => True end ->
  exists c s, double_quotes content ++ quotechar :: rest = c :: s /\
              Ascii.eqb c newline = false.
Proof.
  destruct content as [|c content]; intros H.
  - exists quotechar, rest. now split.
  - unfold double_quotes. cbn [flat_map].
    destruct (Ascii.eqb c quotechar); cbn [app]; eexists; eexists;
      (split; [reflexivity|]); now apply Ascii.eqb_neq.
Qed.

(** A line that ends inside quotes: the parser goes on with the next
    line. *)
Lemma reader_rows_quoted_line (p0 p p' : csv_parser) (cur ending : str)
    (ls : list str) :
  at_line p0 cur p -> parse_chars p ending = Some p' ->
  state p' = IN_QUOTED_FIELD ->
  reader_rows p0 ((rev cur ++ ending) :: ls) = reader_rows p' ls.
Proof.
  unfold at_line. intros Hat Hend Hst. cbn [reader_rows]. unfold parse_line.
  rewrite parse_chars_app, Hat, Hend. unfold parse_process_char.
  rewrite Hst. cbv beta iota. rewrite Hst. reflexivity.
Qed.

Lemma file_lines_lf (cur s : str) :
  file_lines_from cur (newline :: s)
  = (rev cur ++ [newline]) :: file_lines_from [] s.
Proof. reflexivity. Qed.

Lemma file_lines_crlf (cur s : str) :
  file_lines_from cur (carriage_return :: newline :: s)
  = (rev cur ++ [carriage_return; newline]) :: file_lines_from [] s.
Proof.
  cbn [file_lines_from rev].
  change (Ascii.eqb carriage_return newline) with false.
  change (Ascii.eqb carriage_return carriage_return) with true.
  change (Ascii.eqb newline newline) with true. cbv beta iota.
  now rewrite <- app_assoc.
Qed.

Lemma file_lines_cr (cur : str) (c : ascii) (s : str) :
  Ascii.eqb c newline = false ->
  file_lines_from cur (carriage_return :: c :: s)
  = (rev cur ++ [carriage_return]) :: file_lines_from [] (c :: s).
Proof.
  intros H. cbn [file_lines_from rev].
  change (Ascii.eqb carriage_return newline) with false.
  change (Ascii.eqb carriage_return carriage_return) with true.
  cbv beta iota. now rewrite H.
Qed.

Lemma file_lines_char (cur : str) (c : ascii) (s : str) :
  is_eol_char c = false ->
  file_lines_from cur (c :: s) = file_lines_from (c :: cur) s.
Proof.
  unfold is_eol_char. intros H. apply orb_false_elim in H.
  destruct H as [H1 H2]. cbn [file_lines_from]. now rewrite H1, H2.
Qed.

Lemma double_quotes_cons (c : ascii) (s : str) :
  Ascii.eqb c quotechar = false ->
  double_quotes (c :: s) = c :: double_quotes s.
Proof. intros H. unfold double_quotes. cbn [flat_map]. now rewrite H. Qed.

Lemma double_quotes_quote (s : str) :
  double_quotes (quotechar :: s) = quotechar :: quotechar :: double_quotes s.
Proof. reflexivity. Qed.

(** The content of a field written between quotes, and the quote that
    closes it. *)
Lemma reads_quoted_content (n : nat) :
  forall content p0 cur p rest,
    (List.length content <= n)%nat ->
    at_line p0 cur p -> state p = IN_QUOTED_FIELD ->
    Z.of_nat (List.length (field p) + List.length content)
    <= field_size_limit ->
    exists p0' cur' p',
      at_line p0' cur' p' /\ state p' = QUOTE_IN_QUOTED_FIELD /\
      field p' = rev content ++ field p /\ fields p' = fields p /\
      reader_rows p0
        (file_lines_from cur (double_quotes content ++ quotechar :: rest))
      = reader_rows p0' (file_lines_from cur' rest).
Proof.
  assert (Hclose : forall p0 cur p rest,
            at_line p0 cur p -> state p = IN_QUOTED_FIELD ->
            exists p0' cur' p',
              at_line p0' cur' p' /\ state p' = QUOTE_IN_QUOTED_FIELD /\
              field p' = rev [] ++ field p /\ fields p' = fields p /\
              reader_rows p0
                (file_lines_from cur (double_quotes [] ++ quotechar :: rest))
              = reader_rows p0' (file_lines_from cur' rest)).
  { intros p0 cur p rest Hat Hst.
    exists p0, (quotechar :: cur), (set_state p QUOTE_IN_QUOTED_FIELD).
    split.
    { apply (at_line_step p0 p _ cur quotechar Hat).
      unfold parse_process_char. now rewrite Hst. }
    repeat split. }
  induction n as [|n IH]; intros content p0 cur p rest Hn Hat Hst Hlen.
  { destruct content; [now apply Hclose | cbn in Hn; lia]. }
  destruct content as [|c content]; [now apply Hclose|].
  cbn [List.length] in Hn, Hlen.
  assert (Hadd : forall x, Ascii.eqb x quotechar = false ->
            parse_process_char p (Some x) =
            Some {| state := IN_QUOTED_FIELD; field := x :: field p;
                    fields := fields p |}).
  { intros x Hx. unfold parse_process_char. rewrite Hst, Hx.
    apply parse_add_char_ok. lia. }
  destruct (Ascii.eqb_spec c quotechar) as [->|Hq].
  { (* a quote, written twice *)
    set (p1 := set_state p QUOTE_IN_QUOTED_FIELD).
    set (p2 := {| state := IN_QUOTED_FIELD; field := quotechar :: field p;
                  fields := fields p |}).
    assert (H1 : at_line p0 (quotechar :: cur) p1).
    { apply (at_line_step p0 p _ cur quotechar Hat).
      unfold parse_process_char. now rewrite Hst. }
    assert (H2 : at_line p0 (quotechar :: quotechar :: cur) p2).
    { apply (at_line_step p0 p1 _ _ quotechar H1).
      unfold parse_process_char, p1. cbn [state set_state].
      rewrite Ascii.eqb_refl.
      rewrite parse_add_char_ok by (unfold set_state; cbn [field]; lia).
      reflexivity. }
    destruct (IH content p0 (quotechar :: quotechar :: cur) p2 rest)
      as (p0' & cur' & p' & Hat' & Hst' & Hf & Hfs & E);
      [lia | exact H2 | reflexivity | unfold p2; cbn [field List.length]; lia |].
    exists p0', cur', p'. split; [exact Hat'|]. split; [exact Hst'|].
    split.
    { rewrite Hf. unfold p2. cbn [field rev]. now rewrite <- app_assoc. }
    split; [exact Hfs|]. rewrite <- E, double_quotes_quote. cbn [app].
    now rewrite !file_lines_char by reflexivity. }
  apply Ascii.eqb_neq in Hq.
  rewrite (double_quotes_cons c content Hq). cbn [app].
  set (p1 := {| state := IN_QUOTED_FIELD; field := c :: field p;
                fields := fields p |}).
  assert (Hf1 : forall p', field p' = rev content ++ field p1 ->
                           field p' = rev (c :: content) ++ field p).
  { intros p' ->. unfold p1. cbn [field rev]. now rewrite <- app_assoc. }
  destruct (Ascii.eqb_spec c newline) as [->|Hnl].
  { (* a line feed *)
    destruct (IH content p1 [] p1 rest)
      as (p0' & cur' & p' & Hat' & Hst' & Hf & Hfs & E);
      [lia | reflexivity | reflexivity
      | unfold p1; cbn [field List.length]; lia |].
    exists p0', cur', p'. split; [exact Hat'|]. split; [exact Hst'|].
    split; [now apply Hf1|]. split; [exact Hfs|].
    rewrite <- E, file_lines_lf.
    apply (reader_rows_quoted_line p0 p p1 cur [newline] _ Hat);
      [|reflexivity].
    cbn [parse_chars]. now rewrite (Hadd newline Hq). }
  destruct (Ascii.eqb_spec c carriage_return) as [->|Hcr].
  { (* a carriage return *)
    assert (Hcr1 : parse_chars p [carriage_return] = Some p1).
    { cbn [parse_chars]. now rewrite (Hadd carriage_return Hq). }
    destruct content as [|c' content'].
    - (* then the closing quote *)
      destruct (IH [] p1 [] p1 rest)
        as (p0' & cur' & p' & Hat' & Hst' & Hf & Hfs & E);
        [cbn; lia | reflexivity | reflexivity
        | unfold p1; cbn [field List.length]; lia |].
      exists p0', cur', p'. split; [exact Hat'|]. split; [exact Hst'|].
      split; [now apply Hf1|]. split; [exact Hfs|].
      rewrite <- E. cbn [double_quotes flat_map app].
      rewrite file_lines_cr by reflexivity.
      now apply (reader_rows_quoted_line p0 p p1 cur [carriage_return] _ Hat).
    - destruct (Ascii.eqb_spec c' newline) as [->|Hc'].
      + (* CR LF *)
        set (p2 := {| state := IN_QUOTED_FIELD;
                      field := newline :: carriage_return :: field p;
                      fields := fields p |}).
        cbn [List.length] in Hn, Hlen.
        destruct (IH content' p2 [] p2 rest)
          as (p0' & cur' & p' & Hat' & Hst' & Hf & Hfs & E);
          [lia | reflexivity | reflexivity
          | unfold p2; cbn [field List.length]; lia |].
        exists p0', cur', p'. split; [exact Hat'|]. split; [exact Hst'|].
        split.
        { rewrite Hf. unfold p2. cbn [field rev]. now rewrite <- !app_assoc. }
        split; [exact Hfs|]. rewrite <- E.
        rewrite (double_quotes_cons newline content') by reflexivity.
        cbn [app]. rewrite file_lines_crlf.
        apply (reader_rows_quoted_line p0 p p2 cur
                 [carriage_return; newline] _ Hat); [|reflexivity].
        cbn [parse_chars]. rewrite (Hadd carriage_return Hq).
        unfold parse_process_char. cbn [state].
        change (Ascii.eqb newline quotechar) with false. cbv beta iota.
        rewrite parse_add_char_ok by (cbn [field List.length]; lia).
        reflexivity.
      + (* CR, then another character of the field *)
        destruct (IH (c' :: content') p1 [] p1 rest)
          as (p0' & cur' & p' & Hat' & Hst' & Hf & Hfs & E);
          [cbn [List.length] in *; lia | reflexivity | reflexivity
          | unfold p1; cbn [field List.length] in *; lia |].
        exists p0', cur', p'. split; [exact Hat'|]. split; [exact Hst'|].
        split; [now apply Hf1|]. split; [exact Hfs|]. rewrite <- E.
        destruct (quoted_tail_head (c' :: content') rest Hc')
          as (x & s & Es & Hx).
        rewrite Es, (file_lines_cr cur x s Hx).
        now apply (reader_rows_quoted_line p0 p p1 cur [carriage_return] _
                     Hat). }
  (* any other character *)
  assert (Heol : is_eol_char c = false).
  { unfold is_eol_char. apply Ascii.eqb_neq in Hnl, Hcr. now rewrite Hnl, Hcr. }
  assert (H1 : at_line p0 (c :: cur) p1)
    by exact (at_line_step p0 p _ cur c Hat (Hadd c Hq)).
  destruct (IH content p0 (c :: cur) p1 rest)
    as (p0' & cur' & p' & Hat' & Hst' & Hf & Hfs & E);
    [lia | exact H1 | reflexivity | unfold p1; cbn [field List.length]; lia |].
  exists p0', cur', p'. split; [exact Hat'|]. split; [exact Hst'|].
  split; [now apply Hf1|]. split; [exact Hfs|].
  now rewrite <- E, (file_lines_char cur c _ Heol).
Qed.

Lemma parser_eq (p : csv_parser) (st : csv_state) (f : str) (fs : list str) :
  state p = st -> field p = f -> fields p = fs ->
  p = {| state := st; field := f; fields := fs |}.
Proof. destruct p. cbn. now intros -> -> ->. Qed.

(** A field as [csv.writer] writes it. *)
Lemma reads_field (f : str) (p : csv_parser) (done : list str) :
  before_field p done -> short_field f ->
  exists p', reads p (write_field f) p' /\ after_field p' done f.
Proof.
  intros (Hf & Hfs & Hst) Hlen. unfold short_field in Hlen.
  unfold write_field. destruct (existsb must_quote f) eqn:Hq.
  - (* between quotes *)
    set (p1 := set_state p IN_QUOTED_FIELD).
    set (p' := {| state := QUOTE_IN_QUOTED_FIELD; field := rev f;
                  fields := rev done |}).
    exists p'. split; [|unfold after_field, p'; cbn; auto].
    change (quotechar :: double_quotes f ++ [quotechar])
      with ([quotechar] ++ (double_quotes f ++ [quotechar])).
    apply (reads_app p p1 p').
    + apply reads_char; [reflexivity|]. unfold parse_process_char.
      destruct Hst as [->|[-> _]]; reflexivity.
    + intros p0 cur rest Hat.
      destruct (reads_quoted_content (List.length f) f p0 cur p1 rest)
        as (p0' & cur' & q & Hat' & Hst' & Hf' & Hfs' & E);
        [lia | exact Hat | reflexivity
        | unfold p1, set_state; cbn [field]; rewrite Hf; cbn; lia |].
      exists p0', cur'. split.
      * replace p' with q; [exact Hat'|].
        apply parser_eq; [exact Hst' | | ].
        -- rewrite Hf'. unfold p1, set_state. cbn [field]. rewrite Hf.
           apply app_nil_r.
        -- rewrite Hfs'. unfold p1, set_state. cbn [fields]. exact Hfs.
      * rewrite <- E, <- app_assoc. reflexivity.
  - (* as it is *)
    destruct (reads_plain_field f p Hq) as (p' & Hr & Hf' & Hfs' & Hnil & Hne).
    { destruct Hst as [->|[-> _]]; auto. }
    { rewrite Hf. cbn. lia. }
    exists p'. split; [exact Hr|]. unfold after_field.
    rewrite Hf', Hf, app_nil_r, Hfs', Hfs. repeat split.
    destruct f as [|c f'].
    + rewrite (Hnil eq_refl). destruct Hst as [Hs|[Hs Hd]].
      * right. right. left. now split.
      * right. right. right. now repeat split.
    + left. apply Hne. discriminate.
Qed.

(** The comma after a field. *)
Lemma reads_comma (f : str) (p : csv_parser) (done : list str) :
  after_field p done f ->
  exists p', reads p [","%char] p' /\ before_field p' (done ++ [f]).
Proof.
  intros (Hf & Hfs & Hst). exists (parse_save_field p START_FIELD). split.
  - apply reads_char; [reflexivity|]. unfold parse_process_char.
    destruct Hst as [->|[->|[[_ ->]|(_ & -> & _)]]]; reflexivity.
  - unfold before_field, parse_save_field. cbn [field fields state].
    rewrite Hf, Hfs, rev_involutive, rev_app_distr. cbn. auto.
Qed.

(** The fields of a row, with the commas between them. *)
Lemma reads_fields (fs : list str) :
  forall (f : str) (p : csv_parser) (done : list str),
    before_field p done -> Forall short_field (f :: fs) ->
    exists p',
      reads p (join_fields (map write_field (f :: fs))) p' /\
      after_field p' (done ++ removelast (f :: fs)) (last (f :: fs) []).
Proof.
  induction fs as [|g fs IH]; intros f p done Hb Hall.
  - destruct (reads_field f p done Hb) as (p' & Hr & Ha).
    { now inversion Hall. }
    exists p'. cbn [map join_fields removelast last]. rewrite app_nil_r.
    now split.
  - inversion Hall as [|? ? Hf Hrest]; subst.
    destruct (reads_field f p done Hb Hf) as (p1 & Hr1 & Ha1).
    destruct (reads_comma f p1 done Ha1) as (p2 & Hr2 & Hb2).
    destruct (IH g p2 (done ++ [f]) Hb2 Hrest) as (p' & Hr & Ha).
    exists p'. split.
    + change (join_fields (map write_field (f :: g :: fs)))
        with (write_field f ++ [","%char]
              ++ join_fields (map write_field (g :: fs))).
      exact (reads_app _ _ _ _ _ Hr1 (reads_app _ _ _ _ _ Hr2 Hr)).
    + change (removelast (f :: g :: fs)) with (f :: removelast (g :: fs)).
      change (last (f :: g :: fs) []) with (last (g :: fs) []).
      now rewrite <- app_assoc in Ha.
Qed.

(** The end of a row. *)
Lemma reader_rows_line_end (p0 p : csv_parser) (cur rest : str)
    (row : list str) :
  at_line p0 cur p ->
  (state p = START_RECORD /\ fields p = [] /\ row = [])
  \/ ((state p = IN_FIELD \/ state p = START_FIELD
       \/ state p = QUOTE_IN_QUOTED_FIELD) /\
      rev (rev (field p) :: fields p) = row) ->
  reader_rows p0 (file_lines_from cur (line_end ++ rest)) =
  (row :: fst (reader_rows parse_reset (file_lines_from [] rest)),
   snd (reader_rows parse_reset (file_lines_from [] rest))).
Proof.
  unfold at_line. intros Hat Hcase. unfold line_end. cbn [app].
  rewrite file_lines_crlf. cbn [reader_rows]. unfold parse_line.
  rewrite parse_chars_app, Hat. cbn [parse_chars].
  destruct Hcase as [(Hst & Hfs & ->)|[Hst <-]].
  - assert (E : parse_process_char p (Some carriage_return)
                = Some (set_state p EAT_CRNL)).
    { unfold parse_process_char. now rewrite Hst. }
    rewrite E. unfold parse_process_char, set_state.
    cbn [state field fields].
    change (is_eol_char newline) with true. cbv beta iota.
    cbn [state csv_state_eqb fields]. rewrite Hfs.
    now destruct (reader_rows parse_reset (file_lines_from [] rest)).
  - assert (E : parse_process_char p (Some carriage_return)
                = Some (parse_save_field p EAT_CRNL)).
    { unfold parse_process_char.
      destruct Hst as [->|[->| ->]]; reflexivity. }
    rewrite E. unfold parse_process_char, parse_save_field, set_state.
    cbn [state field fields].
    change (is_eol_char newline) with true. cbv beta iota.
    cbn [state csv_state_eqb fields].
    now destruct (reader_rows parse_reset (file_lines_from [] rest)).
Qed.

(** A row written, read back, with what follows it. *)
Lemma read_back_row (fields : list str) (rest : str) :
  Forall short_field fields ->
  read_back (writerow fields ++ rest) =
  (fields :: fst (read_back rest), snd (read_back rest)).
Proof.
  intros Hall. unfold read_back, csv_reader, file_lines, writerow.
  assert (Hreset : before_field parse_reset []).
  { unfold before_field. cbn. auto. }
  assert (Hat0 : at_line parse_reset [] parse_reset) by reflexivity.
  destruct fields as [|f fs].
  { (* no field *)
    cbn [map join_fields app].
    apply (reader_rows_line_end parse_reset parse_reset [] rest [] Hat0).
    left. now repeat split. }
  assert (Hgen : exists p,
            reads parse_reset
              (match f :: fs with
               | [[]] => [quotechar; quotechar]
               | _ => join_fields (map write_field (f :: fs))
               end) p /\
            (state p = IN_FIELD \/ state p = START_FIELD
             \/ state p = QUOTE_IN_QUOTED_FIELD) /\
            rev (rev (field p) :: fields p) = f :: fs).
  { assert (Hjoin : (f :: fs) <> [[]] ->
              exists p,
                reads parse_reset (join_fields (map write_field (f :: fs))) p /\
                (state p = IN_FIELD \/ state p = START_FIELD
                 \/ state p = QUOTE_IN_QUOTED_FIELD) /\
                rev (rev (field p) :: fields p) = f :: fs).
    { intros Hne.
      destruct (reads_fields fs f parse_reset [] Hreset Hall)
        as (p & Hr & Hf & Hfs & Hst).
      cbn [app] in Hfs. exists p. split; [exact Hr|]. split.
      - destruct Hst as [Hst|[Hst|[[_ Hst]|(Hl & Hst & Hd)]]]; auto.
        exfalso. apply Hne. cbn [app] in Hd. destruct fs as [|g fs'].
        + cbn in Hl. now subst.
        + discriminate Hd.
      - rewrite Hf, Hfs, rev_involutive. cbn [rev]. rewrite rev_involutive.
        symmetry. apply app_removelast_last. discriminate. }
    destruct f as [|c f'].
    - destruct fs as [|g fs']; [|apply Hjoin; discriminate].
      (* one field, empty: written as two quotes *)
      exists {| state := QUOTE_IN_QUOTED_FIELD; field := []; fields := [] |}.
      split; [|cbn; auto].
      change [quotechar; quotechar] with ([quotechar] ++ [quotechar]).
      apply (reads_app _ (set_state parse_reset IN_QUOTED_FIELD)).
      + now apply reads_char.
      + now apply reads_char.
    - apply Hjoin. discriminate. }
  destruct Hgen as (p & Hr & Hst & Hrow).
  destruct (Hr parse_reset [] (line_end ++ rest) Hat0)
    as (p0' & cur' & Hat & E).
  rewrite <- app_assoc. etransitivity; [exact E|].
  apply (reader_rows_line_end p0' p cur' rest (f :: fs) Hat).
  right. now split.
Qed.

Lemma read_back_rows (rows : list (list str)) :
  Forall (Forall short_field) rows ->
  read_back (List.concat (map writerow rows)) = (rows, None).
Proof.
  induction 1 as [|r rows Hr _ IH]; [reflexivity|].
  cbn [map List.concat]. now rewrite (read_back_row r _ Hr), IH.
Qed.

Lemma append_rows (rows : list (list str)) (file : option str) :
  fold_left append_row rows file =
  match rows with
  | [] => file
  | _ => Some (file_content file ++ List.concat (map writerow rows))
  end.
Proof.
  revert file. induction rows as [|r rows IH]; intros file; [reflexivity|].
  cbn [fold_left]. rewrite IH. unfold append_row at 2.
  fold (file_content file). destruct rows as [|r' rows'].
  - cbn [map List.concat]. now rewrite app_nil_r.
  - cbn [file_content append_row]. fold (file_content file).
    cbn [map List.concat]. now rewrite <- app_assoc.
Qed.

Lemma gain_text_short (n : Z) : 0 <= n <= 62 -> short_field (str_of_int n).
Proof.
  intros H.
  assert (Hall : forallb (fun k => (List.length (str_of_int (Z.of_nat k))
                                    <=? 2)%nat) (seq 0 63) = true)
    by (vm_compute; reflexivity).
  rewrite forallb_forall in Hall.
  specialize (Hall (Z.to_nat n)). rewrite Z2Nat.id in Hall by lia.
  unfold short_field, field_size_limit.
  assert (Hin : In (Z.to_nat n) (seq 0 63)) by (apply in_seq; lia).
  apply Hall, Nat.leb_le in Hin. lia.
Qed.

(** X13. A row written by [csv.writer] reads back, with [csv.reader] on
    the file opened as the program opens it, as the fields that were
    written, whatever their characters: commas, quotes, line ends; and
    what follows the row in the file reads as it would alone. So does
    the row of the log, for a record with gains within their ranges: the
    nine fields, among them the texts of the description and of the
    suggestions as they are. The fields are no longer than the reader's
    limit on a field. *)
Theorem X13_row_reads_back :
  (forall (fields : list str) (rest : str),
     Forall short_field fields ->
     read_back (writerow fields ++ rest) =
     (fields :: fst (read_back rest), snd (read_back rest))) /\
  (forall (timestamp frequency : str) (r : log_record),
     short_field timestamp -> short_field frequency ->
     short_field (rec_modulation r) -> short_field (rec_description r) ->
     short_field (rec_suggestions r) -> short_field (rec_decoded r) ->
     gains_in_range (rec_lna_gain r) (rec_vga_gain r) ->
     read_back (writerow (log_fields timestamp frequency r)) =
     ([log_fields timestamp frequency r], None)).
Proof.
  split; [exact read_back_row|].
  intros ts fq r Hts Hfq Hm Hd Hs Hdec [Hl Hv].
  rewrite <- (app_nil_r (writerow _)), read_back_row; [reflexivity|].
  unfold log_fields. repeat constructor; try assumption.
  - apply gain_text_short. lia.
  - now apply gain_text_short.
  - unfold short_field, str_of_bool.
    destruct (rec_amp_enabled r); vm_compute; discriminate.
Qed.

Lemma X13_row_reads_back_witness :
  read_back
    (writerow [lit "2024-01-01 00:00:00"; lit "100.050";
               lit "NFM, said " ++ quotechar :: lit "narrow" ++ [quotechar]; [newline; carriage_return]; []])
  = ([[lit "2024-01-01 00:00:00"; lit "100.050";
       lit "NFM, said " ++ quotechar :: lit "narrow" ++ [quotechar]; [newline; carriage_return]; []]], None).
Proof.
  rewrite <- (app_nil_r (writerow _)).
  rewrite (proj1 X13_row_reads_back); [reflexivity|].
  repeat constructor; vm_compute; discriminate.
Defined.

(** X14. The log file the program makes reads back whole: a file that
    [_init_log_file] finds missing, with the rows appended to it, reads
    as the header of nine columns and then the rows, in order and as
    written. A file [_init_log_file] finds is left as it is, no header
    added, and rows are appended after what it holds. *)
Theorem X14_log_file_reads_back (rows : list (list str)) :
  Forall (Forall short_field) rows ->
  read_back (file_content (fold_left append_row rows (_init_log_file None)))
  = (LOG_HEADER :: rows, None) /\
  (forall content,
     file_content (fold_left append_row rows (_init_log_file (Some content)))
     = content ++ List.concat (map writerow rows)) /\
  List.length LOG_HEADER = 9%nat /\
  (forall ts fq r, List.length (log_fields ts fq r) = 9%nat).
Proof.
  intros Hall. split; [|split; [|split; reflexivity]].
  - assert (E : file_content
                  (fold_left append_row rows (_init_log_file None))
                = List.concat (map writerow (LOG_HEADER :: rows))).
    { rewrite append_rows. destruct rows; [|reflexivity].
      cbn [_init_log_file file_content map List.concat].
      now rewrite app_nil_r. }
    rewrite E. apply read_back_rows. constructor; [|exact Hall].
    unfold LOG_HEADER. repeat constructor; vm_compute; discriminate.
  - intros content. rewrite append_rows. destruct rows; [|reflexivity].
    cbn [_init_log_file file_content map List.concat].
    now rewrite app_nil_r.
Qed.

Lemma X14_log_file_reads_back_witness :
  read_back
    (file_content
       (fold_left append_row
          [[lit "t"; lit "a,b"]; [lit "u"; [newline]]]
          (_init_log_file None)))
  = ([LOG_HEADER; [lit "t"; lit "a,b"]; [lit "u"; [newline]]], None).
Proof.
  apply (X14_log_file_reads_back [[lit "t"; lit "a,b"]; [lit "u"; [newline]]]).
  repeat constructor; vm_compute; discriminate.
Defined.

(** ** Rows of any kind in [rf_analyzer.py] *)

Lemma fgt_not_nan (a b : float) : fgt a b = true -> is_nan a = false.
Proof.
  intros H. destruct a; try reflexivity. rewrite nan_fgt in H. discriminate.
Qed.

Lemma above_floor_step (p : float) (l : Standalone.scan_locals) :
  above_floor l -> fgt p (Standalone.max_power l) = true ->
  fgt p Standalone.minus_999 = true.
Proof.
  intros [E|G] H; [now rewrite E in H|].
  unfold fgt in *. fold (flt Standalone.minus_999 p).
  apply (flt_trans _ (Standalone.max_power l)); assumption.
Qed.

(** What a row does in the loop of [rf_analyzer.py], whatever its
    fields: it ends well or on [OverflowError], and the signal kept is
    the one kept before or the observation of the row. *)
Lemma scan_row_outcome (r : row) (l : Standalone.scan_locals) :
  above_floor l ->
  exists res l',
    Standalone.scan_row r l = (res, l') /\
    above_floor l' /\
    (Standalone.strongest_signal l' = Standalone.strongest_signal l \/
     exists sig,
       Standalone.strongest_signal l' = Some sig /\
       observation_of r = Some sig /\
       fgt (power_db sig) Standalone.minus_999 = true) /\
    (res = Ret tt \/ (res = Raise OverflowError /\ overflowing r)).
Proof.
  intros Hl.
  unfold Standalone.scan_row, try_except, item, int_, float_, midpoint_mhz,
    orelse, bind, ret, raise, get, put, modify.
  destruct (nth_error r 6) as [f6|] eqn:H6; cbv beta iota;
    [|exists (Ret tt), l; cbn; auto].
  destruct (float_of_str f6) as [p|] eqn:F6; cbv beta iota;
    [|exists (Ret tt), l; cbn; auto].
  destruct (fgt p (Standalone.max_power l)) eqn:G; cbv beta iota;
    [|exists (Ret tt), l; cbn; auto].
  pose proof (above_floor_step p l Hl G) as Hp.
  pose proof (fgt_not_nan _ _ G) as Np.
  assert (Hl' : above_floor
                  {| Standalone.strongest_signal :=
                       Standalone.strongest_signal l;
                     Standalone.max_power := p |}) by (now right).
  assert (Hpow : power_of r = Some p)
    by (unfold power_of; now rewrite H6, F6, Np).
  destruct (nth_error r 2) as [f2|] eqn:H2; cbv beta iota;
    [|eexists; eexists; split; [reflexivity|]; cbn; auto].
  destruct (int_of_str f2) as [lo|] eqn:I2; cbv beta iota;
    [|eexists; eexists; split; [reflexivity|]; cbn; auto].
  destruct (nth_error r 3) as [f3|] eqn:H3; cbv beta iota;
    [|eexists; eexists; split; [reflexivity|]; cbn; auto].
  destruct (int_of_str f3) as [hi|] eqn:I3; cbv beta iota;
    [|eexists; eexists; split; [reflexivity|]; cbn; auto].
  destruct (nth_error r 4) as [f4|] eqn:H4; cbv beta iota;
    [|eexists; eexists; split; [reflexivity|]; cbn; auto].
  destruct (int_of_str f4) as [bw|] eqn:I4; cbv beta iota;
    [|eexists; eexists; split; [reflexivity|]; cbn; auto].
  destruct (int_truediv (lo + hi) 2) as [half|] eqn:Hh; cbv beta iota.
  - eexists; eexists; split; [reflexivity|].
    cbn [Standalone.strongest_signal Standalone.max_power].
    split; [now right|]. split; [|now left]. right.
    eexists. split; [reflexivity|]. split; [|exact Hp].
    unfold observation_of. now rewrite H2, H3, H4, Hpow, I2, I3, I4, Hh.
  - eexists; eexists; split; [reflexivity|].
    cbn [Standalone.strongest_signal Standalone.max_power].
    split; [now right|]. split; [now left|]. right. split; [reflexivity|].
    exists f2, f3, lo, hi. auto.
Qed.

(** The same of the rows of a sweep, one after the other. *)
Lemma scan_outcome (rows : list row) (l : Standalone.scan_locals) :
  above_floor l ->
  exists res l',
    for_each rows Standalone.scan_row l = (res, l') /\
    (Standalone.strongest_signal l' = Standalone.strongest_signal l \/
     exists sig r,
       Standalone.strongest_signal l' = Some sig /\
       In r rows /\ observation_of r = Some sig /\
       fgt (power_db sig) Standalone.minus_999 = true) /\
    (res = Ret tt \/
     (res = Raise OverflowError /\ exists r, In r rows /\ overflowing r)).
Proof.
  revert l. induction rows as [|x rows IH]; intros l Hl.
  - exists (Ret tt), l. cbn. auto.
  - rewrite for_each_cons.
    destruct (scan_row_outcome x l Hl) as (res & l1 & E & Hl1 & Hs & Hr).
    rewrite E. destruct Hr as [->|[-> Ho]].
    + destruct (IH l1 Hl1) as (res' & l2 & E' & Hs' & Hr').
      exists res', l2. split; [exact E'|]. split.
      * destruct Hs' as [Es|(sig & r & Es & Hin & Hobs & Hp)].
        -- rewrite Es.
           destruct Hs as [Es1|(sig & Es1 & Hobs & Hp)]; [now left|].
           right. exists sig, x. cbn. auto.
        -- right. exists sig, r. cbn. auto.
      * destruct Hr' as [->|[-> (r & Hin & Ho)]]; [now left|].
        right. split; [reflexivity|]. exists r. cbn. auto.
    + exists (Raise OverflowError), l1. split; [reflexivity|]. split.
      * destruct Hs as [Es1|(sig & Es1 & Hobs & Hp)]; [now left|].
        right. exists sig, x. cbn. auto.
      * right. split; [reflexivity|]. exists x. cbn. auto.
Qed.

(** X15. In [rf_analyzer.py] no row of a sweep raises [ValueError] or
    [IndexError], whatever its fields: on an output that reads as CSV to
    its end the selection returns, or ends on the [OverflowError] of a
    row whose edge frequencies are too large for a float, which its
    [except] does not name. A signal it returns is the observation of a
    row of the output, of a power above -999.0. *)
Theorem X15_standalone_tolerates_rows (stdout : str) (rows : list row) :
  data_rows stdout = Some rows ->
  (exists o,
     Standalone.select_strongest stdout = Ret o /\
     forall sig, o = Some sig ->
       fgt (power_db sig) Standalone.minus_999 = true /\
       exists r, In r rows /\ observation_of r = Some sig) \/
  (Standalone.select_strongest stdout = Raise OverflowError /\
   exists r, In r rows /\ overflowing r).
Proof.
  intros Hd. unfold data_rows in Hd.
  unfold Standalone.select_strongest, run.
  destruct (List.length (split newline (strip stdout)) <? 2)%nat;
    [discriminate|].
  destruct (csv_reader (split newline (strip stdout))) as [[|h rs] [e|]];
    try discriminate.
  injection Hd as ->.
  erewrite bind_Ret by reflexivity.
  destruct (scan_outcome rows
              {| Standalone.strongest_signal := None;
                 Standalone.max_power := Standalone.minus_999 |})
    as (res & l & E & Hs & Hr); [now left|].
  destruct Hr as [->|[-> Ho]].
  - left. exists (Standalone.strongest_signal l). split.
    + erewrite bind_Ret;
        [| apply locally_Ret; unfold Standalone.scan_rows; erewrite bind_Ret;
           [reflexivity | exact E]].
      reflexivity.
    + intros sig Hsig.
      destruct Hs as [Es|(sig' & r & Es & Hin & Hobs & Hp)].
      * cbn in Es. congruence.
      * rewrite Es in Hsig. injection Hsig as <-. eauto.
  - right. split; [|exact Ho].
    erewrite bind_Raise;
      [reflexivity
      | apply locally_Raise with (l := l); unfold Standalone.scan_rows;
        erewrite bind_Raise; [reflexivity | exact E]].
Qed.

Lemma X15_standalone_tolerates_rows_witness :
  fgt (power_db sample_observation) Standalone.minus_999 = true /\
  exists r,
    In r [map lit ["d"; "t"; "100000000"; "100100000"; "100000"; "131072";
                   "n/a"]%string;
          map lit ["d"; "t"; "100000000"; "100100000"; "100000"; "131072";
                   "-20.5"]%string] /\
    observation_of r = Some sample_observation.
Proof.
  assert (Hd : data_rows noisy_sweep =
               Some [map lit ["d"; "t"; "100000000"; "100100000"; "100000";
                              "131072"; "n/a"]%string;
                     map lit ["d"; "t"; "100000000"; "100100000"; "100000";
                              "131072"; "-20.5"]%string])
    by (vm_compute; reflexivity).
  assert (Hr : Standalone.select_strongest noisy_sweep
               = Ret (Some sample_observation)) by (vm_compute; reflexivity).
  destruct (X15_standalone_tolerates_rows noisy_sweep _ Hd)
    as [(o & E & H)|(E & _)].
  - rewrite Hr in E. injection E as <-. exact (H _ eq_refl).
  - rewrite Hr in E. discriminate E.
Defined.
